(** * Tensile-test evaluation (tensile_test_data.py): data cleaning,
      linear-region detection and mechanical properties.

    The development follows the class [tensile_test]:
    - numbers: a float64 entry of a DataFrame is an exact rational or NaN;
    - frames: a DataFrame is a list of named columns and a list of labelled
      rows, mutated in place by the pandas calls the class makes;
    - objects: DataFrames live in a store and are referred to by location,
      so that [deepcopy] and [inplace=True] keep their meaning;
    - the methods [__init__], [import_data], [streamline_data],
      [calc_e_modulus], [calc_strength], [calc_toughness] and
      [calc_elongation_at_break]. *)

From Stdlib Require Import QArith Qround ZArith Lia List Bool String Sorted.
From Stdlib Require Import Lqa.
From stdpp Require Import gmap strings list.

Open Scope string_scope.

(** ** Numbers *)

(** A float64 cell of a DataFrame.  Finite values are modelled by exact
    rationals and the missing value NaN by [None]; rounding errors of the
    binary representation are outside the model, and a non-finite quotient
    (division by zero) is identified with NaN. *)
Definition cell : Type := option Q.
Definition NaN : cell := None.

Definition is_number (c : cell) : bool :=
  match c with Some _ => true | None => false end.

Definition cell_lift2 (f : Q -> Q -> Q) (a b : cell) : cell :=
  match a, b with
  | Some x, Some y => Some (f x y)
  | _, _ => NaN
  end.

Definition cell_add : cell -> cell -> cell := cell_lift2 Qplus.
Definition cell_sub : cell -> cell -> cell := cell_lift2 Qminus.
Definition cell_mul : cell -> cell -> cell := cell_lift2 Qmult.
(** Division: a quotient by zero is NaN here, where numpy gives an
    infinity for a nonzero dividend; the statements below that divide
    assume a divisor other than zero. *)
Definition cell_div (a b : cell) : cell :=
  match a, b with
  | Some x, Some y => if Qeq_bool y 0 then NaN else Some (x / y)%Q
  | _, _ => NaN
  end.

(** Comparisons of float cells: every comparison with NaN is false. *)
Definition cell_le (a b : cell) : bool :=
  match a, b with
  | Some x, Some y => Qle_bool x y
  | _, _ => false
  end.
Definition cell_ge (a b : cell) : bool := cell_le b a.

(** Equality as pandas' hashing of keys sees it: NaN equals NaN. *)
Definition cell_same (a b : cell) : bool :=
  match a, b with
  | Some x, Some y => Qeq_bool x y
  | None, None => true
  | _, _ => false
  end.

(** [numpy.rint]: round to the nearest integer, ties to the even one. *)
Definition rint (q : Q) : Z :=
  let f := Qfloor q in
  let r := (q - inject_Z f)%Q in
  match (r ?= 1 # 2)%Q with
  | Lt => f
  | Gt => (f + 1)%Z
  | Eq => if Z.even f then f else (f + 1)%Z
  end.

Definition pow10 (d : nat) : Q := inject_Z (10 ^ Z.of_nat d).

(** [numpy.around(x, decimals=d)] for [d >= 0]: scale, [rint], scale back. *)
Definition around (d : nat) (x : Q) : Q :=
  (inject_Z (rint (x * pow10 d)) / pow10 d)%Q.

Definition cell_around (d : nat) (c : cell) : cell :=
  match c with Some x => Some (around d x) | None => NaN end.

(** ** Exceptions *)

Inductive exn : Type :=
| ValueError (msg : string)
| KeyError (key : string)
| IndexError
| AttributeError (attr : string)
| InsufficientDataError
| Unbound (l : nat).

Definition result (A : Type) : Type := (exn + A)%type.
Definition Ok {A} (a : A) : result A := inr a.
Definition Err {A} (e : exn) : result A := inl e.

(** ** DataFrames *)

(** A row carries its index label and one cell per column. *)
Record row : Type := Row { label : nat; cells : list cell }.
Record frame : Type := Frame { columns : list string; rows : list row }.

Fixpoint col_index (c : string) (cols : list string) : option nat :=
  match cols with
  | [] => None
  | c' :: cols' =>
      if String.eqb c c' then Some 0%nat
      else option_map S (col_index c cols')
  end.

Definition get (i : nat) (r : row) : cell := nth i (cells r) NaN.

Definition set (i : nat) (v : cell) (r : row) : row :=
  Row (label r) (<[i := v]> (cells r)).

Definition append_cell (v : cell) (r : row) : row :=
  Row (label r) (cells r ++ [v]).

Definition column_values (i : nat) (rs : list row) : list cell :=
  map (get i) rs.

(** *** In-place methods: a computation on the frame it is called on *)

(** A computation that reads and updates a state of type [S] and returns a
    value or raises an exception; the state at the raise is kept, as the
    mutations made before a Python exception are. *)
Definition st (S A : Type) : Type := S -> S * result A.

Definition ret {S A} (a : A) : st S A := fun s => (s, Ok a).
Definition raise {S A} (e : exn) : st S A := fun s => (s, Err e).
Definition bind {S A B} (m : st S A) (k : A -> st S B) : st S B :=
  fun s =>
    match m s with
    | (s', inr a) => k a s'
    | (s', inl e) => (s', Err e)
    end.

(** A method of a DataFrame called with [inplace=True]. *)
Abbreviation mut := (st frame).

Declare Scope mut_scope.
Delimit Scope mut_scope with mut.
Notation "'do' x <- m ; k" := (bind m (fun x => k))
  (at level 10, x name, m at level 100, k at level 200) : mut_scope.
Notation "m ;; k" := (bind m (fun _ => k))
  (at level 100, k at level 200, right associativity) : mut_scope.

(** [sample[c]]: the position of column [c], or [KeyError]. *)
Definition column (c : string) : mut nat :=
  fun f =>
    match col_index c (columns f) with
    | Some i => (f, Ok i)
    | None => (f, Err (KeyError c))
    end.

Definition set_rows (rs : list row) : mut unit :=
  fun f => (Frame (columns f) rs, Ok tt).

Definition get_rows : mut (list row) := fun f => (f, Ok (rows f)).

(** [drop_duplicates(c, keep='first', inplace=True)]. *)
Fixpoint keep_first (i : nat) (seen : list cell) (rs : list row) : list row :=
  match rs with
  | [] => []
  | r :: rs' =>
      if existsb (cell_same (get i r)) seen then keep_first i seen rs'
      else r :: keep_first i (get i r :: seen) rs'
  end.

Definition drop_duplicates (c : string) : mut unit :=
  (do i <- column c;
   do rs <- get_rows;
   set_rows (keep_first i [] rs))%mut.

(** [sort_values(by=[c], inplace=True)]: ascending, NaN last.  Rows with
    equal keys keep their relative order. *)
Definition key_le (a b : cell) : bool :=
  match a, b with
  | Some x, Some y => Qle_bool x y
  | _, None => true
  | None, Some _ => false
  end.

Fixpoint insert_row (i : nat) (r : row) (rs : list row) : list row :=
  match rs with
  | [] => [r]
  | s :: rs' =>
      if key_le (get i r) (get i s) then r :: s :: rs'
      else s :: insert_row i r rs'
  end.

Fixpoint sort_rows (i : nat) (rs : list row) : list row :=
  match rs with
  | [] => []
  | r :: rs' => insert_row i r (sort_rows i rs')
  end.

Definition sort_values (c : string) : mut unit :=
  (do i <- column c;
   do rs <- get_rows;
   set_rows (sort_rows i rs))%mut.

(** [sample.where(cond, inplace=True)]: a row that fails the condition has
    all its cells replaced by NaN. *)
Definition blank (r : row) : row :=
  Row (label r) (map (fun _ => NaN) (cells r)).

Definition where_ (cond : list bool) : mut unit :=
  (do rs <- get_rows;
   set_rows (map (fun '(r, b) => if b : bool then r else blank r)
                 (combine rs cond)))%mut.

(** [dropna(inplace=True)]: drop every row that holds a NaN. *)
Definition complete (r : row) : bool := forallb is_number (cells r).

Definition dropna : mut unit :=
  (do rs <- get_rows; set_rows (List.filter complete rs))%mut.

(** [sample[c].iloc[0]]. *)
Definition iloc0 (c : string) : mut cell :=
  (do i <- column c;
   do rs <- get_rows;
   match rs with
   | [] => raise IndexError
   | r :: _ => ret (get i r)
   end)%mut.

(** [sample[c] = values]: overwrite column [c], or append it as a new last
    column; the values must be as many as the rows. *)
Definition assign (c : string) (vals : list cell) : mut unit :=
  fun f =>
    if negb (length vals =? length (rows f))%nat then
      (f, Err (ValueError "Length of values does not match length of index"))
    else
      match col_index c (columns f) with
      | Some i =>
          (Frame (columns f)
                 (map (fun '(r, v) => set i v r) (combine (rows f) vals)),
           Ok tt)
      | None =>
          (Frame (columns f ++ [c])
                 (map (fun '(r, v) => append_cell v r) (combine (rows f) vals)),
           Ok tt)
      end.

(** *** [streamline_data] *)

Section Streamline.

(** [little_helpers.num_derive.derivative(x, y)], an external routine. *)
Variable derivative : list cell -> list cell -> list cell.

(** The fields of [self] that the method reads. *)
Variable preload : option Q.
Variable strain_conversion_factor : Q.

Definition rebased_strain (t : nat) (h_0 : cell) (r : row) : cell :=
  cell_mul (cell_div (cell_sub h_0 (get t r)) h_0)
           (Some strain_conversion_factor).

Definition streamline_data : mut unit :=
  (drop_duplicates "strain";;
   sort_values "strain";;
   match preload with
   | Some p =>
       do j <- column "stress";
       do rs <- get_rows;
       where_ (map (fun r => cell_ge (get j r) (Some p)) rs);;
       dropna;;
       do h_0 <- iloc0 "tool_distance";
       do t <- column "tool_distance";
       do rs <- get_rows;
       assign "strain" (map (rebased_strain t h_0) rs);;
       do i <- column "strain";
       do j <- column "stress";
       do rs <- get_rows;
       assign "deriv" (derivative (column_values i rs) (column_values j rs))
   | None => dropna
   end)%mut.

End Streamline.

(** *** Reading a cleaned curve: strength, toughness, elongation at break *)

(** [Series.max()]: the largest value, NaN skipped; NaN when there is none. *)
Definition cell_max (a b : cell) : cell :=
  match a, b with
  | Some x, Some y => if Qle_bool x y then Some y else Some x
  | Some x, None => Some x
  | None, _ => b
  end.

Definition series_max (cs : list cell) : cell := fold_right cell_max NaN cs.

(** [Series.idxmax()]: the label of the first row that holds the largest
    value; [ValueError] when there is no value. *)
Fixpoint first_with (i : nat) (m : Q) (rs : list row) : option row :=
  match rs with
  | [] => None
  | r :: rs' =>
      match get i r with
      | Some x => if Qeq_bool x m then Some r else first_with i m rs'
      | None => first_with i m rs'
      end
  end.

Definition idxmax (c : string) : mut nat :=
  (do i <- column c;
   do rs <- get_rows;
   match series_max (column_values i rs) with
   | Some m =>
       match first_with i m rs with
       | Some r => ret (label r)
       | None => raise (ValueError "attempt to get argmax of an empty sequence")
       end
   | None => raise (ValueError "attempt to get argmax of an empty sequence")
   end)%mut.

(** [sample[c].at[l]]: the cell of column [c] in the row labelled [l]. *)
Definition at_ (c : string) (l : nat) : mut cell :=
  (do i <- column c;
   do rs <- get_rows;
   match List.find (fun r => Nat.eqb (label r) l) rs with
   | Some r => ret (get i r)
   | None => raise (KeyError "label")
   end)%mut.

(** [numpy.trapz(y, x=x)]: the sum of [d * (y[1:] + y[:-1]) / 2] with
    [d = diff(x)]. *)
Definition diff (xs : list cell) : list cell :=
  map (fun '(a, b) => cell_sub b a) (combine xs (tl xs)).

Definition cell_sum (cs : list cell) : cell :=
  fold_left cell_add cs (Some 0%Q).

Definition trapz (ys xs : list cell) : cell :=
  cell_sum
    (map (fun '(d, (y1, y0)) =>
            cell_div (cell_mul d (cell_add y1 y0)) (Some 2%Q))
         (combine (diff xs) (combine (tl ys) ys))).

Definition strength_of : mut cell :=
  (do j <- column "stress";
   do rs <- get_rows;
   ret (cell_around 1 (series_max (column_values j rs))))%mut.

Definition toughness_of (strain_conversion_factor : Q) : mut cell :=
  (do j <- column "stress";
   do ys <- (do rs <- get_rows; ret (column_values j rs));
   do i <- column "strain";
   do xs <- (do rs <- get_rows; ret (column_values i rs));
   ret (cell_around 1 (cell_div (trapz ys xs)
                                (Some strain_conversion_factor))))%mut.

(** [sample['strain'].at[sample['stress'].idxmax()]]: the strain column is
    looked up before the stress column is. *)
Definition elongation_at_break_of : mut cell :=
  (column "strain";;
   do l <- idxmax "stress";
   do e <- at_ "strain" l;
   ret (cell_around 1 e))%mut.

(** *** Cropping to the strain range of the regression *)

(** [sample[cond].index]: the labels of the rows that satisfy [cond]. *)
Definition index_where (cond : row -> bool) (rs : list row) : list nat :=
  map label (List.filter cond rs).

Definition mem_label (l : nat) (ls : list nat) : bool :=
  existsb (Nat.eqb l) ls.

(** [drop(labels, inplace=True)]: remove the rows with these labels;
    [KeyError] when one of the labels is not in the index. *)
Definition drop (labels : list nat) : mut unit :=
  fun f =>
    if forallb (fun l => mem_label l (map label (rows f))) labels then
      (Frame (columns f)
             (List.filter (fun r => negb (mem_label (label r) labels)) (rows f)),
       Ok tt)
    else (f, Err (KeyError "not found in axis")).

Fixpoint relabel (k : nat) (rs : list row) : list row :=
  match rs with
  | [] => []
  | r :: rs' => Row k (cells r) :: relabel (S k) rs'
  end.

(** [reset_index(drop=True, inplace=True)]. *)
Definition reset_index : mut unit :=
  (do rs <- get_rows; set_rows (relabel 0 rs))%mut.

(** Lines 315-321 of [calc_e_modulus], run on the copy [sample_cropped]. *)
Definition crop (lower_strain_limit upper_strain_limit : Q) : mut unit :=
  (do i <- column "strain";
   do rs <- get_rows;
   let indexNames :=
     index_where (fun r => cell_le (get i r) (Some lower_strain_limit)) rs in
   do i2 <- column "strain";
   do rs2 <- get_rows;
   let indexNames_2 :=
     index_where (fun r => cell_ge (get i2 r) (Some upper_strain_limit)) rs2 in
   drop indexNames;;
   drop indexNames_2;;
   reset_index)%mut.

(** ** Objects *)

(** DataFrames are objects: a list of samples is a list of references, and
    an in-place method changes what every holder of the reference sees.
    [Unbound] is raised on a reference without object, which no method
    below produces. *)
Definition loc : Type := nat.
Abbreviation store := (gmap loc frame).
Abbreviation obj := (st store).

Definition alloc (f : frame) : obj loc :=
  fun h => let l := fresh (dom h) in (<[l := f]> h, Ok l).

(** Run a method of the DataFrame at [l]; its mutations stay at [l]. *)
Definition in_place {A} (l : loc) (m : mut A) : obj A :=
  fun h =>
    match h !! l with
    | Some f => let '(f', r) := m f in (<[l := f']> h, r)
    | None => (h, Err (Unbound l))
    end.

Definition get_frame : mut frame := fun f => (f, Ok f).

(** [sample.copy()]: a new object with the same content. *)
Definition copy (l : loc) : obj loc :=
  (do f <- in_place l get_frame; alloc f)%mut.

Fixpoint for_each {S A B} (xs : list A) (body : A -> st S B)
  : st S (list B) :=
  match xs with
  | [] => ret []
  | x :: xs' =>
      (do b <- body x; do bs <- for_each xs' body; ret (b :: bs))%mut
  end.

(** [deepcopy] of a list of distinct DataFrames. *)
Definition deepcopy (ls : list loc) : obj (list loc) := for_each ls copy.

(** *** The results table *)

(** [self.results]: one row per sample name; a column is NaN until the
    method that owns it has run. *)
Record results_table : Type := Results {
  name : list string;
  e_modulus_title : list cell;
  linear_limit_title : list cell;
  strength_title : list cell;
  toughness_title : list cell;
  elongation_at_break_title : list cell;
  slope_limit_title : list cell;
  intercept_limit_title : list cell
}.

Definition empty_results : results_table := Results [] [] [] [] [] [] [] [].

(** [self.results['name'] = names] on the empty table. *)
Definition named_results (names : list string) : results_table :=
  let blank := map (fun _ => NaN) names in
  Results names blank blank blank blank blank blank blank.

(** [self.results[title] = values]: the values must be as many as the
    rows of the table. *)
Definition checked_column {S} (t : results_table) (vals : list cell)
  : st S (list cell) :=
  if (length vals =? length (name t))%nat then ret vals
  else raise (ValueError "Length of values does not match length of index").

(** *** The spreadsheet *)

(** A sheet is the list of its data rows (below the header lines), a
    workbook the list of its named sheets.  A data row shorter than the
    named columns is padded with NaN, cells beyond them are not read. *)
Definition sheet : Type := list (list cell).
Definition workbook : Type := list (string * sheet).

Definition parse (names : list string) (sh : sheet) : frame :=
  Frame names
        (relabel 0
           (map (fun cs =>
                   Row 0 (firstn (length names)
                                 (cs ++ repeat NaN (length names))))
                sh)).

(** *** The class [tensile_test] *)

Record tensile_test : Type := TensileTest {
  unit_strain : string;
  unit_stress : string;
  preload : option Q;
  strain_conversion_factor : Q;
  results : results_table;
  import_file : string;
  import_mode : string;
  raw_original : list loc;
  raw : list loc;
  r_squared_lower_limit : option Q;
  raw_processed : list loc;
  raw_processed_cropped : list loc;
  strength : list cell;
  toughness : list cell;
  elongation_at_break : list cell
}.

(** What [lin_reg_all_sections(..., mode='both')] returns. *)
Record regression : Type := Regression {
  regression_results : frame;
  linear_limit : cell;
  linear_limit_stress : cell;
  slope_at_limit : cell;
  intercept_at_limit : cell
}.

(** The optional keyword arguments of [calc_e_modulus]. *)
Record kwargs : Type := Kwargs {
  sav_gol_window : option nat;
  sav_gol_polyorder : option nat;
  data_points : option nat
}.

Definition unit_strain_error : exn :=
  ValueError "No valid unit_strain. Allowed values are '%' or ''.".

Definition import_mode_error : exn :=
  ValueError "No valid import mode entered.".

(** [int(10**np.ceil(np.log10(n)))]: the least power of ten not below [n],
    and 0 for [n = 0]. *)
Fixpoint pow10_ceil (fuel p n : nat) : nat :=
  if (n <=? p)%nat then p
  else match fuel with
       | O => p
       | S fuel' => pow10_ceil fuel' (10 * p) n
       end.

Definition default_data_points (n : nat) : nat :=
  if (n =? 0)%nat then 0%nat else pow10_ceil n 1 n.

(** [pd.concat([a, b], axis=1)] of two frames that both carry the labels
    0, 1, 2, ...: rows are joined by position, the shorter side padded
    with NaN. *)
Definition padded (w : nat) (rs : list row) (k : nat) : list cell :=
  match nth_error rs k with
  | Some r => cells r
  | None => repeat NaN w
  end.

Definition concat_columns (a b : frame) : frame :=
  Frame (columns a ++ columns b)
        (map (fun k =>
                Row k (padded (length (columns a)) (rows a) k ++
                       padded (length (columns b)) (rows b) k))
             (seq 0 (Nat.max (length (rows a)) (length (rows b))))).

Section Methods.

(** The collaborators of the class: the spreadsheet reader and the three
    numeric routines it imports. *)
Variable ExcelFile : string -> result workbook.
Variable derivative : list cell -> list cell -> list cell.
Variable smoothing :
  list cell -> list cell -> nat -> nat -> nat -> list cell * list cell.
Variable lin_reg_all_sections :
  list cell -> list cell -> Q -> result regression.

Definition import_sheets (names : list string) (sheets : workbook)
  : obj (list string * list loc) :=
  (do ls <- for_each sheets (fun sh => alloc (parse names (snd sh)));
   ret (map fst sheets, ls))%mut.

(** [import_data]: the sample names and [self.raw_original]; [None] when
    the Marc_Stuhlmueller filter has caught (and printed) an exception
    before [self.raw_original] was set. *)
Definition import_data (import_file import_mode : string)
  : obj (option (list string * list loc)) :=
  if String.eqb import_mode "Marc_Stuhlmueller" then
    match ExcelFile import_file with
    | inl _ => ret None
    | inr raw_excel =>
        (do r <- import_sheets ["strain"; "Standardkraft"; "stress"]
                               (skipn 3 raw_excel);
         ret (Some r))%mut
    end
  else if String.eqb import_mode "Philipp Manglkammer" then
    match ExcelFile import_file with
    | inl e => raise e
    | inr raw_excel =>
        (do r <- import_sheets ["stress"; "strain"] (skipn 3 raw_excel);
         ret (Some r))%mut
    end
  else if String.eqb import_mode "Lena_Schunter" then
    match ExcelFile import_file with
    | inl e => raise e
    | inr raw_excel =>
        (do r <- import_sheets ["tool_distance"; "strain"; "stress"]
                               (skipn 2 raw_excel);
         ret (Some r))%mut
    end
  else raise import_mode_error.

(** The method [streamline_data(self, sample)]: it works on the object
    it is given and returns that same object. *)
Definition streamline_data_method (preload : option Q)
    (strain_conversion_factor : Q) (sample : loc) : obj loc :=
  (in_place sample
     (streamline_data derivative preload strain_conversion_factor);;
   ret sample)%mut.

(** [__init__]. *)
Definition init (import_file import_mode unit_strain unit_stress : string)
    (preload : option Q) : obj tensile_test :=
  (do strain_conversion_factor <-
     (if String.eqb unit_strain "" then ret 1%Q
      else if String.eqb unit_strain "%" then ret 100%Q
      else raise unit_strain_error);
   do imported <- import_data import_file import_mode;
   match imported with
   | None => raise (AttributeError "raw_original")
   | Some (names, raw_original) =>
       do raw <- deepcopy raw_original;
       for_each raw
         (streamline_data_method preload strain_conversion_factor);;
       ret (TensileTest unit_strain unit_stress preload
              strain_conversion_factor (named_results names)
              import_file import_mode raw_original raw
              None [] [] [] [] [])
   end)%mut.

Definition calc_strength (self : tensile_test)
  : obj (tensile_test * list cell) :=
  (do strength <- for_each (raw self)
                    (fun sample => in_place sample strength_of);
   do col <- checked_column (results self) strength;
   let t := results self in
   let self' :=
     TensileTest (unit_strain self) (unit_stress self) (preload self)
       (strain_conversion_factor self)
       (Results (name t) (e_modulus_title t) (linear_limit_title t)
          col (toughness_title t) (elongation_at_break_title t)
          (slope_limit_title t) (intercept_limit_title t))
       (import_file self) (import_mode self)
       (raw_original self) (raw self) (r_squared_lower_limit self)
       (raw_processed self) (raw_processed_cropped self) strength
       (toughness self) (elongation_at_break self) in
   ret (self', strength))%mut.

Definition calc_toughness (self : tensile_test)
  : obj (tensile_test * list cell) :=
  (do toughness <- for_each (raw self)
                     (fun sample =>
                        in_place sample
                          (toughness_of (strain_conversion_factor self)));
   do col <- checked_column (results self) toughness;
   let t := results self in
   let self' :=
     TensileTest (unit_strain self) (unit_stress self) (preload self)
       (strain_conversion_factor self)
       (Results (name t) (e_modulus_title t) (linear_limit_title t)
          (strength_title t) col (elongation_at_break_title t)
          (slope_limit_title t) (intercept_limit_title t))
       (import_file self) (import_mode self)
       (raw_original self) (raw self) (r_squared_lower_limit self)
       (raw_processed self) (raw_processed_cropped self) (strength self)
       toughness (elongation_at_break self) in
   ret (self', toughness))%mut.

Definition calc_elongation_at_break (self : tensile_test)
  : obj (tensile_test * list cell) :=
  (do elongation_at_break <-
     for_each (raw self)
       (fun sample => in_place sample elongation_at_break_of);
   do col <- checked_column (results self) elongation_at_break;
   let t := results self in
   let self' :=
     TensileTest (unit_strain self) (unit_stress self) (preload self)
       (strain_conversion_factor self)
       (Results (name t) (e_modulus_title t) (linear_limit_title t)
          (strength_title t) (toughness_title t) col
          (slope_limit_title t) (intercept_limit_title t))
       (import_file self) (import_mode self)
       (raw_original self) (raw self) (r_squared_lower_limit self)
       (raw_processed self) (raw_processed_cropped self) (strength self)
       (toughness self) elongation_at_break in
   ret (self', elongation_at_break))%mut.

(** [sample.loc[:, c].values]. *)
Definition values (c : string) : mut (list cell) :=
  (do i <- column c; do rs <- get_rows; ret (column_values i rs))%mut.

(** [smooth_data]: the smoothed curve is a new DataFrame. *)
Definition smooth_data (sample : loc) (window poly_order : nat)
    (data_points : option nat) : obj loc :=
  (do smoothed_sample <- in_place sample (values "stress");
   do x_coordinate <- in_place sample (values "strain");
   let data_points :=
     match data_points with
     | Some n => n
     | None => default_data_points (length x_coordinate)
     end in
   let '(strain_interpolated, smoothed_sample) :=
     smoothing smoothed_sample x_coordinate window poly_order data_points in
   alloc (Frame ["strain"; "stress"]
                (relabel 0
                   (map (fun '(x, y) => Row 0 [x; y])
                        (combine strain_interpolated smoothed_sample)))))%mut.

(** The Young's modulus of one sample from the slope at the linear
    limit (lines 333-337). *)
Definition e_modulus_of (strain_conversion_factor : Q)
    (curr_slope_at_limit : cell) : cell :=
  let curr_e_modulus :=
    cell_mul (cell_around 3 curr_slope_at_limit)
             (Some strain_conversion_factor) in
  cell_around 3 curr_e_modulus.

(** The body of the second loop of [calc_e_modulus] for one sample:
    the regression, the modulus and the new [sample_cropped]. *)
Definition regress_sample (strain_conversion_factor : Q)
    (r_squared_lower_limit lower_strain_limit upper_strain_limit : Q)
    (sample : loc) : obj (regression * cell * loc) :=
  (do sample_cropped <- copy sample;
   in_place sample_cropped (crop lower_strain_limit upper_strain_limit);;
   do xs <- in_place sample_cropped (values "strain");
   do ys <- in_place sample_cropped (values "stress");
   match lin_reg_all_sections xs ys r_squared_lower_limit with
   | inl e => raise e
   | inr reg =>
       do f <- in_place sample_cropped get_frame;
       do sample_cropped' <-
         alloc (concat_columns f (regression_results reg));
       ret (reg,
            e_modulus_of strain_conversion_factor (slope_at_limit reg),
            sample_cropped')
   end)%mut.

Definition calc_e_modulus (self : tensile_test)
    (r_squared_lower_limit lower_strain_limit upper_strain_limit : Q)
    (smooth : bool) (kw : kwargs) : obj tensile_test :=
  (do raw_processed <-
     for_each (raw self)
       (fun sample =>
          if smooth then
            smooth_data sample
              (default 500%nat (sav_gol_window kw))
              (default 2%nat (sav_gol_polyorder kw))
              (data_points kw)
          else ret sample);
   do per_sample <-
     for_each raw_processed
       (regress_sample (strain_conversion_factor self)
          r_squared_lower_limit lower_strain_limit upper_strain_limit);
   let e_modulus := map (fun x => snd (fst x)) per_sample in
   let linear_limit := map (fun x => linear_limit (fst (fst x))) per_sample in
   let slope_limit := map (fun x => slope_at_limit (fst (fst x))) per_sample in
   let intercept_limit :=
     map (fun x => intercept_at_limit (fst (fst x))) per_sample in
   let t := results self in
   do c1 <- checked_column t e_modulus;
   do c2 <- checked_column t linear_limit;
   do c3 <- checked_column t slope_limit;
   do c4 <- checked_column t intercept_limit;
   ret (TensileTest (unit_strain self) (unit_stress self) (preload self)
          (strain_conversion_factor self)
          (Results (name t) c1 c2 (strength_title t) (toughness_title t)
             (elongation_at_break_title t) c3 c4)
          (import_file self) (import_mode self)
          (raw_original self) (raw self) (Some r_squared_lower_limit)
          raw_processed (map snd per_sample) (strength self)
          (toughness self) (elongation_at_break self)))%mut.

End Methods.

(** ** The numeric collaborators *)

(** Modelled from the spec: [little_helpers.num_derive.derivative] is
    imported by the class but is not among its sources.  Section 6 gives
    its contract: dy/dx aligned to x, central difference at interior
    points, defined behaviour at both ends; the ends take the one-sided
    difference quotient. *)
Definition derivative (x y : list cell) : list cell :=
  let n := length x in
  map (fun k =>
         let lo := Nat.pred k in
         let hi := Nat.min (S k) (Nat.pred n) in
         cell_div (cell_sub (nth hi y NaN) (nth lo y NaN))
                  (cell_sub (nth hi x NaN) (nth lo x NaN)))
      (seq 0 n).

(** *** Linear-region detection *)

(** One entry of the regression trace. *)
Record fit : Type := Fit { slope : Q; intercept : Q; r_squared : Q }.

(** The sufficient statistics of a window: the number of points and the
    running sums of x, y, xy, x² and y². *)
Record sums : Type := Sums {
  count : Z; sum_x : Q; sum_y : Q; sum_xy : Q; sum_xx : Q; sum_yy : Q
}.

Definition no_points : sums := Sums 0 0 0 0 0 0.

Definition add_point (s : sums) (p : Q * Q) : sums :=
  let '(x, y) := p in
  Sums (count s + 1) (sum_x s + x) (sum_y s + y)
       (sum_xy s + x * y) (sum_xx s + x * x) (sum_yy s + y * y).

(** Modelled from the spec: the fit of a window inside the missing
    [lin_reg_all_sections], computed from the running sums; no line for a
    window without strain variance. *)
Definition fit_of (s : sums) : option fit :=
  let n := inject_Z (count s) in
  let dxx := (n * sum_xx s - sum_x s * sum_x s)%Q in
  let dxy := (n * sum_xy s - sum_x s * sum_y s)%Q in
  let dyy := (n * sum_yy s - sum_y s * sum_y s)%Q in
  if Qeq_bool dxx 0 then None
  else Some (Fit (dxy / dxx)
                 ((sum_y s - dxy / dxx * sum_x s) / n)
                 (dxy * dxy / (dxx * dyy))).

Definition qualifies (tau : Q) (f : option fit) : bool :=
  match f with
  | Some ft => Qle_bool tau (r_squared ft)
  | None => false
  end.

(** Modelled from the spec: the sweep of the missing
    [lin_reg_all_sections]; each further point updates the sums in
    constant time, yields the entry of its window, and replaces the
    tracked window when its R² is at least [tau]. *)
Fixpoint sweep (tau : Q) (s : sums) (best : option (Q * Q * fit))
    (pts : list (Q * Q)) : list (option fit) * option (Q * Q * fit) :=
  match pts with
  | [] => ([], best)
  | p :: pts' =>
      let s' := add_point s p in
      let f := fit_of s' in
      let best' :=
        match f with
        | Some ft =>
            if Qle_bool tau (r_squared ft) then Some (fst p, snd p, ft)
            else best
        | None => best
        end in
      let '(trace, final) := sweep tau s' best' pts' in
      (f :: trace, final)
  end.

Definition trace_row (f : option fit) : row :=
  match f with
  | Some ft => Row 0 [Some (slope ft); Some (intercept ft); Some (r_squared ft)]
  | None => Row 0 [NaN; NaN; NaN]
  end.

Fixpoint numbers (cs : list cell) : option (list Q) :=
  match cs with
  | [] => Some []
  | Some x :: cs' => option_map (cons x) (numbers cs')
  | None :: _ => None
  end.

(** Modelled from the spec: [pyRegression.linear_regression.lin_reg_all_sections]
    is imported by the class but is not among its sources.  Section 4.3:
    for window size k = 2..M fit an ordinary-least-squares line of stress
    on strain to the first k points, from incrementally updated sums;
    scanning k upward, track the last k with r_squared(k) >= tau and
    report the strain at that k and the fit of that k; fewer than 2
    points fail with InsufficientDataError; a window with zero strain
    variance is left out of the scan.  The trace has one row per point,
    the row of window k at label k-1 and an empty row at label 0.  The
    spec fixes no result for curves that hold NaN or have no qualifying
    window; the model reports NaN there. *)
Definition lin_reg_all_sections (x_values y_values : list cell)
    (r_squared_limit : Q) : result regression :=
  if (length x_values <? 2)%nat then Err InsufficientDataError
  else
    match numbers x_values, numbers y_values with
    | Some xs, Some ys =>
        match combine xs ys with
        | [] => Err InsufficientDataError
        | p :: pts =>
            let '(trace, final) :=
              sweep r_squared_limit (add_point no_points p) None pts in
            let table :=
              Frame ["slopes"; "intercepts"; "r_squared"]
                    (relabel 0 (map trace_row (None :: trace))) in
            match final with
            | Some (x, y, ft) =>
                Ok (Regression table (Some x) (Some y)
                               (Some (slope ft)) (Some (intercept ft)))
            | None => Ok (Regression table NaN NaN NaN NaN)
            end
        end
    | _, _ =>
        Ok (Regression
              (Frame ["slopes"; "intercepts"; "r_squared"]
                     (relabel 0 (map (fun _ => trace_row None) x_values)))
              NaN NaN NaN NaN)
    end.

(** *** The fit in the words of the algorithm *)

Definition Qsum (l : list Q) : Q := fold_right Qplus 0%Q l.

Definition mean (l : list Q) : Q := (Qsum l / inject_Z (Z.of_nat (length l)))%Q.

(** The ordinary-least-squares line of stress on strain through a list of
    points: slope cov(x,y)/var(x), intercept mean(y) - slope * mean(x),
    R² the squared correlation. *)
Definition ols (pts : list (Q * Q)) : option fit :=
  let mx := mean (map fst pts) in
  let my := mean (map snd pts) in
  let sxx := Qsum (map (fun p => (fst p - mx) * (fst p - mx))%Q pts) in
  let sxy := Qsum (map (fun p => (fst p - mx) * (snd p - my))%Q pts) in
  let syy := Qsum (map (fun p => (snd p - my) * (snd p - my))%Q pts) in
  if Qeq_bool sxx 0 then None
  else Some (Fit (sxy / sxx) (my - sxy / sxx * mx) (sxy * sxy / (sxx * syy))).

(** ** Vocabulary of the statements *)

(** The strict order of finite cells; NaN is not in the order. *)
Definition cell_lt (a b : cell) : Prop :=
  match a, b with
  | Some x, Some y => (x < y)%Q
  | _, _ => False
  end.

Definition strictly_increasing (cs : list cell) : Prop :=
  StronglySorted cell_lt cs.

(** Rows of a frame are as wide as its header. *)
Definition wf_frame (f : frame) : Prop :=
  Forall (fun r => length (cells r) = length (columns f)) (rows f).

Definition distinct_keys (i : nat) (a b : row) : Prop :=
  cell_same (get i a) (get i b) = false.

Definition key_before (i : nat) (a b : row) : Prop :=
  key_le (get i a) (get i b) = true.

Definition key_strictly_before (i : nat) (a b : row) : Prop :=
  key_before i a b /\ distinct_keys i a b.

(** The rows that survive [where] and [dropna] under preload [p]. *)
Definition kept_rows (i j : nat) (p : Q) (rs : list row) : list row :=
  List.filter (fun r => cell_ge (get j r) (Some p) && complete r)
              (sort_rows i (keep_first i [] rs)).

(** What [streamline_data] leaves in the frame when some row survives. *)
Definition streamlined (d : list cell -> list cell -> list cell)
    (scf : Q) (i j t : nat) (h_0 : cell) (cols : list string)
    (kept : list row) : frame :=
  let rebased := map (fun r => set i (rebased_strain scf t h_0 r) r) kept in
  Frame (cols ++ ["deriv"])
        (map (fun '(r, v) => append_cell v r)
             (combine rebased
                      (d (column_values i rebased) (column_values j rebased)))).

(** The area under a polygon through the points, trapezoid by trapezoid. *)
Fixpoint trapezoidal_integral (pts : list (Q * Q)) : Q :=
  match pts with
  | (x0, y0) :: (((x1, y1) :: _) as rest) =>
      ((x1 - x0) * (y0 + y1) / 2 + trapezoidal_integral rest)%Q
  | _ => 0%Q
  end.

(** The points of a curve without missing values. *)
Definition curve_of (i j : nat) (pts : list (Q * Q)) (rs : list row) : Prop :=
  column_values i rs = map (fun p => Some (fst p)) pts /\
  column_values j rs = map (fun p => Some (snd p)) pts.

(** A row stays in the strain range of the regression when its strain is
    neither [<= lower_strain_limit] nor [>= upper_strain_limit]. *)
Definition in_strain_range (i : nat) (lower upper : Q) (r : row) : bool :=
  negb (cell_le (get i r) (Some lower)) && negb (cell_ge (get i r) (Some upper)).

(** The column names and the number of leading sheets that are not
    samples, per import filter. *)
Definition import_filter (import_mode : string) : option (list string * nat) :=
  if String.eqb import_mode "Marc_Stuhlmueller" then
    Some (["strain"; "Standardkraft"; "stress"], 3%nat)
  else if String.eqb import_mode "Philipp Manglkammer" then
    Some (["stress"; "strain"], 3%nat)
  else if String.eqb import_mode "Lena_Schunter" then
    Some (["tool_distance"; "strain"; "stress"], 2%nat)
  else None.

(** The frames that the import filter reads from a workbook. *)
Definition imported_frames (cols : list string) (k : nat) (wb : workbook)
  : list frame :=
  map (fun sh => parse cols (snd sh)) (skipn k wb).

(** The sums of a window of points. *)
Definition sums_of (pts : list (Q * Q)) : sums :=
  fold_left add_point pts no_points.

(** Two entries that agree as numbers. *)
Definition fit_eq (f g : fit) : Prop :=
  (slope f == slope g /\ intercept f == intercept g /\
   r_squared f == r_squared g)%Q.

Definition option_fit_eq (f g : option fit) : Prop :=
  match f, g with
  | Some a, Some b => fit_eq a b
  | None, None => True
  | _, _ => False
  end.

(** The row of the regression table shows the entry [f]. *)
Definition shows (r : row) (f : option fit) : Prop :=
  match f with
  | Some ft =>
      exists a b c,
        cells r = [Some a; Some b; Some c] /\
        (a == slope ft /\ b == intercept ft /\ c == r_squared ft)%Q
  | None => cells r = [NaN; NaN; NaN]
  end.

Definition sums_eq (s s' : sums) : Prop :=
  count s = count s' /\
  (sum_x s == sum_x s' /\ sum_y s == sum_y s' /\ sum_xy s == sum_xy s' /\
   sum_xx s == sum_xx s' /\ sum_yy s == sum_yy s')%Q.

(** The sums of a window, written as sums over the list. *)
Definition stats (l : list (Q * Q)) : sums :=
  Sums (Z.of_nat (length l))
       (Qsum (map fst l)) (Qsum (map snd l))
       (Qsum (map (fun p => fst p * snd p)%Q l))
       (Qsum (map (fun p => fst p * fst p)%Q l))
       (Qsum (map (fun p => snd p * snd p)%Q l)).

(** The store [h'] holds the frames [fs] at the references [ls]. *)
Definition holds (h' : store) (ls : list loc) (fs : list frame) : Prop :=
  Forall2 (fun l f => h' !! l = Some f) ls fs.

(** The object at [l] is the same before and after [m], and the value
    that [m] returns satisfies [Q]. *)
Definition preserves_with {A} (l : loc) (Q : A -> Prop) (m : obj A) : Prop :=
  forall (h : store) f, h !! l = Some f ->
    fst (m h) !! l = Some f /\ forall a, snd (m h) = Ok a -> Q a.

Definition preserves {A} (l : loc) (m : obj A) : Prop :=
  preserves_with l (fun _ => True) m.

Definition read_only {A} (m : mut A) : Prop := forall f, fst (m f) = f.

(** The computation never raises the configuration error of the unit
    check. *)
Definition no_unit_error {S A} (m : st S A) : Prop :=
  forall s, snd (m s) <> Err unit_strain_error.

(** ** Sample data *)

Definition num (z : Z) : cell := Some (inject_Z z).

(** A tension test read with the Lena_Schunter filter: the tool distance
    grows with the strain. *)
Definition tension_sample : frame :=
  Frame ["tool_distance"; "strain"; "stress"]
        [Row 0 [num 10; num 0; num 5];
         Row 1 [num 11; num 10; num 6];
         Row 2 [num 12; num 20; num 7]].

(** A raw curve as the spreadsheets have them: strain out of order at the
    start, a repeated strain value and a missing stress value. *)
Definition messy_sample : frame :=
  Frame ["strain"; "Standardkraft"; "stress"]
        [Row 0 [num 1; num 3; num 6];
         Row 1 [num 0; num 1; num 2];
         Row 2 [num 1; num 4; num 8];
         Row 3 [num 2; num 5; NaN];
         Row 4 [num 3; num 6; num 12]].

(** The toughness scenario: strain 0, 1, 2 (in percent), stress 0, 10, 20. *)
Definition toughness_sample : frame :=
  Frame ["strain"; "stress"]
        [Row 0 [num 0; num 0]; Row 1 [num 1; num 10]; Row 2 [num 2; num 20]].

(** The elongation scenario: strain 0, 1, 2, stress 1, 5, 3. *)
Definition elongation_sample : frame :=
  Frame ["strain"; "stress"]
        [Row 0 [num 0; num 1]; Row 1 [num 1; num 5]; Row 2 [num 2; num 3]].

(** A workbook for the Philipp Manglkammer filter (columns stress, strain;
    the first three sheets are not samples): the toughness scenario and
    the elongation scenario. *)
Definition lab_workbook : workbook :=
  [("Parameter", []); ("Ergebnisse", []); ("Statistik", []);
   ("toughness", [[num 0; num 0]; [num 10; num 1]; [num 20; num 2]]);
   ("elongation", [[num 1; num 0]; [num 5; num 1]; [num 3; num 2]])].

Definition lab_file (path : string) : result workbook := Ok lab_workbook.

Definition toughness_points : list (Q * Q) :=
  [(0%Q, 0%Q); (1%Q, 10%Q); (2%Q, 20%Q)].

(** A workbook for the Lena_Schunter filter (columns tool_distance,
    strain, stress; the first two sheets are not samples): the stress of
    the first sample stays below 100, the second exceeds it. *)
Definition preload_workbook : workbook :=
  [("Parameter", []); ("Statistik", []);
   ("soft", [[num 10; num 0; num 5]; [num 9; num 10; num 6]]);
   ("stiff", [[num 10; num 0; num 50]; [num 9; num 10; num 150]])].

Definition preload_file (path : string) : result workbook :=
  Ok preload_workbook.

(** A cleaned curve without rows. *)
Definition empty_sample : frame := Frame ["stress"; "strain"] [].

(** The piecewise scenario: strain 0, 1, ..., 9; stress 2 * strain below
    strain 5 and 10 + 0.1 * (strain - 5) from strain 5 on. *)
Definition piecewise_points : list (Q * Q) :=
  [(0, 0); (1, 2); (2, 4); (3, 6); (4, 8); (5, 10);
   (6, 101 # 10); (7, 102 # 10); (8, 103 # 10); (9, 104 # 10)]%Q.

Definition piecewise_workbook : workbook :=
  [("Parameter", []); ("Ergebnisse", []); ("Statistik", []);
   ("piecewise",
    map (fun p => [Some (snd p); Some (fst p)]) piecewise_points)].

Definition piecewise_file (path : string) : result workbook :=
  Ok piecewise_workbook.

(** A smoothing routine that returns the curve as it is, for evaluations
    with [smoothing=False], where it is not called. *)
Definition no_smoothing (values x_coordinate : list cell)
    (window poly_order data_points : nat) : list cell * list cell :=
  (x_coordinate, values).

(** A curve whose first row lacks the tool distance while its stress is
    above a preload of 5. *)
Definition gap_sample : frame :=
  Frame ["tool_distance"; "strain"; "stress"]
        [Row 0 [NaN; num 0; num 10];
         Row 1 [num 5; num 1; num 10];
         Row 2 [num 4; num 2; num 12]].

(** ** Vocabulary of the further properties *)

(** The index labels of [g] are among those of [f], each at most as often
    as in [f]. *)
Definition labels_within (f g : frame) : Prop :=
  exists rest,
    Permutation (map label (rows f)) (map label (rows g) ++ rest)%list.

(** What an in-place cleaning step may do to a frame: drop or reorder
    rows, keep the frame rectangular, and add columns at the end. *)
Definition shrinks (f g : frame) : Prop :=
  labels_within f g /\
  (wf_frame f -> wf_frame g) /\
  exists extra, columns g = (columns f ++ extra)%list.

(** Every state that [m] can leave behind is related to the one it
    started from, whether [m] returns or raises. *)
Definition keeps_rel {A} (R : frame -> frame -> Prop) (m : mut A) : Prop :=
  forall f, R f (fst (m f)).


(** The state of an object after construction: the samples of [self.raw]
    are objects of the store, each with a strain and a stress column and
    with distinct index labels, and the results table has one row per
    sample. *)
Definition ready (h : store) (self : tensile_test) (fs : list frame) : Prop :=
  holds h (raw self) fs /\
  length (name (results self)) = length fs /\
  Forall (fun g =>
            (exists i, col_index "strain" (columns g) = Some i) /\
            (exists j, col_index "stress" (columns g) = Some j) /\
            List.NoDup (map label (rows g))) fs.



(** Every column of the results table has one entry per sample name. *)
Definition rectangular (t : results_table) : Prop :=
  let n := length (name t) in
  length (e_modulus_title t) = n /\ length (linear_limit_title t) = n /\
  length (strength_title t) = n /\ length (toughness_title t) = n /\
  length (elongation_at_break_title t) = n /\
  length (slope_limit_title t) = n /\ length (intercept_limit_title t) = n.

(** The strain and stress values of a sample that [calc_e_modulus] hands
    to the regression: those of the rows inside the strain range. *)
Definition regression_input (lower upper : Q) (f : frame)
  : list cell * list cell :=
  match col_index "strain" (columns f), col_index "stress" (columns f) with
  | Some i, Some j =>
      let kept := List.filter (in_strain_range i lower upper) (rows f) in
      (column_values i kept, column_values j kept)
  | _, _ => ([], [])
  end.

(** The titles of the result columns (lines 80-86 of [__init__]) and the
    columns of the results table (lines 88-92). *)
Definition e_modulus_title_of (unit_stress : string) : string :=
  "e_modulus [" ++ unit_stress ++ "]".
Definition linear_limit_title_of (unit_strain : string) : string :=
  "linear_limit [" ++ unit_strain ++ "]".
Definition strength_title_of (unit_stress : string) : string :=
  "strength [" ++ unit_stress ++ "]".
Definition toughness_title_of (unit_stress : string) : string :=
  "toughness [" ++ unit_stress ++ "] (Pa = J/m^3)".
Definition elongation_at_break_title_of (unit_strain : string) : string :=
  "elongation_at_break [" ++ unit_strain ++ "]".
Definition slope_limit_title_of (unit_strain unit_stress : string) : string :=
  "slope_limit [" ++ unit_stress ++ "/" ++ unit_strain ++ "]".
Definition intercept_limit_title_of (unit_stress : string) : string :=
  "intercept_limit [" ++ unit_stress ++ "]".

Definition results_columns (unit_strain unit_stress : string) : list string :=
  ["name"; e_modulus_title_of unit_stress;
   linear_limit_title_of unit_strain; strength_title_of unit_stress;
   toughness_title_of unit_stress;
   elongation_at_break_title_of unit_strain;
   slope_limit_title_of unit_strain unit_stress;
   intercept_limit_title_of unit_stress].

(** The toughness scenario with dimensionless strain: 0, 0.01, 0.02. *)
Definition fraction_points : list (Q * Q) :=
  [(0%Q, 0%Q); (1 # 100, 10%Q); (2 # 100, 20%Q)]%Q.

Definition fraction_sample : frame :=
  Frame ["strain"; "stress"]
        [Row 0 [Some 0%Q; Some 0%Q]; Row 1 [Some (1 # 100)%Q; Some 10%Q];
         Row 2 [Some (2 # 100)%Q; Some 20%Q]].

(** A reader that is given a file which is no workbook. *)
Definition not_a_workbook : exn :=
  ValueError "Excel file format cannot be determined, you must specify an engine manually.".

Definition broken_file (path : string) : result workbook :=
  Err not_a_workbook.

(** * Properties *)

(** ** Order on cells *)

Lemma cell_same_sym a b : cell_same a b = cell_same b a.
Proof.
  destruct a as [x|], b as [y|]; simpl; try reflexivity.
  destruct (Qeq_bool x y) eqn:E1, (Qeq_bool y x) eqn:E2; try reflexivity.
  - apply Qeq_bool_iff in E1. symmetry in E1. apply Qeq_bool_iff in E1. congruence.
  - apply Qeq_bool_iff in E2. symmetry in E2. apply Qeq_bool_iff in E2. congruence.
Qed.

Lemma key_le_total a b : key_le a b = false -> key_le b a = true.
Proof.
  destruct a as [x|], b as [y|]; simpl; try congruence.
  intros H. apply Qle_bool_iff.
  destruct (Qlt_le_dec y x) as [L|L].
  - apply Qlt_le_weak. exact L.
  - apply Qle_bool_iff in L. congruence.
Qed.

Lemma key_le_trans a b c :
  key_le a b = true -> key_le b c = true -> key_le a c = true.
Proof.
  destruct a as [x|], b as [y|], c as [z|]; simpl; try congruence.
  rewrite !Qle_bool_iff. apply Qle_trans.
Qed.

Lemma key_strict_lt a b :
  key_le (Some a) (Some b) = true -> cell_same (Some a) (Some b) = false ->
  (a < b)%Q.
Proof.
  simpl. intros L N. apply Qle_bool_iff in L. apply Qeq_bool_neq in N.
  apply Qle_lteq in L. tauto.
Qed.

(** ** [drop_duplicates] and [sort_values] *)

Lemma keep_first_spec i rs : forall seen,
  StronglySorted (distinct_keys i) (keep_first i seen rs) /\
  Forall (fun r => existsb (cell_same (get i r)) seen = false)
         (keep_first i seen rs).
Proof.
  induction rs as [|r rs IH]; intros seen; simpl.
  - split; constructor.
  - destruct (existsb (cell_same (get i r)) seen) eqn:E.
    + apply IH.
    + destruct (IH (get i r :: seen)) as [S F]. split.
      * constructor; [exact S|].
        eapply List.Forall_impl; [|exact F]. simpl. intros a Ha.
        apply orb_false_iff in Ha. destruct Ha as [Ha _].
        unfold distinct_keys. rewrite cell_same_sym. exact Ha.
      * constructor; [exact E|].
        eapply List.Forall_impl; [|exact F]. simpl. intros a Ha.
        apply orb_false_iff in Ha. tauto.
Qed.

Lemma keep_first_incl i rs : forall seen r,
  In r (keep_first i seen rs) -> In r rs.
Proof.
  induction rs as [|a rs IH]; intros seen r; simpl; [tauto|].
  destruct (existsb _ seen).
  - intros H. right. eapply IH, H.
  - intros [H|H]; [left; exact H | right; eapply IH, H].
Qed.

Lemma keep_first_id i rs : forall seen,
  StronglySorted (distinct_keys i) rs ->
  Forall (fun r => existsb (cell_same (get i r)) seen = false) rs ->
  keep_first i seen rs = rs.
Proof.
  induction rs as [|r rs IH]; intros seen S F; simpl; [reflexivity|].
  inversion S as [|? ? S' D]; subst. inversion F as [|? ? E F']; subst.
  rewrite E. f_equal. apply IH; [exact S'|].
  rewrite List.Forall_forall in *. intros a Ha. simpl.
  apply orb_false_iff. split; [|apply F', Ha].
  rewrite cell_same_sym. apply D, Ha.
Qed.

Lemma insert_row_In i r rs x :
  In x (insert_row i r rs) <-> x = r \/ In x rs.
Proof.
  induction rs as [|s rs IH]; simpl.
  - intuition.
  - destruct (key_le (get i r) (get i s)); simpl; [intuition|].
    rewrite IH. intuition.
Qed.

Lemma sort_rows_In i rs x : In x (sort_rows i rs) <-> In x rs.
Proof.
  induction rs as [|r rs IH]; simpl; [tauto|].
  rewrite insert_row_In, IH. intuition.
Qed.

Lemma insert_row_strict i r rs :
  StronglySorted (key_strictly_before i) rs ->
  Forall (distinct_keys i r) rs ->
  StronglySorted (key_strictly_before i) (insert_row i r rs).
Proof.
  induction rs as [|s rs IH]; intros S D; simpl.
  - repeat constructor.
  - inversion S as [|? ? S' B]; subst. inversion D as [|? ? Ds D']; subst.
    destruct (key_le (get i r) (get i s)) eqn:E.
    + constructor; [exact S|]. constructor; [split; assumption|].
      rewrite List.Forall_forall in *. intros a Ha. split.
      * unfold key_before. eapply key_le_trans; [exact E|]. apply B, Ha.
      * apply D', Ha.
    + constructor; [apply IH; assumption|].
      rewrite List.Forall_forall in *. intros a Ha.
      apply insert_row_In in Ha. destruct Ha as [->|Ha]; [|apply B, Ha].
      split; [apply key_le_total, E|].
      unfold distinct_keys. rewrite cell_same_sym. exact Ds.
Qed.

Lemma sort_rows_strict i rs :
  StronglySorted (distinct_keys i) rs ->
  StronglySorted (key_strictly_before i) (sort_rows i rs).
Proof.
  induction rs as [|r rs IH]; intros S; simpl; [constructor|].
  inversion S as [|? ? S' D]; subst.
  apply insert_row_strict; [apply IH, S'|].
  rewrite List.Forall_forall in *. intros a Ha. apply D.
  apply sort_rows_In in Ha. exact Ha.
Qed.

Lemma sort_rows_id i rs :
  StronglySorted (key_before i) rs -> sort_rows i rs = rs.
Proof.
  induction rs as [|r rs IH]; intros S; simpl; [reflexivity|].
  inversion S as [|? ? S' B]; subst. rewrite IH by exact S'.
  destruct rs as [|s rs]; simpl; [reflexivity|].
  inversion B as [|? ? Bs _]; subst. unfold key_before in Bs.
  rewrite Bs. reflexivity.
Qed.

Lemma StronglySorted_filter {A} (R : A -> A -> Prop) (p : A -> bool) l :
  StronglySorted R l -> StronglySorted R (List.filter p l).
Proof.
  induction 1 as [|a l S IH F]; simpl; [constructor|].
  destruct (p a); [|exact IH].
  constructor; [exact IH|].
  rewrite List.Forall_forall in *. intros x Hx.
  apply List.filter_In in Hx. apply F, Hx.
Qed.

Lemma StronglySorted_weaken {A} (R R' : A -> A -> Prop) l :
  (forall a b, R a b -> R' a b) ->
  StronglySorted R l -> StronglySorted R' l.
Proof.
  intros W. induction 1 as [|a l S IH F]; constructor; [exact IH|].
  eapply List.Forall_impl; [|exact F]. intros b. apply W.
Qed.

(** ** [streamline_data] without preload *)

Lemma col_index_lt c cols : forall i,
  col_index c cols = Some i -> (i < length cols)%nat.
Proof.
  induction cols as [|c' cols IH]; simpl; intros i H; [discriminate|].
  destruct (String.eqb c c').
  - injection H as <-. lia.
  - destruct (col_index c cols) as [j|]; simpl in H; [|discriminate].
    injection H as <-. specialize (IH j eq_refl). lia.
Qed.

Lemma complete_get r i :
  complete r = true -> (i < length (cells r))%nat ->
  is_number (get i r) = true.
Proof.
  unfold complete, get. intros C L.
  rewrite forallb_forall in C. apply C. apply nth_In. exact L.
Qed.

Lemma strict_rows_strict_values i rs :
  StronglySorted (key_strictly_before i) rs ->
  Forall (fun r => is_number (get i r) = true) rs ->
  strictly_increasing (column_values i rs).
Proof.
  unfold strictly_increasing.
  induction 1 as [|r rs S IH B]; intros N; simpl; [constructor|].
  inversion N as [|? ? Nr N']; subst.
  constructor; [apply IH, N'|].
  rewrite List.Forall_forall in *. intros c Hc.
  apply in_map_iff in Hc. destruct Hc as [s [<- Hs]].
  specialize (B s Hs). specialize (N' s Hs). destruct B as [L D].
  unfold key_before, distinct_keys in *.
  destruct (get i r) as [x|]; [|discriminate].
  destruct (get i s) as [y|]; [|discriminate].
  simpl. apply key_strict_lt; assumption.
Qed.

Lemma streamline_data_None_eq d scf f i :
  col_index "strain" (columns f) = Some i ->
  streamline_data d None scf f =
  (Frame (columns f)
         (List.filter complete (sort_rows i (keep_first i [] (rows f)))),
   Ok tt).
Proof.
  intros H.
  unfold streamline_data, drop_duplicates, sort_values, dropna, bind,
    column, get_rows, set_rows.
  simpl. rewrite H. simpl. rewrite H. reflexivity.
Qed.

Lemma cleaned_rows_sorted i rs :
  StronglySorted (key_strictly_before i)
    (List.filter complete (sort_rows i (keep_first i [] rs))).
Proof.
  apply StronglySorted_filter, sort_rows_strict, keep_first_spec.
Qed.

Lemma cleaned_rows_incl i rs r :
  In r (List.filter complete (sort_rows i (keep_first i [] rs))) ->
  In r rs /\ complete r = true.
Proof.
  intros H. apply List.filter_In in H. destruct H as [H C]. split; [|exact C].
  apply sort_rows_In in H. eapply keep_first_incl, H.
Qed.

Lemma cleaned_rows_fixed i rs :
  let out := List.filter complete (sort_rows i (keep_first i [] rs)) in
  List.filter complete (sort_rows i (keep_first i [] out)) = out.
Proof.
  intros out. pose proof (cleaned_rows_sorted i rs) as S. fold out in S.
  rewrite keep_first_id.
  - rewrite sort_rows_id.
    + apply forallb_filter_id. apply forallb_forall. intros r Hr.
      apply (cleaned_rows_incl i rs r Hr).
    + eapply StronglySorted_weaken; [|exact S]. intros a b [H _]. exact H.
  - eapply StronglySorted_weaken; [|exact S]. intros a b [_ H]. exact H.
  - apply List.Forall_forall. intros r _. reflexivity.
Qed.

(** C4 (as amended): cleaning without the preload option returns a curve
    whose strain values are strictly increasing (hence free of
    duplicates), whose rows hold no missing value, and which cleaning
    leaves unchanged when applied again. *)
Theorem streamline_data_without_preload d scf f i :
  wf_frame f ->
  col_index "strain" (columns f) = Some i ->
  exists g,
    streamline_data d None scf f = (g, Ok tt) /\
    strictly_increasing (column_values i (rows g)) /\
    StronglySorted (distinct_keys i) (rows g) /\
    Forall (fun r => complete r = true) (rows g) /\
    streamline_data d None scf g = (g, Ok tt).
Proof.
  intros W H. eexists. split; [apply streamline_data_None_eq, H|].
  simpl. repeat split.
  - apply strict_rows_strict_values; [apply cleaned_rows_sorted|].
    apply List.Forall_forall. intros r Hr.
    apply cleaned_rows_incl in Hr. destruct Hr as [Hr C].
    apply complete_get; [exact C|].
    unfold wf_frame in W. rewrite List.Forall_forall in W.
    rewrite (W r Hr). eapply col_index_lt, H.
  - eapply StronglySorted_weaken; [|apply cleaned_rows_sorted].
    intros a b [_ D]. exact D.
  - apply List.Forall_forall. intros r Hr.
    apply (cleaned_rows_incl i _ r Hr).
  - rewrite (streamline_data_None_eq d scf _ i) by exact H. simpl.
    rewrite cleaned_rows_fixed. reflexivity.
Qed.

Lemma streamline_data_without_preload_witness :
  exists g,
    streamline_data derivative None 100 messy_sample = (g, Ok tt) /\
    strictly_increasing (column_values 0 (rows g)) /\
    StronglySorted (distinct_keys 0) (rows g) /\
    Forall (fun r => complete r = true) (rows g) /\
    streamline_data derivative None 100 g = (g, Ok tt).
Proof.
  apply (streamline_data_without_preload derivative 100 messy_sample 0).
  - repeat constructor.
  - reflexivity.
Defined.

(** With the preload option the strain is recomputed from the tool
    distance after sorting: on a tension test the new strain values
    decrease, and cleaning the result again changes it. *)
Lemma preload_breaks_strain_order :
  exists g,
    streamline_data derivative (Some 1%Q) 100 tension_sample = (g, Ok tt) /\
    column_values 1 (rows g) =
      [Some ((10 - 10) / 10 * 100)%Q; Some ((10 - 11) / 10 * 100)%Q;
       Some ((10 - 12) / 10 * 100)%Q] /\
    ~ strictly_increasing (column_values 1 (rows g)) /\
    fst (streamline_data derivative (Some 1%Q) 100 g) <> g.
Proof.
  eexists. split; [vm_compute; reflexivity|]. split; [reflexivity|]. split.
  - intros S. inversion S as [|? ? _ F]; subst.
    inversion F as [|? ? L _]; subst. vm_compute in L. discriminate.
  - vm_compute. discriminate.
Qed.

(** ** [streamline_data] with preload *)

Lemma map_combine_map {A B C} (g : A * B -> C) (h : A -> B) l :
  map g (combine l (map h l)) = map (fun x => g (x, h x)) l.
Proof. induction l as [|a l IH]; simpl; [reflexivity|]. f_equal. exact IH. Qed.

Lemma blank_incomplete r : cells r <> [] -> complete (blank r) = false.
Proof. unfold complete, blank. destruct (cells r); simpl; congruence. Qed.

Lemma filter_where_dropna (cond : row -> bool) rs :
  Forall (fun r => cells r <> []) rs ->
  List.filter complete (map (fun r => if cond r then r else blank r) rs) =
  List.filter (fun r => cond r && complete r) rs.
Proof.
  induction 1 as [|r rs N _ IH]; simpl; [reflexivity|].
  destruct (cond r); simpl.
  - destruct (complete r); [f_equal|]; exact IH.
  - rewrite (blank_incomplete r N). exact IH.
Qed.

Lemma get_set_eq i v r : (i < length (cells r))%nat -> get i (set i v r) = v.
Proof.
  intros L. unfold get, set. simpl.
  apply nth_lookup_Some with (d := NaN).
  apply list_lookup_insert_eq. exact L.
Qed.

Lemma get_set_ne i c v r : c <> i -> get c (set i v r) = get c r.
Proof.
  intros N. unfold get, set. simpl.
  rewrite !nth_lookup. rewrite list_lookup_insert_ne by congruence.
  reflexivity.
Qed.

Lemma get_append_lt c v r :
  (c < length (cells r))%nat -> get c (append_cell v r) = get c r.
Proof. intros L. unfold get, append_cell. simpl. apply app_nth1, L. Qed.

Lemma get_append_eq v r : get (length (cells r)) (append_cell v r) = v.
Proof.
  unfold get, append_cell. simpl. rewrite app_nth2 by lia.
  rewrite Nat.sub_diag. reflexivity.
Qed.

Lemma col_index_app_None c cols :
  col_index c cols = None ->
  col_index c (cols ++ [c]) = Some (length cols).
Proof.
  induction cols as [|c' cols IH]; simpl.
  - rewrite String.eqb_refl. reflexivity.
  - destruct (String.eqb c c'); [discriminate|].
    destruct (col_index c cols); simpl; [discriminate|].
    intros _. rewrite IH by reflexivity. reflexivity.
Qed.

Lemma wf_nonempty f i c :
  wf_frame f -> col_index c (columns f) = Some i ->
  Forall (fun r => cells r <> []) (rows f).
Proof.
  intros W H. apply col_index_lt in H.
  eapply List.Forall_impl; [|exact W]. simpl. intros r E N.
  rewrite N in E. simpl in E. lia.
Qed.

Lemma bind_Ok {S A B} (m : st S A) (k : A -> st S B) s s' a :
  m s = (s', Ok a) -> bind m k s = k a s'.
Proof. unfold bind. intros ->. reflexivity. Qed.

Lemma bind_Err {S A B} (m : st S A) (k : A -> st S B) s s' e :
  m s = (s', Err e) -> bind m k s = (s', Err e).
Proof. unfold bind. intros ->. reflexivity. Qed.

Lemma column_Ok c f i :
  col_index c (columns f) = Some i -> column c f = (f, Ok i).
Proof. unfold column. intros ->. reflexivity. Qed.

Lemma drop_duplicates_Ok c f i :
  col_index c (columns f) = Some i ->
  drop_duplicates c f = (Frame (columns f) (keep_first i [] (rows f)), Ok tt).
Proof. intros H. unfold drop_duplicates, bind, column. rewrite H. reflexivity. Qed.

Lemma sort_values_Ok c f i :
  col_index c (columns f) = Some i ->
  sort_values c f = (Frame (columns f) (sort_rows i (rows f)), Ok tt).
Proof. intros H. unfold sort_values, bind, column. rewrite H. reflexivity. Qed.

Lemma where_Ok (cond : row -> bool) f :
  where_ (map cond (rows f)) f =
  (Frame (columns f) (map (fun r => if cond r then r else blank r) (rows f)),
   Ok tt).
Proof.
  unfold where_, bind, get_rows, set_rows, Ok. cbv beta iota.
  rewrite map_combine_map. reflexivity.
Qed.

Lemma iloc0_Ok c f i r rs :
  col_index c (columns f) = Some i -> rows f = r :: rs ->
  iloc0 c f = (f, Ok (get i r)).
Proof.
  intros H R. unfold iloc0, bind, column, get_rows. rewrite H, R. reflexivity.
Qed.

Lemma iloc0_empty c f i :
  col_index c (columns f) = Some i -> rows f = [] ->
  iloc0 c f = (f, Err IndexError).
Proof.
  intros H R. unfold iloc0, bind, column, get_rows. rewrite H, R. reflexivity.
Qed.

Lemma assign_old c (h : row -> cell) f i :
  col_index c (columns f) = Some i ->
  assign c (map h (rows f)) f =
  (Frame (columns f) (map (fun r => set i (h r) r) (rows f)), Ok tt).
Proof.
  intros H. unfold assign. rewrite length_map, Nat.eqb_refl, H.
  cbn [negb]. rewrite map_combine_map. reflexivity.
Qed.

Lemma assign_new c vals f :
  col_index c (columns f) = None -> length vals = length (rows f) ->
  assign c vals f =
  (Frame (columns f ++ [c])
         (map (fun '(r, v) => append_cell v r) (combine (rows f) vals)),
   Ok tt).
Proof.
  intros H L. unfold assign. rewrite L, Nat.eqb_refl, H. reflexivity.
Qed.

Lemma streamline_data_Some_eq d p scf f i j t r0 kept' :
  wf_frame f ->
  col_index "strain" (columns f) = Some i ->
  col_index "stress" (columns f) = Some j ->
  col_index "tool_distance" (columns f) = Some t ->
  col_index "deriv" (columns f) = None ->
  (forall xs ys, length (d xs ys) = length xs) ->
  kept_rows i j p (rows f) = r0 :: kept' ->
  streamline_data d (Some p) scf f =
  (streamlined d scf i j t (get t r0) (columns f) (r0 :: kept'), Ok tt).
Proof.
  intros W Hi Hj Ht Hd Hlen Hk. unfold streamline_data.
  erewrite bind_Ok by (apply drop_duplicates_Ok, Hi).
  erewrite bind_Ok by (apply sort_values_Ok, Hi).
  erewrite bind_Ok by (apply column_Ok, Hj).
  erewrite bind_Ok by reflexivity.
  cbn [rows columns].
  erewrite bind_Ok.
  2:{ apply (where_Ok (fun r => cell_ge (get j r) (Some p))). }
  erewrite bind_Ok by reflexivity.
  cbn [rows columns].
  rewrite filter_where_dropna.
  2:{ apply List.Forall_forall. intros r Hr.
      apply sort_rows_In in Hr. apply keep_first_incl in Hr.
      pose proof (wf_nonempty f i _ W Hi) as N.
      rewrite List.Forall_forall in N. apply N, Hr. }
  fold (kept_rows i j p (rows f)). rewrite Hk.
  erewrite bind_Ok by (eapply iloc0_Ok; [exact Ht|reflexivity]).
  erewrite bind_Ok by (apply column_Ok, Ht).
  erewrite bind_Ok by reflexivity.
  cbn [rows columns].
  erewrite bind_Ok.
  2:{ apply (assign_old "strain" (rebased_strain scf t (get t r0))
                        (Frame (columns f) (r0 :: kept')) i), Hi. }
  erewrite bind_Ok by (apply column_Ok, Hi).
  erewrite bind_Ok by (apply column_Ok, Hj).
  erewrite bind_Ok by reflexivity.
  cbn [rows columns].
  rewrite assign_new; [reflexivity|exact Hd|].
  cbn [rows]. rewrite Hlen. unfold column_values. rewrite !length_map.
  reflexivity.
Qed.

Lemma col_index_name c cols : forall i,
  col_index c cols = Some i -> nth_error cols i = Some c.
Proof.
  induction cols as [|c' cols IH]; simpl; intros i H; [discriminate|].
  destruct (String.eqb c c') eqn:E.
  - injection H as <-. apply String.eqb_eq in E. subst. reflexivity.
  - destruct (col_index c cols) as [k|]; simpl in H; [|discriminate].
    injection H as <-. simpl. apply IH. reflexivity.
Qed.

Lemma col_index_distinct c c' cols i i' :
  c <> c' -> col_index c cols = Some i -> col_index c' cols = Some i' ->
  i <> i'.
Proof.
  intros N H H' E. subst i'.
  apply col_index_name in H. apply col_index_name in H'. congruence.
Qed.

Lemma column_values_set_eq i (h : row -> cell) l :
  Forall (fun r => (i < length (cells r))%nat) l ->
  column_values i (map (fun r => set i (h r) r) l) = map h l.
Proof.
  unfold column_values. induction 1 as [|r l L _ IH]; simpl; [reflexivity|].
  rewrite get_set_eq by exact L. f_equal. exact IH.
Qed.

Lemma column_values_set_ne i c (h : row -> cell) l :
  c <> i ->
  column_values c (map (fun r => set i (h r) r) l) = column_values c l.
Proof.
  intros N. unfold column_values. induction l as [|r l IH]; simpl; [reflexivity|].
  rewrite get_set_ne by exact N. f_equal. exact IH.
Qed.

Lemma column_values_append_lt c l : forall vals,
  length vals = length l ->
  Forall (fun r => (c < length (cells r))%nat) l ->
  column_values c (map (fun '(r, v) => append_cell v r) (combine l vals)) =
  column_values c l.
Proof.
  unfold column_values.
  induction l as [|r l IH]; intros [|v vals] E F; simpl in *;
    try reflexivity; try discriminate.
  inversion F as [|? ? L F']; subst.
  rewrite get_append_lt by exact L. f_equal. apply IH; [lia|exact F'].
Qed.

Lemma column_values_append_eq w l : forall vals,
  length vals = length l ->
  Forall (fun r => length (cells r) = w) l ->
  column_values w (map (fun '(r, v) => append_cell v r) (combine l vals)) =
  vals.
Proof.
  unfold column_values.
  induction l as [|r l IH]; intros [|v vals] E F; simpl in *;
    try reflexivity; try discriminate.
  inversion F as [|? ? L F']; subst.
  rewrite get_append_eq. f_equal. apply IH; [lia|exact F'].
Qed.

Lemma labels_append l : forall vals,
  length vals = length l ->
  map label (map (fun '(r, v) => append_cell v r) (combine l vals)) =
  map label l.
Proof.
  induction l as [|r l IH]; intros [|v vals] E; simpl in *;
    try reflexivity; try discriminate.
  f_equal. apply IH. lia.
Qed.

Lemma labels_set i (h : row -> cell) l :
  map label (map (fun r => set i (h r) r) l) = map label l.
Proof. induction l as [|r l IH]; simpl; [reflexivity|]. f_equal. exact IH. Qed.

Lemma widths_set i (h : row -> cell) w l :
  Forall (fun r => length (cells r) = w) l ->
  Forall (fun r => length (cells r) = w) (map (fun r => set i (h r) r) l).
Proof.
  induction 1 as [|r l L _ IH]; simpl; constructor; [|exact IH].
  simpl. rewrite length_insert. exact L.
Qed.

Lemma kept_rows_In i j p rs r :
  In r (kept_rows i j p rs) <->
  In r (sort_rows i (keep_first i [] rs)) /\ complete r = true /\
  exists s, get j r = Some s /\ (p <= s)%Q.
Proof.
  unfold kept_rows. rewrite List.filter_In, andb_true_iff.
  unfold cell_ge, cell_le. split.
  - intros [H [G C]]. repeat split; [exact H|exact C|].
    destruct (get j r) as [s|]; [|discriminate].
    exists s. split; [reflexivity|]. apply Qle_bool_iff, G.
  - intros [H [C [s [E L]]]]. rewrite E. repeat split; [exact H| |exact C].
    apply Qle_bool_iff, L.
Qed.

Lemma rebased_strain_value scf t (h td : Q) r :
  get t r = Some td -> ~ (h == 0)%Q ->
  rebased_strain scf t (Some h) r = Some ((h - td) / h * scf)%Q.
Proof.
  intros E N. unfold rebased_strain. rewrite E. simpl.
  destruct (Qeq_bool h 0) eqn:Z; [|reflexivity].
  apply Qeq_bool_iff in Z. contradiction.
Qed.

Lemma derivative_length x y : length (derivative x y) = length x.
Proof. unfold derivative. rewrite length_map, length_seq. reflexivity. Qed.

(** C6 (as amended): with preload [p], cleaning keeps exactly the rows (of
    the de-duplicated, sorted sample) that hold no missing value and whose
    stress is not below [p]; [h_0] is the tool distance of the first
    remaining row; every remaining row gets the strain
    [(h_0 - tool_distance) / h_0 * strain_conversion_factor]; and a column
    [deriv] is attached that holds the derivative of stress with respect to
    the new strain, one value per row. *)
Theorem streamline_data_with_preload d p scf f i j t r0 kept' :
  wf_frame f ->
  col_index "strain" (columns f) = Some i ->
  col_index "stress" (columns f) = Some j ->
  col_index "tool_distance" (columns f) = Some t ->
  col_index "deriv" (columns f) = None ->
  (forall xs ys, length (d xs ys) = length xs) ->
  kept_rows i j p (rows f) = r0 :: kept' ->
  exists g h_0,
    streamline_data d (Some p) scf f = (g, Ok tt) /\
    map label (rows g) = map label (r0 :: kept') /\
    (forall r, In r (r0 :: kept') <->
       In r (sort_rows i (keep_first i [] (rows f))) /\ complete r = true /\
       exists s, get j r = Some s /\ (p <= s)%Q) /\
    get t r0 = Some h_0 /\
    column_values i (rows g) =
      map (rebased_strain scf t (Some h_0)) (r0 :: kept') /\
    (forall r, In r (r0 :: kept') ->
       exists td, get t r = Some td /\
         (~ (h_0 == 0)%Q ->
          rebased_strain scf t (Some h_0) r =
            Some ((h_0 - td) / h_0 * scf)%Q)) /\
    column_values j (rows g) = column_values j (r0 :: kept') /\
    column_values t (rows g) = column_values t (r0 :: kept') /\
    col_index "deriv" (columns g) = Some (length (columns f)) /\
    column_values (length (columns f)) (rows g) =
      d (column_values i (rows g)) (column_values j (rows g)) /\
    length (column_values (length (columns f)) (rows g)) = length (rows g).
Proof.
  intros W Hi Hj Ht Hd Hlen Hk.
  assert (Hin : forall r, In r (r0 :: kept') ->
            In r (rows f) /\ complete r = true).
  { intros r Hr. rewrite <- Hk in Hr. apply kept_rows_In in Hr.
    destruct Hr as [Hr [C _]]. split; [|exact C].
    apply sort_rows_In in Hr. eapply keep_first_incl, Hr. }
  assert (Hw : Forall (fun r => length (cells r) = length (columns f))
                      (r0 :: kept')).
  { apply List.Forall_forall. intros r Hr. apply Hin in Hr.
    unfold wf_frame in W. rewrite List.Forall_forall in W. apply W, Hr. }
  assert (Hnum : forall c r, (c < length (columns f))%nat ->
            In r (r0 :: kept') -> is_number (get c r) = true).
  { intros c r Hc Hr. apply complete_get; [apply Hin, Hr|].
    rewrite List.Forall_forall in Hw. rewrite (Hw r Hr). exact Hc. }
  pose proof (col_index_lt _ _ _ Hi) as Li.
  pose proof (col_index_lt _ _ _ Hj) as Lj.
  pose proof (col_index_lt _ _ _ Ht) as Lt.
  assert (Nji : j <> i).
  { eapply col_index_distinct; [|exact Hj|exact Hi]. discriminate. }
  assert (Nti : t <> i).
  { eapply col_index_distinct; [|exact Ht|exact Hi]. discriminate. }
  destruct (get t r0) as [h_0|] eqn:Eh.
  2:{ specialize (Hnum t r0 Lt (or_introl eq_refl)).
      rewrite Eh in Hnum. discriminate. }
  set (kept := r0 :: kept') in *.
  set (rebased := map (fun r => set i (rebased_strain scf t (Some h_0) r) r)
                      kept).
  set (vals := d (column_values i rebased) (column_values j rebased)).
  assert (Lv : length vals = length rebased).
  { unfold vals. rewrite Hlen. unfold column_values. apply length_map. }
  assert (Wr : Forall (fun r => length (cells r) = length (columns f)) rebased).
  { apply widths_set, Hw. }
  assert (Wlt : forall c, (c < length (columns f))%nat ->
            Forall (fun r => (c < length (cells r))%nat) rebased).
  { intros c Hc. eapply List.Forall_impl; [|exact Wr].
    simpl. intros r ->. exact Hc. }
  assert (Ei : column_values i rebased =
               map (rebased_strain scf t (Some h_0)) kept).
  { apply column_values_set_eq. eapply List.Forall_impl; [|exact Hw].
    simpl. intros r ->. exact Li. }
  exists (streamlined d scf i j t (Some h_0) (columns f) kept), h_0.
  split.
  { rewrite (streamline_data_Some_eq d p scf f i j t r0 kept')
      by assumption.
    rewrite Eh. reflexivity. }
  unfold streamlined. fold rebased. fold vals. cbn [rows columns].
  split. { rewrite labels_append by exact Lv. apply labels_set. }
  split. { intros r. fold kept. rewrite <- Hk. apply kept_rows_In. }
  split. { reflexivity. }
  split. { rewrite column_values_append_lt by auto. exact Ei. }
  split.
  { intros r Hr. specialize (Hnum t r Lt Hr).
    destruct (get t r) as [td|] eqn:Et; [|discriminate].
    exists td. split; [reflexivity|]. intros N.
    apply rebased_strain_value; assumption. }
  split.
  { rewrite column_values_append_lt by auto.
    apply column_values_set_ne, Nji. }
  split.
  { rewrite column_values_append_lt by auto.
    apply column_values_set_ne, Nti. }
  split. { apply col_index_app_None, Hd. }
  rewrite (column_values_append_eq _ _ _ Lv Wr).
  rewrite !column_values_append_lt by auto.
  split; [reflexivity|].
  rewrite length_map, length_combine, Lv. lia.
Qed.

Lemma streamline_data_with_preload_witness :
  exists g,
    streamline_data derivative (Some 6%Q) 100 tension_sample = (g, Ok tt) /\
    map label (rows g) = [1%nat; 2%nat] /\
    column_values 1 (rows g) =
      [Some ((11 - 11) / 11 * 100)%Q; Some ((11 - 12) / 11 * 100)%Q].
Proof.
  destruct (streamline_data_with_preload derivative 6 100 tension_sample
              1 2 0
              (Row 1 [num 11; num 10; num 6])
              [Row 2 [num 12; num 20; num 7]])
    as [g [h_0 [E [L [_ [H [S _]]]]]]].
  - repeat constructor.
  - reflexivity.
  - reflexivity.
  - reflexivity.
  - reflexivity.
  - apply derivative_length.
  - reflexivity.
  - exists g. split; [exact E|]. split; [exact L|].
    rewrite S. injection H as <-. reflexivity.
Defined.

(** The first row has a stress of 10, not below the preload 5, and is
    dropped all the same, because its tool distance is missing. *)
Lemma preload_drops_rows_with_missing_values :
  exists g,
    streamline_data derivative (Some 5%Q) 100 gap_sample = (g, Ok tt) /\
    (exists r, In r (rows gap_sample) /\ label r = 0%nat /\
               get 2 r = Some 10%Q /\ (5 <= 10)%Q) /\
    map label (rows g) = [1%nat; 2%nat] /\
    ~ In 0%nat (map label (rows g)).
Proof.
  eexists. split; [vm_compute; reflexivity|]. split.
  - eexists. split; [left; reflexivity|].
    split; [reflexivity|]. split; [reflexivity|discriminate].
  - split; [reflexivity|]. simpl. intros [X|[X|[]]]; discriminate.
Qed.

(** ** Rounding *)

Lemma rint_compat (x y : Q) : (x == y)%Q -> rint x = rint y.
Proof.
  intros E. unfold rint.
  assert (F : Qfloor x = Qfloor y) by (apply Qfloor_comp, E).
  rewrite F.
  assert (C : ((x - inject_Z (Qfloor y)) ?= 1 # 2)%Q =
              ((y - inject_Z (Qfloor y)) ?= 1 # 2)%Q).
  { apply Qcompare_comp; [rewrite E|]; reflexivity. }
  rewrite C. reflexivity.
Qed.

Lemma around_compat d (x y : Q) : (x == y)%Q -> around d x = around d y.
Proof.
  intros E. unfold around. rewrite (rint_compat (x * pow10 d) (y * pow10 d)).
  - reflexivity.
  - rewrite E. reflexivity.
Qed.

(** ** Toughness *)

Lemma cell_sum_numbers (qs : list Q) : forall acc,
  exists s, fold_left cell_add (map Some qs) (Some acc) = Some s /\
            (s == acc + fold_right Qplus 0 qs)%Q.
Proof.
  induction qs as [|q qs IH]; intros acc; simpl.
  - exists acc. split; [reflexivity|]. ring.
  - destruct (IH (acc + q)%Q) as [s [E S]]. exists s. split; [exact E|].
    rewrite S. ring.
Qed.

Lemma trapz_terms (pts : list (Q * Q)) :
  map (fun '(d, (y1, y0)) =>
         cell_div (cell_mul d (cell_add y1 y0)) (Some 2%Q))
      (combine (diff (map (fun p => Some (fst p)) pts))
               (combine (tl (map (fun p => Some (snd p)) pts))
                        (map (fun p => Some (snd p)) pts))) =
  map Some
      (map (fun '(p0, p1) => ((fst p1 - fst p0) * (snd p1 + snd p0) / 2)%Q)
           (combine pts (tl pts))).
Proof.
  unfold diff.
  induction pts as [|[x0 y0] pts IH]; simpl; [reflexivity|].
  destruct pts as [|[x1 y1] pts]; simpl; [reflexivity|].
  f_equal. simpl in IH. exact IH.
Qed.

Lemma trapezoidal_integral_terms (pts : list (Q * Q)) :
  (fold_right Qplus 0
     (map (fun '(p0, p1) => ((fst p1 - fst p0) * (snd p1 + snd p0) / 2)%Q)
          (combine pts (tl pts))) ==
   trapezoidal_integral pts)%Q.
Proof.
  induction pts as [|[x0 y0] pts IH]; simpl; [reflexivity|].
  destruct pts as [|[x1 y1] pts]; [simpl; reflexivity|].
  cbn [tl combine map fold_right fst snd]. cbn [tl] in IH. rewrite IH.
  field.
Qed.

Lemma trapz_integral (pts : list (Q * Q)) :
  exists a, trapz (map (fun p => Some (snd p)) pts)
                  (map (fun p => Some (fst p)) pts) = Some a /\
            (a == trapezoidal_integral pts)%Q.
Proof.
  unfold trapz, cell_sum. rewrite trapz_terms.
  destruct (cell_sum_numbers
              (map (fun '(p0, p1) =>
                      ((fst p1 - fst p0) * (snd p1 + snd p0) / 2)%Q)
                   (combine pts (tl pts))) 0%Q) as [s [E S]].
  exists s. split; [exact E|].
  rewrite S, trapezoidal_integral_terms. ring.
Qed.

Lemma values_Ok c f i :
  col_index c (columns f) = Some i ->
  bind (column c) (fun i => bind get_rows (fun rs => ret (column_values i rs))) f
  = (f, Ok (column_values i (rows f))).
Proof. intros H. unfold bind, column. rewrite H. reflexivity. Qed.

Lemma toughness_of_eq scf f i j :
  col_index "strain" (columns f) = Some i ->
  col_index "stress" (columns f) = Some j ->
  toughness_of scf f =
  (f, Ok (cell_around 1
            (cell_div (trapz (column_values j (rows f))
                             (column_values i (rows f)))
                      (Some scf)))).
Proof.
  intros Hi Hj. unfold toughness_of.
  erewrite bind_Ok by (apply column_Ok, Hj).
  erewrite bind_Ok by reflexivity.
  erewrite bind_Ok by (apply column_Ok, Hi).
  erewrite bind_Ok by reflexivity.
  reflexivity.
Qed.

(** C8: the toughness of a cleaned curve is the trapezoidal integral of
    stress over strain divided by the strain conversion factor, rounded
    to one decimal; for strain 0, 1, 2 in percent and stress 0, 10, 20
    the area is 20 and the toughness 0.2, also when the curve is read
    from a workbook and evaluated by [calc_toughness]. *)
Theorem calc_toughness_trapezoidal :
  (forall f i j scf pts,
     col_index "strain" (columns f) = Some i ->
     col_index "stress" (columns f) = Some j ->
     curve_of i j pts (rows f) ->
     scf = 1%Q \/ scf = 100%Q ->
     toughness_of scf f =
       (f, Ok (Some (around 1 (trapezoidal_integral pts / scf))))) /\
  (trapezoidal_integral toughness_points == 20)%Q /\
  (exists t, toughness_of 100 toughness_sample =
               (toughness_sample, Ok (Some t)) /\ (t == 2 # 10)%Q) /\
  (exists h self self' t t',
     init lab_file derivative "lab.xls" "Philipp Manglkammer" "%" "kPa"
          None ∅ = (h, Ok self) /\
     calc_toughness self h = (h, Ok (self', [Some t; t'])) /\
     toughness_title (results self') = [Some t; t'] /\
     (t == 2 # 10)%Q).
Proof.
  split; [|split; [|split]].
  - intros f i j scf pts Hi Hj [Cx Cy] Hs.
    rewrite (toughness_of_eq scf f i j Hi Hj), Cx, Cy.
    destruct (trapz_integral pts) as [a [E A]]. rewrite E.
    assert (N : Qeq_bool scf 0 = false) by (destruct Hs; subst; reflexivity).
    unfold cell_div. rewrite N. cbn [cell_around].
    rewrite (around_compat 1 (a / scf) (trapezoidal_integral pts / scf)).
    + reflexivity.
    + rewrite A. reflexivity.
  - reflexivity.
  - eexists. split; [vm_compute; reflexivity|reflexivity].
  - do 5 eexists. split; [vm_compute; reflexivity|].
    split; [vm_compute; reflexivity|]. split; reflexivity.
Qed.

Lemma calc_toughness_trapezoidal_witness :
  toughness_of 100 toughness_sample =
    (toughness_sample,
     Ok (Some (around 1
                 (trapezoidal_integral toughness_points / 100)))).
Proof.
  apply (proj1 calc_toughness_trapezoidal toughness_sample 0%nat 1%nat
               100%Q toughness_points).
  - reflexivity.
  - reflexivity.
  - split; reflexivity.
  - right. reflexivity.
Defined.

(** ** Strength and elongation at break *)

Lemma series_max_In cs m : series_max cs = Some m -> In (Some m) cs.
Proof.
  revert m. induction cs as [|c cs IH]; simpl; intros m H; [discriminate|].
  destruct c as [x|]; simpl in H.
  - destruct (series_max cs) as [y|].
    + destruct (Qle_bool x y); injection H as <-; [right; apply IH|left];
        reflexivity.
    + injection H as <-. left. reflexivity.
  - right. apply IH, H.
Qed.

Lemma series_max_Some cs x : In (Some x) cs -> exists m, series_max cs = Some m.
Proof.
  induction cs as [|c cs IH]; simpl; intros I; [contradiction|].
  destruct I as [->|I].
  - simpl. destruct (series_max cs) as [y|]; [|eauto].
    destruct (Qle_bool x y); eauto.
  - destruct (IH I) as [m E]. rewrite E. destruct c as [z|]; simpl; [|eauto].
    destruct (Qle_bool z m); eauto.
Qed.

Lemma series_max_upper cs m x :
  series_max cs = Some m -> In (Some x) cs -> (x <= m)%Q.
Proof.
  revert m. induction cs as [|c cs IH]; simpl; intros m H I; [contradiction|].
  destruct c as [z|]; simpl in H.
  - destruct (series_max cs) as [y|] eqn:E.
    + destruct (Qle_bool z y) eqn:L; injection H as <-.
      * apply Qle_bool_iff in L. destruct I as [I|I].
        -- injection I as <-. exact L.
        -- apply IH; [reflexivity|exact I].
      * assert (y <= z)%Q.
        { destruct (Qlt_le_dec y z) as [G|G]; [apply Qlt_le_weak, G|].
          apply Qle_bool_iff in G. congruence. }
        destruct I as [I|I].
        -- injection I as <-. apply Qle_refl.
        -- eapply Qle_trans; [apply (IH y eq_refl I)|assumption].
    + injection H as <-. destruct I as [I|I].
      * injection I as <-. apply Qle_refl.
      * destruct (series_max_Some cs x I) as [m' E']. congruence.
  - destruct I as [I|I]; [discriminate|]. apply IH; assumption.
Qed.

Lemma first_with_first i m rs :
  (exists r, In r rs /\ get i r = Some m) ->
  exists k r x,
    first_with i m rs = Some r /\ nth_error rs k = Some r /\
    get i r = Some x /\ (x == m)%Q /\
    forall k' r' y, (k' < k)%nat -> nth_error rs k' = Some r' ->
                    get i r' = Some y -> ~ (y == m)%Q.
Proof.
  induction rs as [|a rs IH]; intros [r [I G]]; [contradiction|].
  simpl. destruct (get i a) as [x|] eqn:Ea.
  - destruct (Qeq_bool x m) eqn:Q.
    + exists 0%nat, a, x. repeat split; try assumption; try reflexivity.
      * apply Qeq_bool_iff, Q.
      * intros k' r' y L. lia.
    + assert (Ir : In r rs).
      { destruct I as [->|I]; [|exact I]. rewrite G in Ea. injection Ea as <-.
        apply Qeq_bool_neq in Q. exfalso. apply Q. reflexivity. }
      destruct (IH (ex_intro _ r (conj Ir G))) as [k [r1 [x1 [F [N [G1 [E1 B]]]]]]].
      exists (S k), r1, x1. repeat split; try assumption.
      intros [|k'] r' y L N' G'.
      * simpl in N'. injection N' as <-. rewrite Ea in G'. injection G' as <-.
        apply Qeq_bool_neq, Q.
      * simpl in N'. apply (B k' r' y); [lia|assumption|assumption].
  - assert (Ir : In r rs).
    { destruct I as [->|I]; [|exact I]. congruence. }
    destruct (IH (ex_intro _ r (conj Ir G))) as [k [r1 [x1 [F [N [G1 [E1 B]]]]]]].
    exists (S k), r1, x1. repeat split; try assumption.
    intros [|k'] r' y L N' G'.
    + simpl in N'. injection N' as <-. congruence.
    + simpl in N'. apply (B k' r' y); [lia|assumption|assumption].
Qed.

Lemma find_label rs : forall k r,
  List.NoDup (map label rs) -> nth_error rs k = Some r ->
  List.find (fun r' => Nat.eqb (label r') (label r)) rs = Some r.
Proof.
  induction rs as [|a rs IH]; intros k r D N; [destruct k; discriminate|].
  simpl in D. inversion D as [|? ? Na D']; subst. simpl.
  destruct k as [|k]; simpl in N.
  - injection N as <-. rewrite Nat.eqb_refl. reflexivity.
  - destruct (Nat.eqb (label a) (label r)) eqn:E.
    + exfalso. apply Nat.eqb_eq in E. apply Na. rewrite E.
      apply in_map. eapply nth_error_In, N.
    + eapply IH; eassumption.
Qed.

Lemma strength_of_eq f j :
  col_index "stress" (columns f) = Some j ->
  strength_of f =
  (f, Ok (cell_around 1 (series_max (column_values j (rows f))))).
Proof.
  intros Hj. unfold strength_of.
  erewrite bind_Ok by (apply column_Ok, Hj).
  erewrite bind_Ok by reflexivity. reflexivity.
Qed.

Lemma elongation_at_break_of_eq f i j m r k :
  col_index "strain" (columns f) = Some i ->
  col_index "stress" (columns f) = Some j ->
  series_max (column_values j (rows f)) = Some m ->
  first_with j m (rows f) = Some r ->
  nth_error (rows f) k = Some r ->
  List.NoDup (map label (rows f)) ->
  elongation_at_break_of f = (f, Ok (cell_around 1 (get i r))).
Proof.
  intros Hi Hj Hm Hf Hk D. unfold elongation_at_break_of.
  erewrite bind_Ok by (apply column_Ok, Hi).
  erewrite bind_Ok with (a := label r).
  2:{ unfold idxmax. erewrite bind_Ok by (apply column_Ok, Hj).
      erewrite bind_Ok by reflexivity. rewrite Hm, Hf. reflexivity. }
  erewrite bind_Ok with (a := get i r).
  2:{ unfold at_. erewrite bind_Ok by (apply column_Ok, Hi).
      erewrite bind_Ok by reflexivity.
      rewrite (find_label (rows f) k r D Hk). reflexivity. }
  reflexivity.
Qed.

(** C9: for a non-empty cleaned curve the strength is the largest stress
    rounded to one decimal, and the elongation at break is the strain of
    the first row that attains it, rounded to one decimal; for strain
    0, 1, 2 and stress 1, 5, 3 they are 5.0 and 1.0, also when the curve
    is read from a workbook and evaluated by the two methods. *)
Theorem strength_and_elongation_at_break :
  (forall f i j,
     col_index "strain" (columns f) = Some i ->
     col_index "stress" (columns f) = Some j ->
     rows f <> [] ->
     List.NoDup (map label (rows f)) ->
     Forall (fun r => is_number (get j r) = true) (rows f) ->
     exists m k r,
       (forall r' s, In r' (rows f) -> get j r' = Some s -> (s <= m)%Q) /\
       nth_error (rows f) k = Some r /\
       (exists s, get j r = Some s /\ (s == m)%Q) /\
       (forall k' r' s, (k' < k)%nat -> nth_error (rows f) k' = Some r' ->
                        get j r' = Some s -> (s < m)%Q) /\
       strength_of f = (f, Ok (Some (around 1 m))) /\
       elongation_at_break_of f = (f, Ok (cell_around 1 (get i r)))) /\
  (exists s e,
     strength_of elongation_sample = (elongation_sample, Ok (Some s)) /\
     elongation_at_break_of elongation_sample =
       (elongation_sample, Ok (Some e)) /\
     (s == 5)%Q /\ (e == 1)%Q) /\
  (exists h self self1 self2 s s' e e',
     init lab_file derivative "lab.xls" "Philipp Manglkammer" "%" "kPa"
          None ∅ = (h, Ok self) /\
     calc_strength self h = (h, Ok (self1, [s'; Some s])) /\
     calc_elongation_at_break self1 h = (h, Ok (self2, [e'; Some e])) /\
     strength_title (results self2) = [s'; Some s] /\
     elongation_at_break_title (results self2) = [e'; Some e] /\
     (s == 5)%Q /\ (e == 1)%Q).
Proof.
  split; [|split].
  - intros f i j Hi Hj Hne D N.
    destruct (rows f) as [|r0 rs] eqn:R; [contradiction|].
    assert (N0 : is_number (get j r0) = true) by (inversion N; assumption).
    destruct (get j r0) as [x0|] eqn:G0; [|discriminate].
    destruct (series_max_Some (column_values j (r0 :: rs)) x0) as [m Hm].
    { simpl. left. exact G0. }
    pose proof (series_max_In _ _ Hm) as Im.
    apply in_map_iff in Im. destruct Im as [rm [Gm Irm]].
    destruct (first_with_first j m (r0 :: rs))
      as [k [r [x [F [Nk [Gr [Er B]]]]]]].
    { exists rm. split; assumption. }
    assert (U : forall r' s, In r' (r0 :: rs) -> get j r' = Some s ->
                             (s <= m)%Q).
    { intros r' s I G. eapply series_max_upper; [exact Hm|].
      rewrite <- G. apply in_map, I. }
    exists m, k, r. split; [exact U|]. split; [exact Nk|].
    split; [exists x; split; assumption|]. split.
    { intros k' r' s L N' G'. specialize (B k' r' s L N' G').
      assert (s <= m)%Q by (eapply U; [eapply nth_error_In, N'|exact G']).
      apply Qle_lteq in H. tauto. }
    split.
    + rewrite (strength_of_eq f j Hj), R, Hm. reflexivity.
    + apply (elongation_at_break_of_eq f i j m r k); try assumption;
        rewrite R; assumption.
  - do 2 eexists. split; [vm_compute; reflexivity|].
    split; [vm_compute; reflexivity|]. split; reflexivity.
  - do 8 eexists. split; [vm_compute; reflexivity|].
    split; [vm_compute; reflexivity|].
    split; [vm_compute; reflexivity|].
    split; [reflexivity|]. split; [reflexivity|]. split; reflexivity.
Qed.

Lemma strength_and_elongation_at_break_witness :
  exists m r,
    strength_of elongation_sample =
      (elongation_sample, Ok (Some (around 1 m))) /\
    elongation_at_break_of elongation_sample =
      (elongation_sample, Ok (cell_around 1 (get 0 r))).
Proof.
  destruct (proj1 strength_and_elongation_at_break elongation_sample
                  0%nat 1%nat)
    as [m [k [r [_ [_ [_ [_ [S E]]]]]]]].
  - reflexivity.
  - reflexivity.
  - discriminate.
  - repeat constructor; simpl; intuition discriminate.
  - repeat constructor.
  - exists m, r. split; assumption.
Defined.

(** ** The strain range of the regression *)

Lemma mem_label_In l ls : mem_label l ls = true <-> In l ls.
Proof.
  unfold mem_label. rewrite existsb_exists. split.
  - intros [x [I E]]. apply Nat.eqb_eq in E. subst. exact I.
  - intros I. exists l. split; [exact I|apply Nat.eqb_refl].
Qed.

Lemma mem_label_index_where (cond : row -> bool) rs r :
  List.NoDup (map label rs) -> In r rs ->
  mem_label (label r) (index_where cond rs) = cond r.
Proof.
  intros D I. unfold index_where.
  destruct (cond r) eqn:C.
  - apply mem_label_In. apply in_map. apply List.filter_In. split; assumption.
  - destruct (mem_label (label r) (map label (List.filter cond rs))) eqn:M;
      [|reflexivity].
    exfalso. apply mem_label_In in M. apply in_map_iff in M.
    destruct M as [r' [E I']]. apply List.filter_In in I'.
    destruct I' as [I' C'].
    assert (r' = r); [|congruence].
    clear C C'. induction rs as [|a rs IH]; [contradiction|].
    simpl in D. inversion D as [|? ? Na D']; subst.
    destruct I as [->|I], I' as [->|I']; try reflexivity.
    + exfalso. apply Na. rewrite <- E. apply in_map, I'.
    + exfalso. apply Na. rewrite E. apply in_map, I.
    + apply IH; assumption.
Qed.

Lemma filter_ext_In {A} (p q : A -> bool) l :
  (forall x, In x l -> p x = q x) -> List.filter p l = List.filter q l.
Proof.
  induction l as [|a l IH]; intros H; simpl; [reflexivity|].
  rewrite (H a (or_introl eq_refl)), IH; [reflexivity|].
  intros x I. apply H. right. exact I.
Qed.

Lemma filter_filter_andb {A} (p q : A -> bool) l :
  List.filter q (List.filter p l) = List.filter (fun x => p x && q x) l.
Proof.
  induction l as [|a l IH]; simpl; [reflexivity|].
  destruct (p a); simpl; [destruct (q a); [f_equal|]|]; exact IH.
Qed.

Lemma drop_Ok labels f :
  (forall l, In l labels -> In l (map label (rows f))) ->
  drop labels f =
  (Frame (columns f)
         (List.filter (fun r => negb (mem_label (label r) labels)) (rows f)),
   Ok tt).
Proof.
  intros H. unfold drop.
  replace (forallb _ labels) with true; [reflexivity|].
  symmetry. apply forallb_forall. intros l I. apply mem_label_In, H, I.
Qed.

Lemma relabel_cells rs : forall k, map cells (relabel k rs) = map cells rs.
Proof.
  induction rs as [|r rs IH]; intros k; simpl; [reflexivity|].
  f_equal. apply IH.
Qed.


Lemma relabel_values i rs : forall k,
  column_values i (relabel k rs) = column_values i rs.
Proof.
  unfold column_values. induction rs as [|r rs IH]; intros k; simpl;
    [reflexivity|].
  f_equal. apply IH.
Qed.

Lemma in_strain_range_iff i lower upper r x :
  get i r = Some x ->
  in_strain_range i lower upper r = true <-> (lower < x /\ x < upper)%Q.
Proof.
  intros G. unfold in_strain_range, cell_ge, cell_le. rewrite G.
  cbv beta iota. rewrite andb_true_iff, !negb_true_iff. split.
  - intros [A B]. split; apply Qnot_le_lt; intros L;
      apply Qle_bool_iff in L; congruence.
  - intros [A B]. split.
    + destruct (Qle_bool x lower) eqn:E; [|reflexivity].
      apply Qle_bool_iff in E. exfalso. apply (Qlt_not_le _ _ A E).
    + destruct (Qle_bool upper x) eqn:E; [|reflexivity].
      apply Qle_bool_iff in E. exfalso. apply (Qlt_not_le _ _ B E).
Qed.

Lemma crop_eq lower upper f i :
  col_index "strain" (columns f) = Some i ->
  List.NoDup (map label (rows f)) ->
  (lower < upper)%Q ->
  crop lower upper f =
  (Frame (columns f)
         (relabel 0 (List.filter (in_strain_range i lower upper) (rows f))),
   Ok tt).
Proof.
  intros Hi D L. unfold crop.
  erewrite bind_Ok by (apply column_Ok, Hi).
  erewrite bind_Ok by reflexivity.
  erewrite bind_Ok by (apply column_Ok, Hi).
  erewrite bind_Ok by reflexivity.
  erewrite bind_Ok.
  2:{ apply drop_Ok. intros l I. unfold index_where in I.
      apply in_map_iff in I. destruct I as [r [<- I]].
      apply List.filter_In in I. apply in_map. apply I. }
  set (low := fun r => cell_le (get i r) (Some lower)).
  set (high := fun r => cell_ge (get i r) (Some upper)).
  assert (F1 : List.filter
                 (fun r => negb (mem_label (label r) (index_where low (rows f))))
                 (rows f) =
               List.filter (fun r => negb (low r)) (rows f)).
  { apply filter_ext_In. intros r I.
    rewrite mem_label_index_where by assumption. reflexivity. }
  rewrite F1.
  assert (X : forall r, low r = true -> high r = true -> False).
  { intros r A B. unfold low, high, cell_ge, cell_le in A, B.
    destruct (get i r) as [x|]; [|discriminate].
    apply Qle_bool_iff in A, B.
    apply (Qlt_not_le _ _ L). eapply Qle_trans; eassumption. }
  erewrite bind_Ok.
  2:{ apply drop_Ok. cbn [rows]. intros l I. unfold index_where in I.
      apply in_map_iff in I. destruct I as [r [<- I]].
      apply List.filter_In in I. destruct I as [I H].
      apply in_map. apply List.filter_In. split; [exact I|].
      destruct (low r) eqn:A; [|reflexivity].
      exfalso. eapply X; eassumption. }
  cbn [rows columns]. unfold reset_index.
  erewrite bind_Ok by reflexivity. unfold set_rows. cbn [rows columns].
  f_equal. f_equal. f_equal.
  rewrite filter_filter_andb. apply filter_ext_In. intros r I.
  rewrite mem_label_index_where by assumption. reflexivity.
Qed.

(** ** Objects in the store *)

Lemma fresh_unbound (h : store) : h !! fresh (dom h) = None.
Proof. apply not_elem_of_dom, is_fresh. Qed.

Lemma in_place_eq {A} l (m : mut A) (h : store) f f' r :
  h !! l = Some f -> m f = (f', r) ->
  in_place l m h = (<[l := f']> h, r).
Proof. intros H E. unfold in_place. rewrite H, E. reflexivity. Qed.

Lemma in_place_read {A} l (m : mut A) (h : store) f r :
  h !! l = Some f -> m f = (f, r) -> in_place l m h = (h, r).
Proof.
  intros H E. rewrite (in_place_eq l m h f f r H E).
  rewrite insert_id by exact H. reflexivity.
Qed.

Lemma copy_eq l (h : store) f :
  h !! l = Some f ->
  copy l h = (<[fresh (dom h) := f]> h, Ok (fresh (dom h))).
Proof.
  intros H. unfold copy.
  erewrite bind_Ok by (eapply in_place_read; [exact H|reflexivity]).
  reflexivity.
Qed.

Lemma values_eq c f i :
  col_index c (columns f) = Some i ->
  values c f = (f, Ok (column_values i (rows f))).
Proof. intros H. unfold values. apply values_Ok, H. Qed.

(** What the second loop of [calc_e_modulus] does with one sample: the
    detector receives the strain and stress columns of the cropped copy,
    and the sample itself is not touched. *)
Lemma regress_sample_eq lr scf tau lower upper sample (h : store) f g i j :
  h !! sample = Some f ->
  crop lower upper f = (g, Ok tt) ->
  col_index "strain" (columns g) = Some i ->
  col_index "stress" (columns g) = Some j ->
  let l1 := fresh (dom h) in
  let h1 := <[l1 := g]> h in
  regress_sample lr scf tau lower upper sample h =
  match lr (column_values i (rows g)) (column_values j (rows g)) tau with
  | inl e => (h1, Err e)
  | inr reg =>
      (<[fresh (dom h1) := concat_columns g (regression_results reg)]> h1,
       Ok (reg, e_modulus_of scf (slope_at_limit reg), fresh (dom h1)))
  end.
Proof.
  intros H C Hi Hj l1 h1. unfold regress_sample.
  erewrite bind_Ok by (apply copy_eq, H). fold l1.
  erewrite bind_Ok.
  2:{ eapply in_place_eq; [apply lookup_insert_eq|exact C]. }
  rewrite insert_insert_eq. fold h1.
  assert (L : h1 !! l1 = Some g) by apply lookup_insert_eq.
  erewrite bind_Ok.
  2:{ eapply in_place_read; [exact L|apply values_eq, Hi]. }
  erewrite bind_Ok.
  2:{ eapply in_place_read; [exact L|apply values_eq, Hj]. }
  destruct (lr _ _ tau) as [e|reg]; [reflexivity|].
  erewrite bind_Ok.
  2:{ eapply in_place_read; [exact L|reflexivity]. }
  reflexivity.
Qed.

(** C3 (as amended): the sub-curve handed to the regression holds exactly
    the points whose strain lies strictly between [lower_strain_limit]
    and [upper_strain_limit]; a point with strain equal to either limit
    is left out. *)
Theorem strain_range_is_open lr scf tau lower upper sample (h : store) f i j :
  h !! sample = Some f ->
  col_index "strain" (columns f) = Some i ->
  col_index "stress" (columns f) = Some j ->
  List.NoDup (map label (rows f)) ->
  (lower < upper)%Q ->
  let kept := List.filter (in_strain_range i lower upper) (rows f) in
  (forall r x, get i r = Some x ->
     (In r kept <-> In r (rows f) /\ (lower < x /\ x < upper)%Q)) /\
  (forall r, In r (rows f) ->
     get i r = Some lower \/ get i r = Some upper -> ~ In r kept) /\
  exists h' l',
    regress_sample lr scf tau lower upper sample h =
    (h',
     match lr (column_values i kept) (column_values j kept) tau with
     | inl e => Err e
     | inr reg => Ok (reg, e_modulus_of scf (slope_at_limit reg), l')
     end).
Proof.
  intros H Hi Hj D L kept.
  assert (K : forall r x, get i r = Some x ->
            (In r kept <-> In r (rows f) /\ (lower < x /\ x < upper)%Q)).
  { intros r x G. unfold kept.
    pose proof (in_strain_range_iff i lower upper r x G) as E.
    pose proof (List.filter_In (in_strain_range i lower upper) r (rows f)) as F.
    tauto. }
  split; [exact K|]. split.
  - intros r I [G|G] X; apply (K r _ G) in X; destruct X as [_ [A B]].
    + apply (Qlt_irrefl _ A).
    + apply (Qlt_irrefl _ B).
  - pose proof (crop_eq lower upper f i Hi D L) as C. fold kept in C.
    pose proof (regress_sample_eq lr scf tau lower upper sample h f _ i j
                  H C Hi Hj) as R.
    cbv zeta in R. cbn [rows columns] in R.
    rewrite !relabel_values in R.
    destruct (lr (column_values i kept) (column_values j kept) tau)
      as [e|reg].
    + eexists. exists 0%nat. exact R.
    + do 2 eexists. exact R.
Qed.

Lemma strain_range_is_open_witness :
  exists h' l',
    regress_sample lin_reg_all_sections 100 (995 # 1000) 0 50 0%nat
      {[ 0%nat := toughness_sample ]} =
    (h',
     match lin_reg_all_sections [num 1; num 2] [num 10; num 20] (995 # 1000)
     with
     | inl e => Err e
     | inr reg => Ok (reg, e_modulus_of 100 (slope_at_limit reg), l')
     end).
Proof.
  apply (strain_range_is_open lin_reg_all_sections 100 (995 # 1000) 0 50
           0%nat {[ 0%nat := toughness_sample ]} toughness_sample 0%nat 1%nat).
  - reflexivity.
  - reflexivity.
  - reflexivity.
  - repeat constructor; simpl; intuition discriminate.
  - reflexivity.
Defined.

(** The point with strain 0 lies in [[0, 50)], yet it is not in the
    sub-curve cropped to the limits 0 and 50. *)
Lemma strain_range_excludes_lower_limit :
  exists g,
    crop 0 50 toughness_sample = (g, Ok tt) /\
    In (num 0) (column_values 0 (rows toughness_sample)) /\
    (0 <= 0 /\ 0 < 50)%Q /\
    ~ In (num 0) (column_values 0 (rows g)).
Proof.
  eexists. split; [vm_compute; reflexivity|].
  split; [left; reflexivity|]. split; [split; reflexivity || discriminate|].
  simpl. intros [X|[X|[]]]; discriminate.
Qed.

(** ** The elastic modulus *)

Lemma bind_inv_Ok {S A B} (m : st S A) (k : A -> st S B) s s' b :
  bind m k s = (s', Ok b) ->
  exists s1 a, m s = (s1, Ok a) /\ k a s1 = (s', Ok b).
Proof.
  unfold bind. destruct (m s) as [s1 [e|a]]; intros H.
  - discriminate.
  - exists s1, a. split; [reflexivity|exact H].
Qed.



Lemma checked_column_inv {S} t vals (s s' : S) c :
  checked_column t vals s = (s', Ok c) -> c = vals /\ s' = s.
Proof.
  unfold checked_column. destruct (_ =? _)%nat; intros H.
  - injection H as <- <-. split; reflexivity.
  - discriminate.
Qed.

Lemma rint_inject_Z (n : Z) : rint (inject_Z n) = n.
Proof.
  unfold rint. rewrite Qfloor_Z.
  replace ((inject_Z n - inject_Z n ?= 1 # 2)%Q) with Lt; [reflexivity|].
  symmetry. apply Qlt_alt.
  assert (E : (inject_Z n - inject_Z n == 0)%Q) by ring.
  rewrite E. reflexivity.
Qed.

Lemma pow10_nonzero d : ~ (pow10 d == 0)%Q.
Proof.
  unfold pow10. intros E.
  assert (0 < 10 ^ Z.of_nat d)%Z by (apply Z.pow_pos_nonneg; lia).
  unfold Qeq in E. simpl in E. lia.
Qed.

Lemma around_around d x : around d (around d x) = around d x.
Proof.
  unfold around at 1.
  rewrite (rint_compat (around d x * pow10 d)
                       (inject_Z (rint (x * pow10 d)))).
  - rewrite rint_inject_Z. reflexivity.
  - unfold around. field. apply pow10_nonzero.
Qed.

Lemma e_modulus_of_Some scf s :
  e_modulus_of scf (Some s) = Some (around 3 (around 3 s * scf)).
Proof. reflexivity. Qed.




(** ** Import and construction *)

Lemma parse_wf names sh : wf_frame (parse names sh).
Proof.
  unfold wf_frame, parse. cbn [rows columns].
  apply List.Forall_forall. intros r I.
  assert (C : In (cells r)
                 (map cells
                    (relabel 0
                       (map (fun cs =>
                               Row 0 (firstn (length names)
                                        (cs ++ repeat NaN (length names))))
                            sh)))) by apply in_map, I.
  rewrite relabel_cells, map_map in C. cbn [cells] in C.
  apply in_map_iff in C. destruct C as [cs [<- _]].
  rewrite length_firstn, length_app, repeat_length. lia.
Qed.

Lemma holds_mono (h h' : store) ls fs : h ⊆ h' -> holds h ls fs -> holds h' ls fs.
Proof.
  intros S H. induction H as [|l f ls fs E _ IH]; constructor; [|exact IH].
  eapply lookup_weaken; eassumption.
Qed.

Lemma alloc_subseteq (h : store) f : h ⊆ <[fresh (dom h) := f]> h.
Proof. apply insert_subseteq, fresh_unbound. Qed.

(** Allocating one object per element: the new references are distinct,
    unbound before, and nothing that was in the store changes. *)
Lemma for_each_alloc {A} (mk : A -> frame) xs : forall h : store,
  exists h' ls,
    for_each xs (fun x => alloc (mk x)) h = (h', Ok ls) /\
    holds h' ls (map mk xs) /\ h ⊆ h' /\
    List.NoDup ls /\ Forall (fun l => h !! l = None) ls.
Proof.
  induction xs as [|x xs IH]; intros h.
  - exists h, []. repeat split; try constructor. reflexivity.
  - simpl. set (l := fresh (dom h)).
    destruct (IH (<[l := mk x]> h)) as [h' [ls [E [H [S [D F]]]]]].
    exists h', (l :: ls).
    assert (Sl : h ⊆ <[l := mk x]> h) by apply alloc_subseteq.
    assert (Fl : Forall (fun l' => l' <> l) ls).
    { eapply List.Forall_impl; [|exact F]. simpl. intros l' N ->.
      rewrite lookup_insert_eq in N. discriminate. }
    split.
    { erewrite bind_Ok by reflexivity. fold l.
      erewrite bind_Ok by exact E. reflexivity. }
    split.
    { constructor; [|exact H].
      eapply lookup_weaken; [apply lookup_insert_eq|exact S]. }
    split. { etransitivity; eassumption. }
    split.
    { constructor; [|exact D]. rewrite List.Forall_forall in Fl.
      intros I. apply (Fl l I). reflexivity. }
    constructor; [apply fresh_unbound|].
    rewrite List.Forall_forall in *. intros l' I.
    specialize (F l' I). specialize (Fl l' I).
    rewrite lookup_insert_ne in F by congruence. exact F.
Qed.

Lemma deepcopy_spec ls : forall (h : store) fs,
  holds h ls fs ->
  exists h' ls',
    deepcopy ls h = (h', Ok ls') /\
    holds h' ls' fs /\ h ⊆ h' /\
    List.NoDup ls' /\ Forall (fun l => h !! l = None) ls'.
Proof.
  unfold deepcopy.
  induction ls as [|l0 ls IH]; intros h fs H; inversion H as [|? f ? fs' E H']; subst.
  - exists h, []. repeat split; try constructor. reflexivity.
  - set (l := fresh (dom h)).
    assert (Sl : h ⊆ <[l := f]> h) by apply alloc_subseteq.
    destruct (IH (<[l := f]> h) fs' (holds_mono _ _ _ _ Sl H'))
      as [h' [ls' [Ec [Hc [S [D F]]]]]].
    exists h', (l :: ls').
    assert (Fl : Forall (fun l' => l' <> l) ls').
    { eapply List.Forall_impl; [|exact F]. simpl. intros l' N ->.
      rewrite lookup_insert_eq in N. discriminate. }
    split.
    { simpl. erewrite bind_Ok by (apply copy_eq, E). fold l.
      erewrite bind_Ok by exact Ec. reflexivity. }
    split.
    { constructor; [|exact Hc].
      eapply lookup_weaken; [apply lookup_insert_eq|exact S]. }
    split. { etransitivity; eassumption. }
    split.
    { constructor; [|exact D]. rewrite List.Forall_forall in Fl.
      intros I. apply (Fl l I). reflexivity. }
    constructor; [apply fresh_unbound|].
    rewrite List.Forall_forall in *. intros l' I.
    specialize (F l' I). specialize (Fl l' I).
    rewrite lookup_insert_ne in F by congruence. exact F.
Qed.

Lemma import_sheets_spec cols sheets (h : store) :
  exists h' ls,
    import_sheets cols sheets h = (h', Ok (map fst sheets, ls)) /\
    holds h' ls (map (fun sh => parse cols (snd sh)) sheets) /\ h ⊆ h'.
Proof.
  destruct (for_each_alloc (fun sh : string * sheet => parse cols (snd sh))
              sheets h) as [h' [ls [E [H [S _]]]]].
  exists h', ls. split; [|split; assumption].
  unfold import_sheets. erewrite bind_Ok by exact E. reflexivity.
Qed.

Lemma import_data_spec xl file mode (h h1 : store) names ro :
  import_data xl file mode h = (h1, Ok (Some (names, ro))) ->
  exists wb cols k,
    xl file = Ok wb /\ import_filter mode = Some (cols, k) /\
    names = map fst (skipn k wb) /\
    holds h1 ro (imported_frames cols k wb) /\ h ⊆ h1.
Proof.
  unfold import_data, import_filter, imported_frames. intros H.
  destruct (String.eqb mode "Marc_Stuhlmueller");
    [|destruct (String.eqb mode "Philipp Manglkammer");
      [|destruct (String.eqb mode "Lena_Schunter"); [|discriminate]]];
    (destruct (xl file) as [e|wb]; [discriminate|]);
    apply bind_inv_Ok in H; destruct H as [h2 [r [E H]]];
    injection H as ? ?; subst;
    match type of E with
    | import_sheets ?cols (skipn ?k _) _ = _ =>
        destruct (import_sheets_spec cols (skipn k wb) h)
          as [h' [ls [E' [Hh S]]]];
        rewrite E' in E; injection E as ? ? ?; subst;
        exists wb, cols, k; repeat split; assumption || reflexivity
    end.
Qed.

Lemma import_data_Ok xl file mode (h : store) wb cols k :
  xl file = Ok wb -> import_filter mode = Some (cols, k) ->
  exists h1 ro,
    import_data xl file mode h = (h1, Ok (Some (map fst (skipn k wb), ro))) /\
    holds h1 ro (imported_frames cols k wb) /\ h ⊆ h1.
Proof.
  unfold import_data, import_filter, imported_frames. intros X F.
  unfold Ok in X. rewrite X.
  destruct (String.eqb mode "Marc_Stuhlmueller");
    [|destruct (String.eqb mode "Philipp Manglkammer");
      [|destruct (String.eqb mode "Lena_Schunter"); [|discriminate]]];
    injection F as <- <-;
    match goal with
    | |- context [import_sheets ?cols (skipn ?k _)] =>
        destruct (import_sheets_spec cols (skipn k wb) h)
          as [h' [ls [E' [Hh S]]]];
        exists h', ls; split; [|split; assumption];
        erewrite bind_Ok by exact E'; reflexivity
    end.
Qed.

(** ** Frames that a computation leaves alone *)

Lemma preserves_weaken {A} l (Q : A -> Prop) m :
  preserves_with l Q m -> preserves l m.
Proof. intros P h f H. split; [apply (P h f H)|trivial]. Qed.

Lemma preserves_bind {A B} l (Q : A -> Prop) (R : B -> Prop)
    (m : obj A) (k : A -> obj B) :
  preserves_with l Q m -> (forall a, Q a -> preserves_with l R (k a)) ->
  preserves_with l R (bind m k).
Proof.
  intros Pm Pk h f H. destruct (Pm h f H) as [E Qa]. unfold bind.
  destruct (m h) as [h1 [e|a]]; simpl in *.
  - split; [exact E|]. intros b X. discriminate.
  - apply (Pk a (Qa a eq_refl) h1 f E).
Qed.

Lemma preserves_ret {A} l (Q : A -> Prop) a :
  Q a -> preserves_with l Q (ret a : obj A).
Proof.
  intros HQ h f H. split; [exact H|]. intros b E. injection E as <-. exact HQ.
Qed.

Lemma preserves_raise {A} l (Q : A -> Prop) e :
  preserves_with l Q (raise e : obj A).
Proof. intros h f H. split; [exact H|]. intros b E. discriminate. Qed.

Lemma preserves_alloc l g :
  preserves_with l (fun l' => l' <> l) (alloc g).
Proof.
  intros h f H. unfold alloc. simpl.
  assert (N : fresh (dom h) <> l).
  { intros <-. rewrite fresh_unbound in H. discriminate. }
  split.
  - rewrite lookup_insert_ne by exact N. exact H.
  - intros a E. injection E as <-. exact N.
Qed.

Lemma preserves_in_place_other {A} l l' (m : mut A) :
  l' <> l -> preserves l (in_place l' m).
Proof.
  intros N h f H. split; [|trivial]. unfold in_place.
  destruct (h !! l') as [g|]; [|exact H].
  destruct (m g) as [g' r]. simpl.
  rewrite lookup_insert_ne by exact N. exact H.
Qed.

Lemma preserves_in_place_read {A} l l' (m : mut A) :
  read_only m -> preserves l (in_place l' m).
Proof.
  intros RO h f H. split; [|trivial]. unfold in_place.
  destruct (h !! l') as [g|] eqn:E; [|exact H].
  specialize (RO g). destruct (m g) as [g' r]. simpl in *. subst g'.
  rewrite insert_id by exact E. exact H.
Qed.

Lemma preserves_for_each {A B} l (body : A -> obj B) xs :
  (forall x, In x xs -> preserves l (body x)) ->
  preserves l (for_each xs body).
Proof.
  induction xs as [|x xs IH]; intros P; simpl.
  - apply preserves_ret. trivial.
  - eapply preserves_bind; [apply P; left; reflexivity|]. intros b _.
    eapply preserves_bind; [apply IH; intros y I; apply P; right; exact I|].
    intros bs _. apply preserves_ret. trivial.
Qed.

Lemma read_only_bind {A B} (m : mut A) (k : A -> mut B) :
  read_only m -> (forall a, read_only (k a)) -> read_only (bind m k).
Proof.
  intros Rm Rk f. unfold bind. specialize (Rm f).
  destruct (m f) as [f1 [e|a]]; simpl in *; subst f1; [reflexivity|].
  apply Rk.
Qed.

Lemma read_only_ret {A} (a : A) : read_only (ret a).
Proof. intros f. reflexivity. Qed.

Lemma read_only_raise {A} e : read_only (raise e : mut A).
Proof. intros f. reflexivity. Qed.

Lemma read_only_column c : read_only (column c).
Proof. intros f. unfold column. destruct (col_index c (columns f)); reflexivity. Qed.

Lemma read_only_get_rows : read_only get_rows.
Proof. intros f. reflexivity. Qed.

Lemma read_only_get_frame : read_only get_frame.
Proof. intros f. reflexivity. Qed.

Create HintDb read_only.
#[local] Hint Resolve read_only_ret read_only_raise read_only_column
  read_only_get_rows read_only_get_frame : read_only.

Ltac read_only_tac :=
  repeat (apply read_only_bind; [|intros ?]);
  auto with read_only.

Lemma read_only_values c : read_only (values c).
Proof. unfold values. read_only_tac. Qed.

Lemma read_only_strength_of : read_only strength_of.
Proof. unfold strength_of. read_only_tac. Qed.

Lemma read_only_toughness_of scf : read_only (toughness_of scf).
Proof. unfold toughness_of. read_only_tac. Qed.

Lemma read_only_elongation_at_break_of : read_only elongation_at_break_of.
Proof.
  unfold elongation_at_break_of, idxmax, at_. read_only_tac.
  - destruct (series_max _); [destruct (first_with _ _ _)|];
      auto with read_only.
  - destruct (List.find _ _); auto with read_only.
Qed.

Lemma preserves_checked_column l t vals :
  preserves l (checked_column t vals : obj (list cell)).
Proof.
  unfold checked_column. destruct (_ =? _)%nat.
  - apply preserves_ret. trivial.
  - apply preserves_raise.
Qed.

Lemma preserves_calc_strength l self : preserves l (calc_strength self).
Proof.
  unfold calc_strength, preserves.
  eapply preserves_bind.
  { apply preserves_for_each. intros x _.
    apply preserves_in_place_read, read_only_strength_of. }
  intros strength _. eapply preserves_bind; [apply preserves_checked_column|].
  intros col _. apply preserves_ret. trivial.
Qed.

Lemma preserves_calc_toughness l self : preserves l (calc_toughness self).
Proof.
  unfold calc_toughness, preserves.
  eapply preserves_bind.
  { apply preserves_for_each. intros x _.
    apply preserves_in_place_read, read_only_toughness_of. }
  intros toughness _. eapply preserves_bind; [apply preserves_checked_column|].
  intros col _. apply preserves_ret. trivial.
Qed.

Lemma preserves_calc_elongation_at_break l self :
  preserves l (calc_elongation_at_break self).
Proof.
  unfold calc_elongation_at_break, preserves.
  eapply preserves_bind.
  { apply preserves_for_each. intros x _.
    apply preserves_in_place_read, read_only_elongation_at_break_of. }
  intros e _. eapply preserves_bind; [apply preserves_checked_column|].
  intros col _. apply preserves_ret. trivial.
Qed.

Lemma preserves_smooth_data sm l sample window poly_order data_points :
  preserves l (smooth_data sm sample window poly_order data_points).
Proof.
  unfold smooth_data, preserves.
  eapply preserves_bind;
    [apply preserves_in_place_read, read_only_values|]. intros ys _.
  eapply preserves_bind;
    [apply preserves_in_place_read, read_only_values|]. intros xs _.
  destruct (sm ys xs window poly_order _) as [xi yi].
  apply (preserves_weaken l (fun l' => l' <> l)), preserves_alloc.
Qed.

Lemma preserves_copy l sample :
  preserves_with l (fun l' => l' <> l) (copy sample).
Proof.
  unfold copy. eapply preserves_bind;
    [apply preserves_in_place_read, read_only_get_frame|].
  intros f _. apply preserves_alloc.
Qed.

Lemma preserves_regress_sample lr scf tau lower upper l sample :
  preserves l (regress_sample lr scf tau lower upper sample).
Proof.
  unfold regress_sample, preserves.
  eapply preserves_bind; [apply preserves_copy|]. intros l1 N.
  eapply preserves_bind; [apply preserves_in_place_other, N|]. intros _ _.
  eapply preserves_bind;
    [apply preserves_in_place_read, read_only_values|]. intros xs _.
  eapply preserves_bind;
    [apply preserves_in_place_read, read_only_values|]. intros ys _.
  destruct (lr xs ys tau) as [e|reg]; [apply preserves_raise|].
  eapply preserves_bind;
    [apply preserves_in_place_read, read_only_get_frame|]. intros f _.
  eapply preserves_bind;
    [apply (preserves_weaken l (fun l' => l' <> l)), preserves_alloc|].
  intros l2 _. apply preserves_ret. trivial.
Qed.

Lemma preserves_calc_e_modulus sm lr l self tau lower upper smooth kw :
  preserves l (calc_e_modulus sm lr self tau lower upper smooth kw).
Proof.
  unfold calc_e_modulus, preserves.
  eapply preserves_bind.
  { apply preserves_for_each. intros x _. destruct smooth.
    - apply preserves_smooth_data.
    - apply preserves_ret. trivial. }
  intros raw_processed _. eapply preserves_bind.
  { apply preserves_for_each. intros x _. apply preserves_regress_sample. }
  intros per_sample _.
  eapply preserves_bind; [apply preserves_checked_column|]. intros c1 _.
  eapply preserves_bind; [apply preserves_checked_column|]. intros c2 _.
  eapply preserves_bind; [apply preserves_checked_column|]. intros c3 _.
  eapply preserves_bind; [apply preserves_checked_column|]. intros c4 _.
  apply preserves_ret. trivial.
Qed.

(** ** [__init__] *)

Lemma streamline_data_method_eq d p scf l (h : store) f :
  h !! l = Some f ->
  streamline_data_method d p scf l h =
  (<[l := fst (streamline_data d p scf f)]> h,
   match snd (streamline_data d p scf f) with
   | inl e => Err e
   | inr _ => Ok l
   end).
Proof.
  intros H. unfold streamline_data_method, bind, in_place. rewrite H.
  destruct (streamline_data d p scf f) as [g [e|[]]]; reflexivity.
Qed.

Lemma preserves_streamline_data_method d p scf l l' :
  l' <> l -> preserves l (streamline_data_method d p scf l').
Proof.
  intros N. unfold streamline_data_method, preserves.
  eapply preserves_bind; [apply preserves_in_place_other, N|].
  intros _ _. apply preserves_ret. trivial.
Qed.

Lemma preserves_streamline_loop d p scf l ls :
  ~ In l ls -> preserves l (for_each ls (streamline_data_method d p scf)).
Proof.
  intros N. apply preserves_for_each. intros l' I.
  apply preserves_streamline_data_method. intros ->. contradiction.
Qed.

(** The loop of [__init__]: every entry of the working list is replaced,
    in its place, by its cleaned version. *)
Lemma streamline_loop d p scf ls : forall (h h' : store) fs out,
  List.NoDup ls -> holds h ls fs ->
  for_each ls (streamline_data_method d p scf) h = (h', Ok out) ->
  out = ls /\
  holds h' ls (map (fun f => fst (streamline_data d p scf f)) fs) /\
  Forall (fun f => snd (streamline_data d p scf f) = Ok tt) fs.
Proof.
  induction ls as [|l ls IH]; intros h h' fs out D H E;
    inversion H as [|? f ? fs' Hl H']; subst; simpl in E.
  - injection E as <- <-. repeat split; constructor.
  - inversion D as [|? ? Nl D']; subst.
    apply bind_inv_Ok in E. destruct E as [h1 [l1 [E1 E]]].
    apply bind_inv_Ok in E. destruct E as [h2 [out' [E2 E]]].
    injection E as <- <-.
    rewrite (streamline_data_method_eq d p scf l h f Hl) in E1.
    destruct (snd (streamline_data d p scf f)) as [e|[]] eqn:R;
      [discriminate|].
    injection E1 as <- <-.
    assert (H1 : holds (<[l := fst (streamline_data d p scf f)]> h) ls fs').
    { clear -H' Nl. induction H' as [|l' f' ls fs' E' _ IH']; constructor.
      - rewrite lookup_insert_ne; [exact E'|]. intros ->. apply Nl. left.
        reflexivity.
      - apply IH'. intros I. apply Nl. right. exact I. }
    destruct (IH _ _ _ _ D' H1 E2) as [-> [Hh F]].
    split; [reflexivity|]. split; [|constructor; assumption].
    constructor; [|exact Hh].
    pose proof (preserves_streamline_loop d p scf l ls Nl
                  (<[l := fst (streamline_data d p scf f)]> h) _
                  (lookup_insert_eq _ _ _)) as [P _].
    rewrite E2 in P. exact P.
Qed.

Lemma init_inv xl d file mode us ust p (h h' : store) self :
  init xl d file mode us ust p h = (h', Ok self) ->
  exists scf h1 names ro h2 raw out,
    (us = "" /\ scf = 1%Q \/ us = "%" /\ scf = 100%Q) /\
    import_data xl file mode h = (h1, Ok (Some (names, ro))) /\
    deepcopy ro h1 = (h2, Ok raw) /\
    for_each raw (streamline_data_method d p scf) h2 = (h', Ok out) /\
    self = TensileTest us ust p scf (named_results names) file mode ro raw
                       None [] [] [] [] [].
Proof.
  unfold init. intros H.
  apply bind_inv_Ok in H. destruct H as [h0 [scf [U H]]].
  apply bind_inv_Ok in H. destruct H as [h1 [imported [I H]]].
  destruct imported as [[names ro]|]; [|discriminate].
  apply bind_inv_Ok in H. destruct H as [h2 [raw [C H]]].
  apply bind_inv_Ok in H. destruct H as [h3 [out [L H]]].
  injection H as <- <-.
  assert (U' : h0 = h /\ (us = "" /\ scf = 1%Q \/ us = "%" /\ scf = 100%Q)).
  { destruct (String.eqb us "") eqn:E1.
    - injection U as <- <-. apply String.eqb_eq in E1. auto.
    - destruct (String.eqb us "%") eqn:E2; [|discriminate].
      injection U as <- <-. apply String.eqb_eq in E2. auto. }
  destruct U' as [-> U'].
  exists scf, h1, names, ro, h2, raw, out. repeat split; assumption.
Qed.

Lemma holds_transfer (h h' : store) ls fs :
  (forall l f, In l ls -> h !! l = Some f -> h' !! l = Some f) ->
  holds h ls fs -> holds h' ls fs.
Proof.
  intros T H. induction H as [|l f ls fs E _ IH]; constructor.
  - apply T; [left; reflexivity|exact E].
  - apply IH. intros l' f' I. apply T. right. exact I.
Qed.

Lemma holds_bound (h : store) ls fs l :
  holds h ls fs -> In l ls -> is_Some (h !! l).
Proof.
  induction 1 as [|l' f ls fs E _ IH]; intros I; [contradiction|].
  destruct I as [->|I]; [eexists; exact E|apply IH, I].
Qed.

(** C10: [streamline_data] changes the very object it is given and
    returns it; [__init__] runs it on a deep copy, so that after
    construction every entry of [raw] holds the cleaned version of the
    corresponding imported curve while the objects of [raw_original] are
    as imported; and no later evaluation changes any object that exists
    when it starts, the imported curves among them. *)
Theorem raw_original_is_never_modified :
  (forall d p scf l (h : store) f,
     h !! l = Some f ->
     fst (streamline_data_method d p scf l h) =
       <[l := fst (streamline_data d p scf f)]> h /\
     forall l', snd (streamline_data_method d p scf l h) = Ok l' -> l' = l) /\
  (forall xl d file mode us ust p (h h' : store) self,
     init xl d file mode us ust p h = (h', Ok self) ->
     exists h1 names originals,
       import_data xl file mode h =
         (h1, Ok (Some (names, raw_original self))) /\
       holds h1 (raw_original self) originals /\
       holds h' (raw_original self) originals /\
       holds h' (raw self)
             (map (fun f => fst (streamline_data d p
                                   (strain_conversion_factor self) f))
                  originals) /\
       List.NoDup (raw self) /\
       forall l, In l (raw self) -> ~ In l (raw_original self)) /\
  (forall sm lr self tau lower upper smooth kw l f (h : store),
     h !! l = Some f ->
     fst (calc_e_modulus sm lr self tau lower upper smooth kw h) !! l = Some f /\
     fst (calc_strength self h) !! l = Some f /\
     fst (calc_toughness self h) !! l = Some f /\
     fst (calc_elongation_at_break self h) !! l = Some f).
Proof.
  split; [|split].
  - intros d p scf l h f H.
    rewrite (streamline_data_method_eq d p scf l h f H). simpl.
    split; [reflexivity|].
    destruct (snd (streamline_data d p scf f)); intros l' E;
      [discriminate|]. injection E as <-. reflexivity.
  - intros xl d file mode us ust p h h' self H.
    apply init_inv in H.
    destruct H as [scf [h1 [names [ro [h2 [ws [out [_ [I [C [L ->]]]]]]]]]]].
    cbn [raw_original raw strain_conversion_factor].
    destruct (import_data_spec _ _ _ _ _ _ _ I)
      as [wb [cols [k [_ [_ [_ [Ho _]]]]]]].
    destruct (deepcopy_spec ro h1 _ Ho) as [h2' [ws' [C' [Hc [S [D F]]]]]].
    rewrite C' in C. injection C as -> ->.
    destruct (streamline_loop d p scf ws h2 h' _ out D Hc L) as [_ [Hs _]].
    assert (X : forall l, In l ws -> ~ In l ro).
    { intros l Ir Io. rewrite List.Forall_forall in F. specialize (F l Ir).
      destruct (holds_bound _ _ _ l Ho Io) as [f E]. congruence. }
    exists h1, names, (imported_frames cols k wb).
    split; [exact I|]. split; [exact Ho|]. split.
    { eapply holds_transfer; [|exact Ho]. intros l f Il E.
      assert (N : ~ In l ws) by (intros Ir; apply (X l Ir Il)).
      pose proof (preserves_streamline_loop d p scf l ws N h2 f
                    (lookup_weaken _ _ _ _ E S)) as [P _].
      rewrite L in P. exact P. }
    split; [exact Hs|]. split; [exact D|exact X].
  - intros sm lr self tau lower upper smooth kw l f h H.
    split; [apply (preserves_calc_e_modulus sm lr l self tau lower upper
                     smooth kw h f H)|].
    split; [apply (preserves_calc_strength l self h f H)|].
    split; [apply (preserves_calc_toughness l self h f H)|].
    apply (preserves_calc_elongation_at_break l self h f H).
Qed.

Lemma raw_original_is_never_modified_witness :
  exists h' self,
    init lab_file derivative "lab.xls" "Philipp Manglkammer" "%" "kPa"
         None ∅ = (h', Ok self) /\
    exists originals,
      holds h' (raw_original self) originals /\
      holds h' (raw self)
            (map (fun f => fst (streamline_data derivative None 100 f))
                 originals) /\
      forall l, In l (raw self) -> ~ In l (raw_original self).
Proof.
  destruct (init lab_file derivative "lab.xls" "Philipp Manglkammer" "%" "kPa"
                 None ∅) as [h' [e|self]] eqn:E.
  - vm_compute in E. discriminate.
  - exists h', self. split; [reflexivity|].
    destruct (proj1 (proj2 raw_original_is_never_modified)
                _ _ _ _ _ _ _ _ _ _ E)
      as [h1 [names [originals [_ [_ [Ho [Hr [_ X]]]]]]]].
    assert (S : strain_conversion_factor self = 100%Q).
    { vm_compute in E. injection E as _ <-. reflexivity. }
    rewrite S in Hr.
    exists originals. split; [exact Ho|]. split; [exact Hr|exact X].
Defined.

Lemma streamline_data_Some_empty d p scf f i j t :
  wf_frame f ->
  col_index "strain" (columns f) = Some i ->
  col_index "stress" (columns f) = Some j ->
  col_index "tool_distance" (columns f) = Some t ->
  kept_rows i j p (rows f) = [] ->
  streamline_data d (Some p) scf f = (Frame (columns f) [], Err IndexError).
Proof.
  intros W Hi Hj Ht Hk. unfold streamline_data.
  erewrite bind_Ok by (apply drop_duplicates_Ok, Hi).
  erewrite bind_Ok by (apply sort_values_Ok, Hi).
  erewrite bind_Ok by (apply column_Ok, Hj).
  erewrite bind_Ok by reflexivity.
  cbn [rows columns].
  erewrite bind_Ok.
  2:{ apply (where_Ok (fun r => cell_ge (get j r) (Some p))). }
  erewrite bind_Ok by reflexivity.
  cbn [rows columns].
  rewrite filter_where_dropna.
  2:{ apply List.Forall_forall. intros r Hr.
      apply sort_rows_In in Hr. apply keep_first_incl in Hr.
      pose proof (wf_nonempty f i _ W Hi) as N.
      rewrite List.Forall_forall in N. apply N, Hr. }
  fold (kept_rows i j p (rows f)). rewrite Hk.
  erewrite bind_Err; [reflexivity|].
  eapply iloc0_empty; [exact Ht|reflexivity].
Qed.

Lemma import_filter_strain mode cols k :
  import_filter mode = Some (cols, k) ->
  exists i, col_index "strain" cols = Some i.
Proof.
  unfold import_filter. intros H.
  destruct (String.eqb mode "Marc_Stuhlmueller");
    [|destruct (String.eqb mode "Philipp Manglkammer");
      [|destruct (String.eqb mode "Lena_Schunter"); [|discriminate]]];
    injection H as <- <-; eexists; reflexivity.
Qed.

Lemma streamline_loop_Ok d p scf ls : forall (h : store) fs,
  List.NoDup ls -> holds h ls fs ->
  Forall (fun f => snd (streamline_data d p scf f) = Ok tt) fs ->
  exists h', for_each ls (streamline_data_method d p scf) h = (h', Ok ls).
Proof.
  induction ls as [|l ls IH]; intros h fs D H F;
    inversion H as [|? f ? fs' Hl H']; subst.
  - exists h. reflexivity.
  - inversion D as [|? ? Nl D']; subst. inversion F as [|? ? Ff F']; subst.
    assert (H1 : holds (<[l := fst (streamline_data d p scf f)]> h) ls fs').
    { eapply holds_transfer; [|exact H']. intros l' f' I E.
      rewrite lookup_insert_ne; [exact E|]. intros ->. contradiction. }
    destruct (IH _ _ D' H1 F') as [h' E]. exists h'. simpl.
    erewrite bind_Ok.
    2:{ rewrite (streamline_data_method_eq d p scf l h f Hl), Ff.
        reflexivity. }
    erewrite bind_Ok by exact E. reflexivity.
Qed.

Lemma streamline_loop_Err d p scf e ls : forall (h : store) fs,
  List.NoDup ls -> holds h ls fs ->
  Forall (fun f => snd (streamline_data d p scf f) = Ok tt \/
                   snd (streamline_data d p scf f) = Err e) fs ->
  Exists (fun f => snd (streamline_data d p scf f) = Err e) fs ->
  snd (for_each ls (streamline_data_method d p scf) h) = Err e.
Proof.
  induction ls as [|l ls IH]; intros h fs D H F X;
    inversion H as [|? f ? fs' Hl H']; subst.
  - inversion X.
  - inversion D as [|? ? Nl D']; subst. inversion F as [|? ? Ff F']; subst.
    assert (H1 : holds (<[l := fst (streamline_data d p scf f)]> h) ls fs').
    { eapply holds_transfer; [|exact H']. intros l' f' I E.
      rewrite lookup_insert_ne; [exact E|]. intros ->. contradiction. }
    simpl. unfold bind at 1.
    rewrite (streamline_data_method_eq d p scf l h f Hl).
    destruct Ff as [Ff|Ff]; rewrite Ff; [|reflexivity].
    assert (X' : Exists (fun f => snd (streamline_data d p scf f) = Err e) fs').
    { inversion X as [? ? Xf|? ? Xr]; subst; [|exact Xr].
      rewrite Ff in Xf. discriminate. }
    specialize (IH _ _ D' H1 F' X'). cbv beta iota.
    unfold bind at 1.
    destruct (for_each ls (streamline_data_method d p scf) _) as [h' [e'|a]];
      simpl in IH; [|discriminate]. unfold Ok, Err in *. simpl. exact IH.
Qed.

Lemma holds_length (h : store) ls fs : holds h ls fs -> length ls = length fs.
Proof. induction 1; simpl; congruence. Qed.

Lemma init_Ok_without_preload xl d file mode us ust (h : store) wb cols k scf :
  (us = "" /\ scf = 1%Q \/ us = "%" /\ scf = 100%Q) ->
  xl file = Ok wb ->
  import_filter mode = Some (cols, k) ->
  exists h' ro ws,
    init xl d file mode us ust None h =
      (h', Ok (TensileTest us ust None scf
                 (named_results (map fst (skipn k wb))) file mode ro ws
                 None [] [] [] [] [])) /\
    length ro = length (skipn k wb) /\ length ws = length (skipn k wb).
Proof.
  intros U X F.
  destruct (import_data_Ok xl file mode h wb cols k X F)
    as [h1 [ro [I [Ho S1]]]].
  destruct (deepcopy_spec ro h1 _ Ho) as [h2 [ws [C [Hc [S2 [D _]]]]]].
  destruct (import_filter_strain mode cols k F) as [i Hi].
  destruct (streamline_loop_Ok d None scf ws h2 _ D Hc) as [h' L].
  { unfold imported_frames. apply List.Forall_forall. intros f If.
    apply in_map_iff in If. destruct If as [sh [<- _]].
    erewrite streamline_data_None_eq by exact Hi. reflexivity. }
  exists h', ro, ws. split.
  - unfold init.
    erewrite bind_Ok with (a := scf) (s' := h).
    2:{ destruct U as [[-> ->]|[-> ->]]; reflexivity. }
    cbv beta. erewrite bind_Ok by exact I. cbv beta iota.
    erewrite bind_Ok by exact C.
    erewrite bind_Ok by exact L. reflexivity.
  - apply holds_length in Ho, Hc. unfold imported_frames in *.
    rewrite length_map in *. split; congruence.
Qed.

Lemma no_unit_error_bind {S A B} (m : st S A) (k : A -> st S B) :
  no_unit_error m -> (forall a, no_unit_error (k a)) ->
  no_unit_error (bind m k).
Proof.
  intros Hm Hk s. unfold bind. specialize (Hm s).
  destruct (m s) as [s1 [e|a]]; simpl in *; [|apply Hk].
  intros E. apply Hm. unfold Err in *. injection E as ->. reflexivity.
Qed.

Lemma no_unit_error_ret {S A} (a : A) : no_unit_error (ret a : st S A).
Proof. intros s. discriminate. Qed.

Lemma no_unit_error_column c : no_unit_error (column c).
Proof.
  intros f. unfold column. destruct (col_index c (columns f)); discriminate.
Qed.

Lemma no_unit_error_assign c vals : no_unit_error (assign c vals).
Proof.
  intros f. unfold assign. destruct (negb _); [discriminate|].
  destruct (col_index c (columns f)); discriminate.
Qed.

Lemma no_unit_error_streamline_data d p scf :
  no_unit_error (streamline_data d p scf).
Proof.
  unfold streamline_data, drop_duplicates, sort_values, dropna, where_, iloc0.
  repeat first
    [ apply no_unit_error_column
    | apply no_unit_error_assign
    | apply no_unit_error_ret
    | apply no_unit_error_bind; [|intros ?]
    | (intros ?; discriminate)
    | match goal with
      | |- no_unit_error (match ?x with _ => _ end) => destruct x
      end ].
Qed.

Lemma no_unit_error_in_place {A} l (m : mut A) :
  no_unit_error m -> no_unit_error (in_place l m).
Proof.
  intros H h. unfold in_place. destruct (h !! l) as [f|]; [|discriminate].
  specialize (H f). destruct (m f) as [f' r]. exact H.
Qed.

Lemma no_unit_error_for_each {S A B} (body : A -> st S B) xs :
  (forall x, no_unit_error (body x)) -> no_unit_error (for_each xs body).
Proof.
  intros H. induction xs as [|x xs IH]; simpl.
  - apply no_unit_error_ret.
  - apply no_unit_error_bind; [apply H|]. intros b.
    apply no_unit_error_bind; [exact IH|]. intros bs.
    apply no_unit_error_ret.
Qed.

Lemma no_unit_error_raise {S A} e :
  e <> unit_strain_error -> no_unit_error (raise e : st S A).
Proof. intros N s E. apply N. unfold Err in E. injection E as ->. reflexivity. Qed.

Lemma no_unit_error_init_reader xl d file mode us ust p :
  us = "" \/ us = "%" -> xl file <> Err unit_strain_error ->
  no_unit_error (init xl d file mode us ust p).
Proof.
  intros U X. unfold init.
  apply no_unit_error_bind.
  { destruct U as [->| ->]; apply no_unit_error_ret. }
  intros scf. apply no_unit_error_bind.
  { unfold import_data, import_sheets.
    destruct (xl file) as [e|wb] eqn:R.
    - assert (N : e <> unit_strain_error) by (intros ->; apply X; reflexivity).
      destruct (String.eqb mode "Marc_Stuhlmueller");
        [apply no_unit_error_ret|].
      destruct (String.eqb mode "Philipp Manglkammer");
        [apply no_unit_error_raise, N|].
      destruct (String.eqb mode "Lena_Schunter");
        [apply no_unit_error_raise, N|].
      apply no_unit_error_raise. discriminate.
    - repeat first
        [ apply no_unit_error_ret
        | apply no_unit_error_bind; [|intros ?]
        | apply no_unit_error_for_each; intros ?
        | (intros ?; discriminate)
        | match goal with
          | |- no_unit_error (if ?x then _ else _) => destruct x
          end ]. }
  intros [[names ro]|]; [|intros s; discriminate].
  apply no_unit_error_bind.
  { apply no_unit_error_for_each. intros l. unfold copy.
    apply no_unit_error_bind.
    - apply no_unit_error_in_place. intros f. discriminate.
    - intros f s. discriminate. }
  intros ws. apply no_unit_error_bind; [|intros ?; apply no_unit_error_ret].
  apply no_unit_error_for_each. intros l. unfold streamline_data_method.
  apply no_unit_error_bind; [|intros ?; apply no_unit_error_ret].
  apply no_unit_error_in_place, no_unit_error_streamline_data.
Qed.

(** C7 (as amended): with a strain unit other than '' and '%' construction
    raises the configuration error of the unit check and the store is as
    before: nothing has been imported or cleaned, whatever the file
    holds.  With one of the two units the unit check lets construction
    pass: construction then never raises that error (unless the file
    reader itself raises it), it succeeds with a readable file, a known
    import filter and no preload, and whenever it succeeds the conversion
    factor is 1 for '' and 100 for '%'.  It can still raise what the import
    or the cleaning raises. *)
Theorem unit_strain_is_checked_first :
  (forall xl d file mode us ust p (h : store),
     us <> "" -> us <> "%" ->
     init xl d file mode us ust p h = (h, Err unit_strain_error)) /\
  (forall xl d file mode us ust (h : store) wb cols k,
     us = "" \/ us = "%" ->
     xl file = Ok wb -> import_filter mode = Some (cols, k) ->
     exists h' self, init xl d file mode us ust None h = (h', Ok self)) /\
  (forall xl d file mode us ust p (h : store),
     us = "" \/ us = "%" -> xl file <> Err unit_strain_error ->
     snd (init xl d file mode us ust p h) <> Err unit_strain_error) /\
  (forall xl d file mode us ust p (h h' : store) self,
     init xl d file mode us ust p h = (h', Ok self) ->
     unit_strain self = us /\
     (us = "" /\ strain_conversion_factor self = 1%Q \/
      us = "%" /\ strain_conversion_factor self = 100%Q)).
Proof.
  split; [|split; [|split]].
  - intros xl d file mode us ust p h N1 N2. unfold init, bind.
    apply String.eqb_neq in N1, N2. rewrite N1, N2. reflexivity.
  - intros xl d file mode us ust h wb cols k U X F.
    destruct (init_Ok_without_preload xl d file mode us ust h wb cols k
                (if String.eqb us "" then 1%Q else 100%Q))
      as [h' [ro [ws [E _]]]]; try assumption.
    { destruct U as [->| ->]; [left|right]; split; reflexivity. }
    eauto.
  - intros xl d file mode us ust p h U X.
    apply (no_unit_error_init_reader xl d file mode us ust p U X).
  - intros xl d file mode us ust p h h' self H.
    apply init_inv in H.
    destruct H as [scf [h1 [names [ro [h2 [ws [out [U [_ [_ [_ ->]]]]]]]]]]].
    split; [reflexivity|exact U].
Qed.

Lemma unit_strain_is_checked_first_witness :
  init lab_file derivative "lab.xls" "Philipp Manglkammer" "percent" "kPa"
       None ∅ = (∅, Err unit_strain_error) /\
  (exists h' self,
     init lab_file derivative "lab.xls" "Philipp Manglkammer" "%" "kPa"
          None ∅ = (h', Ok self)) /\
  snd (init broken_file derivative "lab.xls" "Philipp Manglkammer" "%" "kPa"
            None ∅) <> Err unit_strain_error.
Proof.
  split; [|split].
  - apply (proj1 unit_strain_is_checked_first); discriminate.
  - apply (proj1 (proj2 unit_strain_is_checked_first) lab_file derivative
             "lab.xls" "Philipp Manglkammer" "%" "kPa" ∅ lab_workbook
             ["stress"; "strain"] 3%nat).
    + right. reflexivity.
    + reflexivity.
    + reflexivity.
  - apply (proj1 (proj2 (proj2 unit_strain_is_checked_first)) broken_file
             derivative "lab.xls" "Philipp Manglkammer" "%" "kPa" None ∅).
    + right. reflexivity.
    + discriminate.
Defined.

(** Construction with the unit '%' that raises all the same: an import
    mode that is none of the three filters, a file that is no workbook,
    read with each kind of filter, a preload that leaves a sample without
    rows, and a preload with a filter that reads no tool distance. *)
Lemma recognised_unit_can_still_raise :
  init lab_file derivative "lab.xls" "Marc_Stuhlmüller" "%" "kPa" None ∅ =
    (∅, Err import_mode_error) /\
  init broken_file derivative "lab.xls" "Philipp Manglkammer" "%" "kPa"
       None ∅ = (∅, Err not_a_workbook) /\
  init broken_file derivative "lab.xls" "Marc_Stuhlmueller" "%" "kPa"
       None ∅ = (∅, Err (AttributeError "raw_original")) /\
  snd (init preload_file derivative "lab.xls" "Lena_Schunter" "%" "kPa"
            (Some 100%Q) ∅) = Err IndexError /\
  snd (init lab_file derivative "lab.xls" "Philipp Manglkammer" "%" "kPa"
            (Some 1%Q) ∅) = Err (KeyError "tool_distance").
Proof.
  split; [vm_compute; reflexivity|].
  split; [vm_compute; reflexivity|].
  split; [vm_compute; reflexivity|].
  split; vm_compute; reflexivity.
Qed.

Lemma named_results_length names :
  length (name (named_results names)) = length names.
Proof. reflexivity. Qed.

Lemma lena_streamline d p scf sh :
  (forall xs ys, length (d xs ys) = length xs) ->
  let f := parse ["tool_distance"; "strain"; "stress"] sh in
  snd (streamline_data d (Some p) scf f) = Ok tt \/
  snd (streamline_data d (Some p) scf f) = Err IndexError.
Proof.
  intros Hd f.
  destruct (kept_rows 1 2 p (rows f)) as [|r0 kept'] eqn:K.
  - right.
    rewrite (streamline_data_Some_empty d p scf f 1 2 0);
      try reflexivity; [apply parse_wf|exact K].
  - left.
    rewrite (streamline_data_Some_eq d p scf f 1 2 0 r0 kept');
      try reflexivity; [apply parse_wf|exact Hd|exact K].
Qed.

(** ** The regression sweep *)

Lemma Qsum_cons a l : Qsum (a :: l) = (a + Qsum l)%Q.
Proof. reflexivity. Qed.

Lemma fold_add_point l : forall s,
  count (fold_left add_point l s) = (count s + Z.of_nat (length l))%Z /\
  (sum_x (fold_left add_point l s) == sum_x s + Qsum (map fst l) /\
   sum_y (fold_left add_point l s) == sum_y s + Qsum (map snd l) /\
   sum_xy (fold_left add_point l s) ==
     sum_xy s + Qsum (map (fun p => fst p * snd p) l) /\
   sum_xx (fold_left add_point l s) ==
     sum_xx s + Qsum (map (fun p => fst p * fst p) l) /\
   sum_yy (fold_left add_point l s) ==
     sum_yy s + Qsum (map (fun p => snd p * snd p) l))%Q.
Proof.
  induction l as [|[x y] l IH]; intros s.
  - simpl. repeat split; try ring; lia.
  - cbn [fold_left]. destruct (IH (add_point s (x, y)))
      as [C [X [Y [XY [XX YY]]]]].
    cbn [length map fst snd]. rewrite !Qsum_cons.
    rewrite C, X, Y, XY, XX, YY. cbn [add_point count sum_x sum_y sum_xy
      sum_xx sum_yy]. repeat split; try ring; lia.
Qed.

Lemma sums_of_stats l : sums_eq (sums_of l) (stats l).
Proof.
  unfold sums_of, sums_eq, stats.
  destruct (fold_add_point l no_points) as [C [X [Y [XY [XX YY]]]]].
  cbn [count sum_x sum_y sum_xy sum_xx sum_yy no_points] in *.
  rewrite C, X, Y, XY, XX, YY. repeat split; try ring.
Qed.

Lemma Qeq_bool_compat (a b c : Q) :
  (a == b)%Q -> Qeq_bool a c = Qeq_bool b c.
Proof.
  intros E. destruct (Qeq_bool a c) eqn:A, (Qeq_bool b c) eqn:B;
    try reflexivity.
  - apply Qeq_bool_iff in A. apply Qeq_bool_neq in B. exfalso. apply B.
    rewrite <- E. exact A.
  - apply Qeq_bool_iff in B. apply Qeq_bool_neq in A. exfalso. apply A.
    rewrite E. exact B.
Qed.

Lemma fit_of_compat s s' :
  sums_eq s s' -> option_fit_eq (fit_of s) (fit_of s').
Proof.
  intros [C [X [Y [XY [XX YY]]]]]. unfold fit_of. rewrite <- C.
  set (n := inject_Z (count s)).
  assert (Dxx : (n * sum_xx s - sum_x s * sum_x s ==
                 n * sum_xx s' - sum_x s' * sum_x s')%Q)
    by (rewrite XX, X; reflexivity).
  assert (Dxy : (n * sum_xy s - sum_x s * sum_y s ==
                 n * sum_xy s' - sum_x s' * sum_y s')%Q)
    by (rewrite XY, X, Y; reflexivity).
  assert (Dyy : (n * sum_yy s - sum_y s * sum_y s ==
                 n * sum_yy s' - sum_y s' * sum_y s')%Q)
    by (rewrite YY, Y; reflexivity).
  rewrite (Qeq_bool_compat _ _ 0 Dxx).
  destruct (Qeq_bool _ 0); [exact I|].
  unfold option_fit_eq, fit_eq. cbn [slope intercept r_squared].
  rewrite Dxx, Dxy, Dyy, X, Y. repeat split; reflexivity.
Qed.

Lemma option_fit_eq_trans f g k :
  option_fit_eq f g -> option_fit_eq g k -> option_fit_eq f k.
Proof.
  destruct f as [a|], g as [b|], k as [c|]; simpl; try tauto.
  unfold fit_eq. intros [A [B C]] [A' [B' C']].
  rewrite A, B, C. repeat split; assumption.
Qed.

Lemma centered_sum {A} (f g : A -> Q) (c d : Q) l :
  (Qsum (map (fun p => (f p - c) * (g p - d)) l) ==
   Qsum (map (fun p => f p * g p) l) - c * Qsum (map g l)
   - d * Qsum (map f l) + inject_Z (Z.of_nat (length l)) * c * d)%Q.
Proof.
  induction l as [|a l IH].
  - simpl. ring.
  - cbn [map length]. rewrite !Qsum_cons.
    rewrite IH, Nat2Z.inj_succ. unfold Z.succ. rewrite inject_Z_plus.
    ring.
Qed.

Lemma Qdiv_zero (a b : Q) : (b == 0)%Q -> (a / b == 0)%Q.
Proof. intros E. unfold Qdiv. rewrite E. unfold Qinv. simpl. ring. Qed.

Lemma ols_algebra (n Sx Sy Sxy Sxx Syy sxx sxy syy mx my : Q) :
  ~ (n == 0)%Q ->
  (mx == Sx / n)%Q -> (my == Sy / n)%Q ->
  (sxx == Sxx - mx * Sx - mx * Sx + n * mx * mx)%Q ->
  (sxy == Sxy - mx * Sy - my * Sx + n * mx * my)%Q ->
  (syy == Syy - my * Sy - my * Sy + n * my * my)%Q ->
  let dxx := (n * Sxx - Sx * Sx)%Q in
  let dxy := (n * Sxy - Sx * Sy)%Q in
  let dyy := (n * Syy - Sy * Sy)%Q in
  Qeq_bool dxx 0 = Qeq_bool sxx 0 /\
  (~ (dxx == 0)%Q ->
   (dxy / dxx == sxy / sxx)%Q /\
   ((Sy - dxy / dxx * Sx) / n == my - sxy / sxx * mx)%Q /\
   (dxy * dxy / (dxx * dyy) == sxy * sxy / (sxx * syy))%Q).
Proof.
  intros N Mx My Exx Exy Eyy dxx dxy dyy.
  assert (Cxx : (sxx == dxx / n)%Q).
  { rewrite Exx, Mx. unfold dxx. field. exact N. }
  assert (Cxy : (sxy == dxy / n)%Q).
  { rewrite Exy, Mx, My. unfold dxy. field. exact N. }
  assert (Cyy : (syy == dyy / n)%Q).
  { rewrite Eyy, My. unfold dyy. field. exact N. }
  split.
  - destruct (Qeq_bool dxx 0) eqn:A, (Qeq_bool sxx 0) eqn:B; try reflexivity.
    + apply Qeq_bool_iff in A. apply Qeq_bool_neq in B. exfalso. apply B.
      rewrite Cxx, A. field. exact N.
    + apply Qeq_bool_iff in B. apply Qeq_bool_neq in A. exfalso. apply A.
      assert (E : (dxx == sxx * n)%Q) by (rewrite Cxx; field; exact N).
      rewrite E, B. ring.
  - intros D.
    assert (S : (dxy / dxx == sxy / sxx)%Q).
    { rewrite Cxy, Cxx. field. split; assumption. }
    split; [exact S|]. split.
    + rewrite <- S, My, Mx. field. split; assumption.
    + destruct (Qeq_bool dyy 0) eqn:Z.
      * apply Qeq_bool_iff in Z.
        rewrite (Qdiv_zero (dxy * dxy) (dxx * dyy)) by (rewrite Z; ring).
        rewrite (Qdiv_zero (sxy * sxy) (sxx * syy)); [reflexivity|].
        rewrite Cyy, Z. field. exact N.
      * apply Qeq_bool_neq in Z. rewrite Cxy, Cxx, Cyy. field.
        repeat split; assumption.
Qed.

Lemma length_nonzero {A} (l : list A) :
  l <> [] -> ~ (inject_Z (Z.of_nat (length l)) == 0)%Q.
Proof.
  intros N E. destruct l as [|a l]; [contradiction|].
  unfold Qeq in E. simpl in E. lia.
Qed.

(** The line computed from the running sums is the least-squares line
    of the window. *)
Lemma fit_of_sums_ols l :
  l <> [] -> option_fit_eq (fit_of (sums_of l)) (ols l).
Proof.
  intros N.
  eapply option_fit_eq_trans; [apply fit_of_compat, sums_of_stats|].
  pose proof (length_nonzero l N) as Nn.
  unfold fit_of, ols, stats, mean.
  cbn [count sum_x sum_y sum_xy sum_xx sum_yy]. rewrite !length_map.
  set (n := inject_Z (Z.of_nat (length l))) in *.
  set (Sx := Qsum (map fst l)). set (Sy := Qsum (map snd l)).
  set (mx := (Sx / n)%Q). set (my := (Sy / n)%Q).
  destruct (ols_algebra n Sx Sy
              (Qsum (map (fun p => fst p * snd p)%Q l))
              (Qsum (map (fun p => fst p * fst p)%Q l))
              (Qsum (map (fun p => snd p * snd p)%Q l))
              (Qsum (map (fun p => (fst p - mx) * (fst p - mx))%Q l))
              (Qsum (map (fun p => (fst p - mx) * (snd p - my))%Q l))
              (Qsum (map (fun p => (snd p - my) * (snd p - my))%Q l))
              mx my Nn) as [B V]; try reflexivity.
  - rewrite (centered_sum fst fst mx mx l). reflexivity.
  - rewrite (centered_sum fst snd mx my l). reflexivity.
  - rewrite (centered_sum snd snd my my l). reflexivity.
  - cbv zeta in B, V. rewrite B.
    destruct (Qeq_bool (Qsum (map (fun p => (fst p - mx) * (fst p - mx))%Q l)) 0)
      eqn:Z; [exact I|].
    apply Qeq_bool_neq in B.
    destruct (V B) as [V1 [V2 V3]].
    unfold option_fit_eq, fit_eq. cbn [slope intercept r_squared].
    repeat split; assumption.
Qed.

Lemma sweep_cons tau s best p pts :
  sweep tau s best (p :: pts) =
  (fit_of (add_point s p)
     :: fst (sweep tau (add_point s p)
               (if qualifies tau (fit_of (add_point s p))
                then option_map (fun ft => (fst p, snd p, ft))
                                (fit_of (add_point s p))
                else best) pts),
   snd (sweep tau (add_point s p)
          (if qualifies tau (fit_of (add_point s p))
           then option_map (fun ft => (fst p, snd p, ft))
                           (fit_of (add_point s p))
           else best) pts)).
Proof.
  cbn [sweep]. unfold qualifies.
  destruct (fit_of (add_point s p)) as [ft|]; cbn [option_map].
  - destruct (Qle_bool tau (r_squared ft));
      destruct (sweep tau (add_point s p) _ pts); reflexivity.
  - destruct (sweep tau (add_point s p) best pts); reflexivity.
Qed.

Lemma sweep_trace tau pts : forall s best j,
  (j < length pts)%nat ->
  nth_error (fst (sweep tau s best pts)) j =
  Some (fit_of (fold_left add_point (firstn (S j) pts) s)).
Proof.
  induction pts as [|p pts IH]; intros s best j L; [simpl in L; lia|].
  rewrite sweep_cons. cbn [fst]. destruct j as [|j].
  - destruct pts; reflexivity.
  - cbn [nth_error]. rewrite IH by (simpl in L; lia). reflexivity.
Qed.

Lemma sweep_none tau pts : forall s best,
  (forall j, (j < length pts)%nat ->
     qualifies tau (fit_of (fold_left add_point (firstn (S j) pts) s))
     = false) ->
  snd (sweep tau s best pts) = best.
Proof.
  induction pts as [|p pts IH]; intros s best H; [reflexivity|].
  rewrite sweep_cons. cbn [snd].
  assert (H0 : qualifies tau (fit_of (add_point s p)) = false).
  { specialize (H 0%nat). simpl in H. destruct pts; apply H; simpl; lia. }
  rewrite H0. apply IH. intros j L.
  apply (H (S j)). simpl. lia.
Qed.

Lemma sweep_last tau pts : forall s best j p ft,
  nth_error pts j = Some p ->
  fit_of (fold_left add_point (firstn (S j) pts) s) = Some ft ->
  Qle_bool tau (r_squared ft) = true ->
  (forall j', (j < j')%nat -> (j' < length pts)%nat ->
     qualifies tau (fit_of (fold_left add_point (firstn (S j') pts) s))
     = false) ->
  snd (sweep tau s best pts) = Some (fst p, snd p, ft).
Proof.
  induction pts as [|p0 pts IH]; intros s best j p ft N F Q H;
    [destruct j; discriminate|].
  rewrite sweep_cons. cbn [snd]. destruct j as [|j].
  - simpl in N. injection N as <-.
    assert (F0 : fit_of (add_point s p0) = Some ft).
    { destruct pts; exact F. }
    rewrite F0. cbn [qualifies option_map]. rewrite Q.
    apply sweep_none. intros j' L. apply (H (S j')); simpl; lia.
  - simpl in N. eapply IH; [exact N|exact F|exact Q|].
    intros j' L1 L2. apply (H (S j')); simpl; lia.
Qed.

Lemma nth_error_relabel rs : forall n i,
  nth_error (relabel n rs) i =
  option_map (fun r => Row (n + i) (cells r)) (nth_error rs i).
Proof.
  induction rs as [|r rs IH]; intros n i; destruct i as [|i]; simpl;
    try reflexivity.
  - rewrite Nat.add_0_r. reflexivity.
  - rewrite IH. replace (S n + i)%nat with (n + S i)%nat by lia. reflexivity.
Qed.

Lemma numbers_Some qs : numbers (map Some qs) = Some qs.
Proof. induction qs as [|q qs IH]; simpl; [|rewrite IH]; reflexivity. Qed.

Lemma combine_fst_snd {A B} (l : list (A * B)) :
  combine (map fst l) (map snd l) = l.
Proof.
  induction l as [|[a b] l IH]; simpl; [reflexivity|]. f_equal. exact IH.
Qed.

Lemma shows_trace_row f g : option_fit_eq f g -> forall n, shows (Row n (cells (trace_row f))) g.
Proof.
  destruct f as [a|], g as [b|]; simpl; try contradiction; intros E n.
  - exists (slope a), (intercept a), (r_squared a). split; [reflexivity|].
    exact E.
  - reflexivity.
Qed.

Lemma qualifies_ols tau l ft0 :
  l <> [] -> fit_of (sums_of l) = Some ft0 ->
  exists ft, ols l = Some ft /\ fit_eq ft0 ft /\
             (Qle_bool tau (r_squared ft0) = true <-> (tau <= r_squared ft)%Q).
Proof.
  intros N F. pose proof (fit_of_sums_ols l N) as E. rewrite F in E.
  destruct (ols l) as [ft|]; [|contradiction]. exists ft.
  split; [reflexivity|]. split; [exact E|].
  destruct E as [_ [_ R]]. rewrite Qle_bool_iff, R. reflexivity.
Qed.

Lemma lin_reg_all_sections_eq tau p0 p1 rest :
  let pts := p0 :: p1 :: rest in
  let sw := sweep tau (add_point no_points p0) None (p1 :: rest) in
  lin_reg_all_sections (map (fun p => Some (fst p)) pts)
                       (map (fun p => Some (snd p)) pts) tau =
  Ok (match snd sw with
      | Some (x, y, ft) =>
          Regression
            (Frame ["slopes"; "intercepts"; "r_squared"]
                   (relabel 0 (map trace_row (None :: fst sw))))
            (Some x) (Some y) (Some (slope ft)) (Some (intercept ft))
      | None =>
          Regression
            (Frame ["slopes"; "intercepts"; "r_squared"]
                   (relabel 0 (map trace_row (None :: fst sw))))
            NaN NaN NaN NaN
      end).
Proof.
  intros pts sw. unfold lin_reg_all_sections.
  replace (length (map (fun p => Some (fst p)) pts) <? 2)%nat with false
    by reflexivity.
  rewrite <- (map_map fst Some), <- (map_map snd Some).
  rewrite !numbers_Some, combine_fst_snd. unfold pts. fold sw.
  destruct sw as [trace [[[x y] ft]|]]; reflexivity.
Qed.

(** C1: on a sub-curve of at least two points the detector succeeds; the
    trace row of every window size k = 2..M shows the least-squares line
    through the first k points; and when k is the last window size whose
    R² is at least tau, the reported linear limit is the strain of the
    k-th point and the reported slope and intercept are those of that
    line.  On the piecewise curve with tau = 0.995 the linear limit is 5
    and the slope 2, both on the ten points and when the curve is read
    from a workbook and evaluated by [calc_e_modulus] without smoothing. *)
Theorem lin_reg_all_sections_last_qualifying_window :
  (forall tau pts,
     (2 <= length pts)%nat ->
     exists reg,
       lin_reg_all_sections (map (fun p => Some (fst p)) pts)
                            (map (fun p => Some (snd p)) pts) tau = Ok reg /\
       (forall k, (2 <= k <= length pts)%nat ->
          exists r, nth_error (rows (regression_results reg)) (k - 1) = Some r /\
                    label r = (k - 1)%nat /\ shows r (ols (firstn k pts))) /\
       (forall k p ft,
          (2 <= k <= length pts)%nat ->
          nth_error pts (k - 1) = Some p ->
          ols (firstn k pts) = Some ft ->
          (tau <= r_squared ft)%Q ->
          (forall k' ft', (k < k' <= length pts)%nat ->
             ols (firstn k' pts) = Some ft' -> ~ (tau <= r_squared ft')%Q) ->
          linear_limit reg = Some (fst p) /\
          exists s c,
            slope_at_limit reg = Some s /\ intercept_at_limit reg = Some c /\
            (s == slope ft)%Q /\ (c == intercept ft)%Q)) /\
  (exists reg s,
     lin_reg_all_sections (map (fun p => Some (fst p)) piecewise_points)
                          (map (fun p => Some (snd p)) piecewise_points)
                          (995 # 1000) = Ok reg /\
     linear_limit reg = Some 5%Q /\
     slope_at_limit reg = Some s /\ (s == 2)%Q) /\
  (exists h self h' self' s,
     init piecewise_file derivative "lab.xls" "Philipp Manglkammer" "%" "kPa"
          None ∅ = (h, Ok self) /\
     calc_e_modulus no_smoothing lin_reg_all_sections self
       (995 # 1000) 0 50 false (Kwargs None None None) h = (h', Ok self') /\
     linear_limit_title (results self') = [Some 5%Q] /\
     slope_limit_title (results self') = [Some s] /\ (s == 2)%Q).
Proof.
  split; [|split].
  - intros tau pts L.
    destruct pts as [|p0 [|p1 rest]]; [simpl in L; lia|simpl in L; lia|].
    set (pts := p0 :: p1 :: rest) in *.
    set (s0 := add_point no_points p0).
    set (sw := sweep tau s0 None (p1 :: rest)).
    eexists. split; [apply lin_reg_all_sections_eq|]. fold s0. fold sw.
    assert (W : forall j, fold_left add_point (firstn (S j) (p1 :: rest)) s0 =
                          sums_of (firstn (S (S j)) pts)) by reflexivity.
    assert (NE : forall j, firstn (S (S j)) pts <> []) by discriminate.
    assert (T : forall j, (j < length (p1 :: rest))%nat ->
                nth_error (fst sw) j =
                Some (fit_of (sums_of (firstn (S (S j)) pts)))).
    { intros j Lj. unfold sw. rewrite sweep_trace by exact Lj.
      rewrite W. reflexivity. }
    split.
    + intros k [K1 K2].
      assert (R : rows (regression_results
                    match snd sw with
                    | Some (x, y, ft) =>
                        Regression
                          (Frame ["slopes"; "intercepts"; "r_squared"]
                             (relabel 0 (map trace_row (None :: fst sw))))
                          (Some x) (Some y) (Some (slope ft))
                          (Some (intercept ft))
                    | None =>
                        Regression
                          (Frame ["slopes"; "intercepts"; "r_squared"]
                             (relabel 0 (map trace_row (None :: fst sw))))
                          NaN NaN NaN NaN
                    end) = relabel 0 (map trace_row (None :: fst sw))).
      { destruct (snd sw) as [[[x y] ft]|]; reflexivity. }
      rewrite R, nth_error_relabel, nth_error_map.
      destruct k as [|[|j]]; try lia.
      replace (S (S j) - 1)%nat with (S j) by lia. cbn [nth_error].
      rewrite T by (simpl in *; lia). cbn [option_map].
      eexists. split; [reflexivity|]. split; [reflexivity|].
      apply shows_trace_row. apply fit_of_sums_ols, NE.
    + intros k p ft [K1 K2] N O HQ H.
      destruct k as [|[|j]]; try lia.
      replace (S (S j) - 1)%nat with (S j) in N by lia.
      unfold pts in N. cbn [nth_error] in N.
      destruct (fit_of (sums_of (firstn (S (S j)) pts))) as [ft0|] eqn:F.
      2:{ pose proof (fit_of_sums_ols (firstn (S (S j)) pts) (NE j)) as E.
          rewrite F, O in E. destruct E. }
      destruct (qualifies_ols tau _ ft0 (NE j) F)
        as [ft1 [O1 [E Q1]]].
      rewrite O in O1. injection O1 as <-.
      assert (Fin : snd sw = Some (fst p, snd p, ft0)).
      { unfold sw. apply (sweep_last tau (p1 :: rest) s0 None j p ft0).
        - exact N.
        - rewrite W. exact F.
        - apply Q1, HQ.
        - intros j' L1 L2. rewrite W.
          destruct (fit_of (sums_of (firstn (S (S j')) pts))) as [ft'|] eqn:F';
            [|reflexivity].
          destruct (qualifies_ols tau _ ft' (NE j') F')
            as [ft2 [O2 [_ Q2]]].
          cbn [qualifies].
          destruct (Qle_bool tau (r_squared ft')) eqn:B; [|reflexivity].
          exfalso. apply (H (S (S j')) ft2); [simpl in *; lia|exact O2|].
          apply Q2. reflexivity. }
      rewrite Fin. cbn [linear_limit slope_at_limit intercept_at_limit].
      split; [reflexivity|]. exists (slope ft0), (intercept ft0).
      destruct E as [E1 [E2 _]]. repeat split; assumption.
  - do 2 eexists. split; [vm_compute; reflexivity|].
    split; [reflexivity|]. split; reflexivity.
  - do 5 eexists. split; [vm_compute; reflexivity|].
    split; [vm_compute; reflexivity|].
    split; [reflexivity|]. split; reflexivity.
Qed.

Lemma lin_reg_all_sections_last_qualifying_window_witness :
  exists reg,
    lin_reg_all_sections (map (fun p => Some (fst p)) piecewise_points)
                         (map (fun p => Some (snd p)) piecewise_points)
                         (995 # 1000) = Ok reg /\
    linear_limit reg = Some 5%Q /\
    exists s, slope_at_limit reg = Some s /\ (s == 2)%Q.
Proof.
  destruct (proj1 lin_reg_all_sections_last_qualifying_window
              (995 # 1000) piecewise_points) as [reg [E [_ H]]].
  - simpl. lia.
  - exists reg. split; [exact E|].
    destruct (ols (firstn 6 piecewise_points)) as [ft|] eqn:O6;
      [|vm_compute in O6; discriminate].
    assert (R : (995 # 1000 <= r_squared ft)%Q /\ (slope ft == 2)%Q).
    { vm_compute in O6. injection O6 as <-. split; [|reflexivity].
      vm_compute. discriminate. }
    destruct (H 6%nat (5%Q, 10%Q) ft) as [Hl [s [c [Hs [_ [Es _]]]]]].
    + simpl. lia.
    + reflexivity.
    + exact O6.
    + apply R.
    + intros k' ft' [A B] O.
      do 7 (destruct k' as [|k']; [lia|]).
      destruct k' as [|k'];
        [vm_compute in O; injection O as <-; vm_compute;
         intros C; apply C; reflexivity|].
      destruct k' as [|k'];
        [vm_compute in O; injection O as <-; vm_compute;
         intros C; apply C; reflexivity|].
      destruct k' as [|k'];
        [vm_compute in O; injection O as <-; vm_compute;
         intros C; apply C; reflexivity|].
      destruct k' as [|k'];
        [vm_compute in O; injection O as <-; vm_compute;
         intros C; apply C; reflexivity|].
      simpl in B. lia.
    + split; [exact Hl|]. exists s. split; [exact Hs|].
      rewrite Es. apply R.
Defined.

(** * Further properties *)

(** ** Import *)

(** X1: an import mode other than the three that [import_data] compares
    with is rejected with a [ValueError] before the file is opened and
    leaves the store as it is; so does construction with such a mode and a
    valid strain unit. *)
Theorem unknown_import_mode_is_rejected xl d file mode us ust p (h : store) :
  import_filter mode = None ->
  import_data xl file mode h = (h, Err import_mode_error) /\
  (us = "" \/ us = "%" ->
   init xl d file mode us ust p h = (h, Err import_mode_error)).
Proof.
  intros F.
  assert (I : import_data xl file mode h = (h, Err import_mode_error)).
  { unfold import_data. unfold import_filter in F.
    destruct (String.eqb mode "Marc_Stuhlmueller"); [discriminate|].
    destruct (String.eqb mode "Philipp Manglkammer"); [discriminate|].
    destruct (String.eqb mode "Lena_Schunter"); [discriminate|].
    reflexivity. }
  split; [exact I|]. intros U. unfold init.
  erewrite bind_Ok with (a := if String.eqb us "" then 1%Q else 100%Q)
                        (s' := h).
  2:{ destruct U as [->| ->]; reflexivity. }
  cbv beta. erewrite bind_Err by exact I. reflexivity.
Qed.

(** The spelling of the docstring, with u-umlaut, is not the one the code
    compares with. *)
Lemma unknown_import_mode_is_rejected_witness :
  init lab_file derivative "lab.xls" "Marc_Stuhlmüller" "%" "kPa" None ∅ =
  (∅, Err import_mode_error).
Proof.
  apply (unknown_import_mode_is_rejected lab_file derivative "lab.xls"
           "Marc_Stuhlmüller" "%" "kPa" None ∅).
  - reflexivity.
  - right. reflexivity.
Defined.

(** X2: when the file cannot be read, the Marc_Stuhlmueller filter
    swallows the reader's exception, so that construction fails later
    with an [AttributeError] on [raw_original]; the two other filters let
    the reader's exception through.  The store is as before in all three
    cases. *)
Theorem unreadable_file_by_filter xl d file us ust p (h : store) e :
  xl file = Err e ->
  us = "" \/ us = "%" ->
  init xl d file "Marc_Stuhlmueller" us ust p h =
    (h, Err (AttributeError "raw_original")) /\
  init xl d file "Philipp Manglkammer" us ust p h = (h, Err e) /\
  init xl d file "Lena_Schunter" us ust p h = (h, Err e).
Proof.
  intros X U. unfold Err in X.
  assert (S : forall mode,
            init xl d file mode us ust p h =
            bind (import_data xl file mode)
              (fun imported =>
                 match imported with
                 | None => raise (AttributeError "raw_original")
                 | Some (names, raw_original) =>
                     bind (deepcopy raw_original)
                       (fun raw =>
                          bind (for_each raw
                                  (streamline_data_method d p
                                     (if String.eqb us "" then 1%Q
                                      else 100%Q)))
                            (fun _ =>
                               ret (TensileTest us ust p
                                      (if String.eqb us "" then 1%Q
                                       else 100%Q)
                                      (named_results names) file mode
                                      raw_original raw None [] [] [] [] [])))
                 end) h).
  { intros mode. unfold init.
    erewrite bind_Ok with (a := if String.eqb us "" then 1%Q else 100%Q)
                          (s' := h).
    2:{ destruct U as [->| ->]; reflexivity. }
    reflexivity. }
  rewrite !S. unfold bind, import_data. cbn [String.eqb Ascii.eqb Bool.eqb].
  rewrite X. repeat split; reflexivity.
Qed.

Lemma unreadable_file_by_filter_witness :
  init broken_file derivative "lab.xls" "Marc_Stuhlmueller"
       "%" "kPa" None ∅ = (∅, Err (AttributeError "raw_original")) /\
  init broken_file derivative "lab.xls" "Lena_Schunter"
       "%" "kPa" None ∅ = (∅, Err not_a_workbook).
Proof.
  destruct (unreadable_file_by_filter broken_file derivative
              "lab.xls" "%" "kPa" None ∅ not_a_workbook) as [A [_ B]].
  - reflexivity.
  - right. reflexivity.
  - split; [exact A|exact B].
Defined.

(** ** What cleaning does to the rows, whatever its outcome *)

Lemma labels_within_refl f : labels_within f f.
Proof. exists []. rewrite app_nil_r. reflexivity. Qed.

Lemma labels_within_trans f g k :
  labels_within f g -> labels_within g k -> labels_within f k.
Proof.
  intros [l1 P1] [l2 P2]. exists (l2 ++ l1)%list.
  rewrite P1, P2, app_assoc. reflexivity.
Qed.

Lemma shrinks_refl f : shrinks f f.
Proof.
  split; [apply labels_within_refl|]. split; [auto|].
  exists []. rewrite app_nil_r. reflexivity.
Qed.

Lemma shrinks_trans f g k : shrinks f g -> shrinks g k -> shrinks f k.
Proof.
  intros [L1 [W1 [e1 C1]]] [L2 [W2 [e2 C2]]].
  split; [eapply labels_within_trans; eassumption|]. split; [auto|].
  exists (e1 ++ e2)%list. rewrite C2, C1, app_assoc. reflexivity.
Qed.

Lemma keeps_rel_bind {A B} (R : frame -> frame -> Prop)
    (m : mut A) (k : A -> mut B) :
  (forall f g h, R f g -> R g h -> R f h) ->
  keeps_rel R m -> (forall a, keeps_rel R (k a)) -> keeps_rel R (bind m k).
Proof.
  intros T Hm Hk f. unfold bind. specialize (Hm f).
  destruct (m f) as [f1 [e|a]]; simpl in *; [exact Hm|].
  eapply T; [exact Hm|apply Hk].
Qed.

Lemma keeps_rel_read_only {A} (R : frame -> frame -> Prop) (m : mut A) :
  (forall f, R f f) -> read_only m -> keeps_rel R m.
Proof. intros Rf RO f. rewrite RO. apply Rf. Qed.

Lemma filter_split {A} (p : A -> bool) l :
  Permutation l (List.filter p l ++ List.filter (fun x => negb (p x)) l)%list.
Proof.
  induction l as [|a l IH]; simpl; [constructor|].
  destruct (p a); simpl.
  - constructor. exact IH.
  - rewrite <- Permutation_middle. constructor. exact IH.
Qed.

Lemma keep_first_split i rs : forall seen,
  exists dropped, Permutation rs (keep_first i seen rs ++ dropped)%list.
Proof.
  induction rs as [|r rs IH]; intros seen; simpl.
  - exists []. constructor.
  - destruct (existsb (cell_same (get i r)) seen).
    + destruct (IH seen) as [l P]. exists (r :: l).
      rewrite <- Permutation_middle. constructor. exact P.
    + destruct (IH (get i r :: seen)) as [l P]. exists l.
      simpl. constructor. exact P.
Qed.

Lemma insert_row_perm i r rs : Permutation (insert_row i r rs) (r :: rs).
Proof.
  induction rs as [|s rs IH]; simpl; [reflexivity|].
  destruct (key_le (get i r) (get i s)); [reflexivity|].
  rewrite IH. apply perm_swap.
Qed.

Lemma sort_rows_perm i rs : Permutation (sort_rows i rs) rs.
Proof.
  induction rs as [|r rs IH]; simpl; [constructor|].
  rewrite insert_row_perm. constructor. exact IH.
Qed.

Lemma shrinks_rows f rs :
  (exists rest, Permutation (rows f) (rs ++ rest)%list) ->
  (forall r, In r rs -> In r (rows f)) ->
  shrinks f (Frame (columns f) rs).
Proof.
  intros [rest P] I. split; [|split].
  - exists (map label rest). cbn [rows]. rewrite <- map_app.
    apply Permutation_map, P.
  - unfold wf_frame. cbn [rows columns]. intros W.
    rewrite List.Forall_forall in *. intros r Hr. apply W, I, Hr.
  - exists []. cbn [columns]. rewrite app_nil_r. reflexivity.
Qed.

Lemma shrinks_drop_duplicates c : keeps_rel shrinks (drop_duplicates c).
Proof.
  intros f. unfold drop_duplicates, bind, column.
  destruct (col_index c (columns f)) as [i|]; [|apply shrinks_refl].
  cbn. apply shrinks_rows.
  - apply keep_first_split.
  - intros r. apply keep_first_incl.
Qed.

Lemma shrinks_sort_values c : keeps_rel shrinks (sort_values c).
Proof.
  intros f. unfold sort_values, bind, column.
  destruct (col_index c (columns f)) as [i|]; [|apply shrinks_refl].
  cbn. apply shrinks_rows.
  - exists []. rewrite app_nil_r. symmetry. apply sort_rows_perm.
  - intros r. apply sort_rows_In.
Qed.

Lemma shrinks_dropna : keeps_rel shrinks dropna.
Proof.
  intros f. unfold dropna, bind, get_rows. cbn. apply shrinks_rows.
  - eexists. apply filter_split.
  - intros r H. apply List.filter_In in H. apply H.
Qed.

Lemma map_combine_labels (g : row * bool -> row) rs cond :
  (forall r b, label (g (r, b)) = label r) ->
  map label (map g (combine rs cond)) =
  map label (firstn (length cond) rs).
Proof.
  intros G. revert cond.
  induction rs as [|r rs IH]; intros [|b cond]; simpl; try reflexivity.
  rewrite G, IH. reflexivity.
Qed.

Lemma shrinks_where cond : keeps_rel shrinks (where_ cond).
Proof.
  intros f. unfold where_, bind, get_rows, set_rows. cbn.
  split; [|split].
  - exists (map label (skipn (length cond) (rows f))). cbn [rows].
    rewrite map_combine_labels by (intros r []; reflexivity).
    rewrite <- map_app, firstn_skipn. reflexivity.
  - unfold wf_frame. cbn [rows columns]. intros W.
    rewrite List.Forall_forall in *. intros r Hr.
    apply in_map_iff in Hr. destruct Hr as [[r0 b] [<- I]].
    apply in_combine_l in I. specialize (W _ I).
    destruct b; [exact W|]. unfold blank. cbn. rewrite length_map. exact W.
  - exists []. cbn [columns]. rewrite app_nil_r. reflexivity.
Qed.

Lemma map_combine_labels_vals (g : row * cell -> row) rs (vals : list cell) :
  (forall r v, label (g (r, v)) = label r) ->
  length vals = length rs ->
  map label (map g (combine rs vals)) = map label rs.
Proof.
  intros G. revert vals.
  induction rs as [|r rs IH]; intros [|v vals] L; simpl in *;
    try reflexivity; try discriminate.
  rewrite G, IH by lia. reflexivity.
Qed.

Lemma shrinks_assign c vals : keeps_rel shrinks (assign c vals).
Proof.
  intros f. unfold assign.
  destruct (length vals =? length (rows f))%nat eqn:L; cbn [negb];
    [|apply shrinks_refl].
  apply Nat.eqb_eq in L.
  destruct (col_index c (columns f)) as [i|] eqn:C; cbn [fst].
  - split; [|split].
    + exists []. cbn [rows]. rewrite app_nil_r.
      rewrite map_combine_labels_vals by (auto; intros; reflexivity).
      reflexivity.
    + unfold wf_frame. cbn [rows columns]. intros W.
      rewrite List.Forall_forall in *. intros r Hr.
      apply in_map_iff in Hr. destruct Hr as [[r0 v] [<- I]].
      apply in_combine_l in I. specialize (W _ I).
      unfold set. cbn. rewrite length_insert. exact W.
    + exists []. cbn [columns]. rewrite app_nil_r. reflexivity.
  - split; [|split].
    + exists []. cbn [rows]. rewrite app_nil_r.
      rewrite map_combine_labels_vals by (auto; intros; reflexivity).
      reflexivity.
    + unfold wf_frame. cbn [rows columns]. intros W.
      rewrite List.Forall_forall in *. intros r Hr.
      apply in_map_iff in Hr. destruct Hr as [[r0 v] [<- I]].
      apply in_combine_l in I. specialize (W _ I).
      unfold append_cell. cbn. rewrite !length_app, W. reflexivity.
    + exists [c]. reflexivity.
Qed.

Lemma read_only_iloc0 c : read_only (iloc0 c).
Proof.
  intros f. unfold iloc0, bind, column, get_rows.
  destruct (col_index c (columns f)); [|reflexivity].
  destruct (rows f); reflexivity.
Qed.

Lemma shrinks_streamline_data d p scf :
  keeps_rel shrinks (streamline_data d p scf).
Proof.
  pose proof shrinks_trans as T.
  pose proof shrinks_refl as R.
  unfold streamline_data.
  apply keeps_rel_bind; [exact T|apply shrinks_drop_duplicates|intros _].
  apply keeps_rel_bind; [exact T|apply shrinks_sort_values|intros _].
  destruct p as [p|]; [|apply shrinks_dropna].
  apply keeps_rel_bind;
    [exact T|apply keeps_rel_read_only; [exact R|apply read_only_column]|intros j].
  apply keeps_rel_bind;
    [exact T|apply keeps_rel_read_only; [exact R|apply read_only_get_rows]|intros rs].
  apply keeps_rel_bind; [exact T|apply shrinks_where|intros _].
  apply keeps_rel_bind; [exact T|apply shrinks_dropna|intros _].
  apply keeps_rel_bind;
    [exact T|apply keeps_rel_read_only; [exact R|apply read_only_iloc0]|intros h0].
  apply keeps_rel_bind;
    [exact T|apply keeps_rel_read_only; [exact R|apply read_only_column]|intros t].
  apply keeps_rel_bind;
    [exact T|apply keeps_rel_read_only; [exact R|apply read_only_get_rows]|intros rs2].
  apply keeps_rel_bind; [exact T|apply shrinks_assign|intros _].
  apply keeps_rel_bind;
    [exact T|apply keeps_rel_read_only; [exact R|apply read_only_column]|intros i].
  apply keeps_rel_bind;
    [exact T|apply keeps_rel_read_only; [exact R|apply read_only_column]|intros j2].
  apply keeps_rel_bind;
    [exact T|apply keeps_rel_read_only; [exact R|apply read_only_get_rows]|intros rs3].
  apply shrinks_assign.
Qed.

(** X3: whatever [streamline_data] does to a sample, with or without a
    preload and whether it returns or raises half-way, the sample it leaves
    behind has only index labels of the sample it was given, none more often
    than before; so it has no more rows, distinct labels stay distinct, a
    rectangular frame stays rectangular, and the columns it had are still
    there in the same order, with new ones only after them. *)
Theorem streamline_data_only_removes_rows d p scf f :
  let g := fst (streamline_data d p scf f) in
  incl (map label (rows g)) (map label (rows f)) /\
  (length (rows g) <= length (rows f))%nat /\
  (List.NoDup (map label (rows f)) -> List.NoDup (map label (rows g))) /\
  (wf_frame f -> wf_frame g) /\
  exists extra, columns g = (columns f ++ extra)%list.
Proof.
  cbv zeta.
  destruct (shrinks_streamline_data d p scf f) as [[rest P] [W E]].
  split; [|split; [|split; [|split]]].
  - intros l Hl. eapply Permutation_in; [symmetry; exact P|].
    apply in_or_app. left. exact Hl.
  - apply Permutation_length in P.
    rewrite length_app, !length_map in P. lia.
  - intros N. eapply Permutation_NoDup in N; [|exact P].
    eapply NoDup_app_remove_r. exact N.
  - exact W.
  - exact E.
Qed.

(** ** Missing columns *)

Lemma streamline_data_no_strain d p scf f :
  col_index "strain" (columns f) = None ->
  streamline_data d p scf f = (f, Err (KeyError "strain")).
Proof.
  intros H. unfold streamline_data.
  apply bind_Err. unfold drop_duplicates. apply bind_Err.
  unfold column. rewrite H. reflexivity.
Qed.

Lemma streamline_data_no_stress d p scf f i :
  col_index "strain" (columns f) = Some i ->
  col_index "stress" (columns f) = None ->
  streamline_data d (Some p) scf f =
  (Frame (columns f) (sort_rows i (keep_first i [] (rows f))),
   Err (KeyError "stress")).
Proof.
  intros Hi Hj. unfold streamline_data.
  erewrite bind_Ok by (apply drop_duplicates_Ok, Hi).
  erewrite bind_Ok by (apply sort_values_Ok, Hi).
  apply bind_Err. unfold column. cbn [columns]. rewrite Hj. reflexivity.
Qed.

Lemma streamline_data_no_tool_distance d p scf f i j :
  wf_frame f ->
  col_index "strain" (columns f) = Some i ->
  col_index "stress" (columns f) = Some j ->
  col_index "tool_distance" (columns f) = None ->
  streamline_data d (Some p) scf f =
  (Frame (columns f) (kept_rows i j p (rows f)),
   Err (KeyError "tool_distance")).
Proof.
  intros W Hi Hj Ht. unfold streamline_data.
  erewrite bind_Ok by (apply drop_duplicates_Ok, Hi).
  erewrite bind_Ok by (apply sort_values_Ok, Hi).
  erewrite bind_Ok by (apply column_Ok, Hj).
  erewrite bind_Ok by reflexivity.
  cbn [rows columns].
  erewrite bind_Ok.
  2:{ apply (where_Ok (fun r => cell_ge (get j r) (Some p))). }
  erewrite bind_Ok by reflexivity.
  cbn [rows columns].
  rewrite filter_where_dropna.
  2:{ apply List.Forall_forall. intros r Hr.
      apply sort_rows_In in Hr. apply keep_first_incl in Hr.
      pose proof (wf_nonempty f i _ W Hi) as N.
      rewrite List.Forall_forall in N. apply N, Hr. }
  fold (kept_rows i j p (rows f)).
  apply bind_Err. unfold iloc0. apply bind_Err.
  unfold column. cbn [columns]. rewrite Ht. reflexivity.
Qed.

(** X4: a sample that lacks a column the cleaning reads.  Without a
    'strain' column [streamline_data] raises KeyError at its first
    statement and the sample is untouched.  With a preload, a missing
    'stress' column is noticed only after the sample has been
    de-duplicated and sorted, and a missing 'tool_distance' column only
    after the rows below the preload and the incomplete rows have been
    removed as well: the caller's DataFrame stays in that state. *)
Theorem streamline_data_missing_column d p scf f i :
  wf_frame f ->
  col_index "strain" (columns f) = Some i ->
  col_index "tool_distance" (columns f) = None ->
  (forall g q, col_index "strain" (columns g) = None ->
     streamline_data d q scf g = (g, Err (KeyError "strain"))) /\
  (col_index "stress" (columns f) = None ->
     streamline_data d (Some p) scf f =
     (Frame (columns f) (sort_rows i (keep_first i [] (rows f))),
      Err (KeyError "stress"))) /\
  (forall j, col_index "stress" (columns f) = Some j ->
     streamline_data d (Some p) scf f =
     (Frame (columns f) (kept_rows i j p (rows f)),
      Err (KeyError "tool_distance"))).
Proof.
  intros W Hi Ht. split; [|split].
  - intros g q. apply streamline_data_no_strain.
  - apply streamline_data_no_stress, Hi.
  - intros j Hj. apply streamline_data_no_tool_distance; assumption.
Qed.

Lemma streamline_data_missing_column_witness :
  streamline_data derivative (Some 7%Q) 100 messy_sample =
  (Frame ["strain"; "Standardkraft"; "stress"]
         [Row 4 [num 3; num 6; num 12]],
   Err (KeyError "tool_distance")).
Proof.
  assert (W : wf_frame messy_sample).
  { unfold wf_frame. repeat constructor. }
  destruct (streamline_data_missing_column derivative 7%Q 100 messy_sample
              0%nat W eq_refl eq_refl) as [_ [_ T]].
  rewrite (T 2%nat eq_refl). vm_compute. reflexivity.
Defined.

(** ** A preload with the filters that read no tool distance *)

Lemma import_filter_columns mode cols k :
  import_filter mode = Some (cols, k) ->
  col_index "tool_distance" cols = None ->
  exists i j, col_index "strain" cols = Some i /\
              col_index "stress" cols = Some j.
Proof.
  unfold import_filter. intros F T.
  destruct (String.eqb mode "Marc_Stuhlmueller").
  { injection F as <- <-. exists 0%nat, 2%nat. split; reflexivity. }
  destruct (String.eqb mode "Philipp Manglkammer").
  { injection F as <- <-. exists 1%nat, 0%nat. split; reflexivity. }
  destruct (String.eqb mode "Lena_Schunter"); [|discriminate].
  injection F as <- <-. discriminate.
Qed.

(** X5: the preload needs the tool distance, which only the Lena_Schunter
    filter reads.  With the Marc_Stuhlmueller or the Philipp Manglkammer
    filter, a preload and a workbook that has at least one sample sheet,
    the construction fails with KeyError 'tool_distance', whatever the
    data are. *)
Theorem preload_needs_tool_distance xl d file mode us ust p (h : store)
    wb cols k :
  us = "" \/ us = "%" ->
  xl file = Ok wb ->
  import_filter mode = Some (cols, k) ->
  col_index "tool_distance" cols = None ->
  (k < length wb)%nat ->
  snd (init xl d file mode us ust (Some p) h) =
  Err (KeyError "tool_distance").
Proof.
  intros U X F T K.
  destruct (import_data_Ok xl file mode h wb cols k X F)
    as [h1 [ro [I [Ho S1]]]].
  destruct (deepcopy_spec ro h1 _ Ho) as [h2 [ws [C [Hc [S2 [D _]]]]]].
  destruct (import_filter_columns mode cols k F T) as [i [j [Hi Hj]]].
  assert (scf_ex : exists scf,
    (if String.eqb us "" then ret 1%Q
     else if String.eqb us "%" then ret 100%Q
     else raise unit_strain_error) h = (h, Ok scf)).
  { destruct U as [->| ->]; eexists; reflexivity. }
  destruct scf_ex as [scf Hs].
  assert (A : forall f, In f (imported_frames cols k wb) ->
    snd (streamline_data d (Some p) scf f) = Err (KeyError "tool_distance")).
  { intros f If. unfold imported_frames in If.
    apply in_map_iff in If. destruct If as [sh [<- _]].
    erewrite streamline_data_no_tool_distance;
      [reflexivity|apply parse_wf|exact Hi|exact Hj|exact T]. }
  assert (All : Forall (fun f =>
            snd (streamline_data d (Some p) scf f) = Ok tt \/
            snd (streamline_data d (Some p) scf f) =
              Err (KeyError "tool_distance")) (imported_frames cols k wb)).
  { apply List.Forall_forall. intros f If. right. apply A, If. }
  assert (One : Exists (fun f =>
            snd (streamline_data d (Some p) scf f) =
              Err (KeyError "tool_distance")) (imported_frames cols k wb)).
  { apply Exists_exists. unfold imported_frames in *.
    destruct (skipn k wb) as [|sh rest] eqn:Sk.
    - apply (f_equal (@length _)) in Sk. rewrite length_skipn in Sk.
      simpl in Sk. lia.
    - eexists. split; [left; reflexivity|]. apply A. left. reflexivity. }
  pose proof (streamline_loop_Err d (Some p) scf (KeyError "tool_distance")
                ws h2 _ D Hc All One) as L.
  unfold init.
  erewrite bind_Ok by exact Hs.
  cbv beta. erewrite bind_Ok by exact I. cbv beta iota.
  erewrite bind_Ok by exact C.
  unfold bind at 1.
  destruct (for_each ws (streamline_data_method d (Some p) scf) h2)
    as [h3 [e|out]]; cbn [snd] in *; unfold Err in *.
  - injection L as ->. reflexivity.
  - discriminate L.
Qed.

Lemma preload_needs_tool_distance_witness :
  snd (init lab_file derivative "lab.xls" "Philipp Manglkammer" "%" "kPa"
            (Some 1%Q) ∅) = Err (KeyError "tool_distance").
Proof.
  apply (preload_needs_tool_distance lab_file derivative "lab.xls"
           "Philipp Manglkammer" "%" "kPa" 1%Q ∅ lab_workbook
           ["stress"; "strain"] 3%nat).
  - right. reflexivity.
  - reflexivity.
  - reflexivity.
  - reflexivity.
  - simpl. lia.
Defined.

(** ** Which rows survive the cleaning *)

Lemma cell_same_trans_false a b s :
  cell_same a s = true -> cell_same b s = false -> cell_same a b = false.
Proof.
  destruct a as [x|], b as [y|], s as [z|]; simpl; try congruence.
  intros A B. destruct (Qeq_bool x y) eqn:E; [|reflexivity].
  apply Qeq_bool_iff in A, E. apply Qeq_bool_neq in B.
  exfalso. apply B. rewrite <- E. exact A.
Qed.

Lemma existsb_same_false a b seen :
  existsb (cell_same a) seen = true ->
  existsb (cell_same b) seen = false ->
  cell_same a b = false.
Proof.
  intros A B. apply existsb_exists in A. destruct A as [s [Is As]].
  eapply cell_same_trans_false; [exact As|].
  destruct (cell_same b s) eqn:E; [|reflexivity].
  assert (existsb (cell_same b) seen = true) as C
    by (apply existsb_exists; exists s; split; assumption).
  congruence.
Qed.

Lemma keep_first_iff i rs : forall seen r,
  In r (keep_first i seen rs) <->
  exists k, nth_error rs k = Some r /\
            existsb (cell_same (get i r)) seen = false /\
            forall k' r', (k' < k)%nat -> nth_error rs k' = Some r' ->
                          cell_same (get i r') (get i r) = false.
Proof.
  induction rs as [|a rs IH]; intros seen r; simpl.
  - split; [tauto|]. intros [[|k] [E _]]; discriminate.
  - destruct (existsb (cell_same (get i a)) seen) eqn:Sa.
    + rewrite IH. split.
      * intros [k [E [Sr P]]]. exists (S k). split; [exact E|].
        split; [exact Sr|]. intros [|k'] r' Lt E'; simpl in E'.
        -- injection E' as <-. eapply existsb_same_false; eassumption.
        -- apply (P k'); [lia|exact E'].
      * intros [[|k] [E [Sr P]]]; simpl in E.
        -- injection E as <-. congruence.
        -- exists k. split; [exact E|]. split; [exact Sr|].
           intros k' r' Lt E'. apply (P (S k')); [lia|exact E'].
    + simpl. rewrite IH. split.
      * intros [<-|[k [E [Sr P]]]].
        -- exists 0%nat. split; [reflexivity|]. split; [exact Sa|].
           intros k' r' Lt. lia.
        -- simpl in Sr. apply orb_false_iff in Sr. destruct Sr as [Sr1 Sr2].
           exists (S k). split; [exact E|]. split; [exact Sr2|].
           intros [|k'] r' Lt E'; simpl in E'.
           ++ injection E' as <-. rewrite cell_same_sym. exact Sr1.
           ++ apply (P k'); [lia|exact E'].
      * intros [[|k] [E [Sr P]]]; simpl in E.
        -- injection E as <-. left. reflexivity.
        -- right. exists k. split; [exact E|]. split.
           ++ simpl. apply orb_false_iff. split; [|exact Sr].
              rewrite cell_same_sym. apply (P 0%nat); [lia|reflexivity].
           ++ intros k' r' Lt E'. apply (P (S k')); [lia|exact E'].
Qed.

(** X6: which rows the cleaning without preload keeps.  A row is in the
    cleaned sample exactly when it has no missing cell and no earlier row
    of the file has the same strain.  Duplicates are removed before
    incomplete rows are: a row that is the first with its strain but
    lacks a value takes every later row with that strain out with it. *)
Theorem streamline_data_keeps_first_complete_rows d scf f i :
  col_index "strain" (columns f) = Some i ->
  forall r,
    In r (rows (fst (streamline_data d None scf f))) <->
    complete r = true /\
    exists k, nth_error (rows f) k = Some r /\
              forall k' r', (k' < k)%nat -> nth_error (rows f) k' = Some r' ->
                            cell_same (get i r') (get i r) = false.
Proof.
  intros Hi r. rewrite (streamline_data_None_eq d scf f i Hi).
  cbn [fst rows]. rewrite List.filter_In, sort_rows_In, keep_first_iff.
  split.
  - intros [[k [E [_ P]]] C]. split; [exact C|]. exists k. split; assumption.
  - intros [C [k [E P]]]. split; [|exact C]. exists k.
    split; [exact E|]. split; [reflexivity|exact P].
Qed.

Lemma streamline_data_keeps_first_complete_rows_witness :
  In (Row 1 [num 0; num 1; num 2])
     (rows (fst (streamline_data derivative None 100 messy_sample))) /\
  ~ In (Row 2 [num 1; num 4; num 8])
       (rows (fst (streamline_data derivative None 100 messy_sample))).
Proof.
  pose proof (streamline_data_keeps_first_complete_rows derivative 100
                messy_sample 0%nat eq_refl) as T.
  split.
  - apply T. split; [reflexivity|]. exists 1%nat. split; [reflexivity|].
    intros [|k'] r' Lt E; [|lia]. injection E as <-. reflexivity.
  - intros I. apply T in I. destruct I as [_ [k [E P]]].
    destruct k as [|[|[|k]]]; try discriminate E.
    + specialize (P 0%nat _ ltac:(lia) eq_refl). discriminate P.
    + simpl in E. destruct k as [|[|k]]; try discriminate E.
      destruct k; discriminate E.
Defined.

(** ** The strain after rebasing *)

Lemma streamlined_strain_column d scf cols i j t h_0 kept :
  (forall xs ys, length (d xs ys) = length xs) ->
  Forall (fun r => length (cells r) = length cols) kept ->
  (i < length cols)%nat ->
  column_values i (rows (streamlined d scf i j t h_0 cols kept)) =
  map (rebased_strain scf t h_0) kept.
Proof.
  intros Hlen Hw Li. unfold streamlined. cbn [rows].
  set (rebased := map (fun r => set i (rebased_strain scf t h_0 r) r) kept).
  assert (Wr : Forall (fun r => length (cells r) = length cols) rebased)
    by apply widths_set, Hw.
  rewrite column_values_append_lt.
  - apply column_values_set_eq. eapply List.Forall_impl; [|exact Hw].
    simpl. intros r ->. exact Li.
  - rewrite Hlen. unfold column_values. apply length_map.
  - eapply List.Forall_impl; [|exact Wr]. simpl. intros r ->. exact Li.
Qed.

Lemma rebased_sign (h td scf : Q) :
  (0 < h)%Q -> (0 < scf)%Q ->
  let s := ((h - td) / h * scf)%Q in
  ((0 < s)%Q <-> (td < h)%Q) /\ ((s == 0)%Q <-> (td == h)%Q).
Proof.
  intros Hh Hs s.
  assert (Nh : ~ (h == 0)%Q) by (intros E; rewrite E in Hh; discriminate).
  assert (Hc : (0 < scf / h)%Q).
  { apply Qlt_shift_div_l; [exact Hh|]. rewrite Qmult_0_l. exact Hs. }
  assert (Es : (s == (h - td) * (scf / h))%Q) by (unfold s; field; exact Nh).
  split; split.
  - intros P. rewrite Es in P.
    destruct (Qlt_le_dec td h) as [L|G]; [exact L|].
    exfalso. apply (Qlt_not_le _ _ P).
    assert (Z0 : (0 == 0 * (scf / h))%Q) by ring.
    rewrite Z0.
    apply Qmult_le_compat_r; [|apply Qlt_le_weak, Hc].
    apply (Qplus_le_l _ _ td). ring_simplify. exact G.
  - intros L. rewrite Es. apply Qmult_lt_0_compat; [|exact Hc].
    apply (Qplus_lt_l _ _ td). ring_simplify. exact L.
  - intros Z. rewrite Es in Z. apply Qmult_integral in Z.
    destruct Z as [Z|Z].
    + apply (Qplus_inj_r _ _ (- td)). rewrite Qplus_opp_r.
      symmetry. exact Z.
    + rewrite Z in Hc. discriminate.
  - intros E. rewrite Es, E. ring.
Qed.

(** X7: the strain that a preload defines.  The tool distance [h_0] of
    the first row that remains is the reference: for [h_0 > 0] and a
    positive conversion factor, the new strain of a remaining row is zero
    exactly when its tool distance equals [h_0], and positive exactly when
    its tool distance is smaller than [h_0]; in particular the first
    remaining row has strain zero. *)
Theorem rebased_strain_is_relative_to_first_row d p scf f i j t r0 kept' :
  wf_frame f ->
  col_index "strain" (columns f) = Some i ->
  col_index "stress" (columns f) = Some j ->
  col_index "tool_distance" (columns f) = Some t ->
  col_index "deriv" (columns f) = None ->
  (forall xs ys, length (d xs ys) = length xs) ->
  kept_rows i j p (rows f) = r0 :: kept' ->
  (0 < scf)%Q ->
  exists g h_0,
    streamline_data d (Some p) scf f = (g, Ok tt) /\
    get t r0 = Some h_0 /\
    ((0 < h_0)%Q ->
     (exists s0 rest,
        column_values i (rows g) = Some s0 :: rest /\ (s0 == 0)%Q) /\
     forall k r,
       nth_error (r0 :: kept') k = Some r ->
       exists td s,
         get t r = Some td /\
         nth_error (column_values i (rows g)) k = Some (Some s) /\
         ((0 < s)%Q <-> (td < h_0)%Q) /\ ((s == 0)%Q <-> (td == h_0)%Q)).
Proof.
  intros W Hi Hj Ht Hd Hlen Hk Hs.
  assert (Hin : forall r, In r (r0 :: kept') ->
            In r (rows f) /\ complete r = true).
  { intros r Hr. rewrite <- Hk in Hr. apply kept_rows_In in Hr.
    destruct Hr as [Hr [C _]]. split; [|exact C].
    apply sort_rows_In in Hr. eapply keep_first_incl, Hr. }
  assert (Hw : Forall (fun r => length (cells r) = length (columns f))
                      (r0 :: kept')).
  { apply List.Forall_forall. intros r Hr. apply Hin in Hr.
    unfold wf_frame in W. rewrite List.Forall_forall in W. apply W, Hr. }
  pose proof (col_index_lt _ _ _ Hi) as Li.
  pose proof (col_index_lt _ _ _ Ht) as Lt.
  assert (Hnum : forall r, In r (r0 :: kept') ->
            exists td, get t r = Some td).
  { intros r Hr.
    assert (N : is_number (get t r) = true).
    { apply complete_get; [apply Hin, Hr|].
      rewrite List.Forall_forall in Hw. rewrite (Hw r Hr). exact Lt. }
    destruct (get t r) as [td|]; [exists td; reflexivity|discriminate]. }
  destruct (Hnum r0 (or_introl eq_refl)) as [h_0 Eh].
  exists (streamlined d scf i j t (Some h_0) (columns f) (r0 :: kept')), h_0.
  split.
  { rewrite (streamline_data_Some_eq d p scf f i j t r0 kept')
      by assumption.
    rewrite Eh. reflexivity. }
  split; [exact Eh|]. intros Hh.
  assert (Nh : ~ (h_0 == 0)%Q) by (intros E; rewrite E in Hh; discriminate).
  rewrite streamlined_strain_column by assumption.
  assert (Each : forall k r,
    nth_error (r0 :: kept') k = Some r ->
    exists td s,
      get t r = Some td /\
      nth_error (map (rebased_strain scf t (Some h_0)) (r0 :: kept')) k =
        Some (Some s) /\
      ((0 < s)%Q <-> (td < h_0)%Q) /\ ((s == 0)%Q <-> (td == h_0)%Q)).
  { intros k r E.
    destruct (Hnum r (nth_error_In _ _ E)) as [td Etd].
    exists td, ((h_0 - td) / h_0 * scf)%Q. split; [exact Etd|]. split.
    - rewrite nth_error_map, E. cbn [option_map].
      rewrite (rebased_strain_value scf t h_0 td r Etd Nh). reflexivity.
    - apply rebased_sign; assumption. }
  split; [|exact Each].
  destruct (Each 0%nat r0 eq_refl) as [td [s [Etd [En [_ Z]]]]].
  rewrite Eh in Etd. injection Etd as <-.
  simpl in En. injection En as En.
  exists s, (map (rebased_strain scf t (Some h_0)) kept').
  split; [simpl; rewrite En; reflexivity|]. apply Z. reflexivity.
Qed.

Lemma rebased_strain_is_relative_to_first_row_witness :
  exists g s0 rest,
    streamline_data derivative (Some 6%Q) 100 tension_sample = (g, Ok tt) /\
    column_values 1 (rows g) = Some s0 :: rest /\ (s0 == 0)%Q.
Proof.
  destruct (rebased_strain_is_relative_to_first_row derivative 6 100
              tension_sample 1 2 0
              (Row 1 [num 11; num 10; num 6])
              [Row 2 [num 12; num 20; num 7]])
    as [g [h_0 [E [H K]]]].
  - repeat constructor.
  - reflexivity.
  - reflexivity.
  - reflexivity.
  - reflexivity.
  - apply derivative_length.
  - reflexivity.
  - reflexivity.
  - injection H as <-.
    destruct K as [[s0 [rest [C Z]]] _]; [reflexivity|].
    exists g, s0, rest. split; [exact E|]. split; [exact C|exact Z].
Defined.

(** ** Strain limits that overlap *)

Lemma second_drop_check (low high : row -> bool) rs :
  List.NoDup (map label rs) ->
  forallb (fun l => mem_label l
                      (map label (List.filter (fun r => negb (low r)) rs)))
          (index_where high rs) =
  negb (existsb (fun r => low r && high r) rs).
Proof.
  intros D.
  assert (M : forall r, In r rs ->
    mem_label (label r)
              (map label (List.filter (fun r => negb (low r)) rs)) =
    negb (low r)).
  { intros r I.
    apply (mem_label_index_where (fun r => negb (low r)) rs r D I). }
  apply eq_true_iff_eq.
  rewrite forallb_forall, negb_true_iff. split.
  - intros A. destruct (existsb _ rs) eqn:E; [|reflexivity].
    apply existsb_exists in E. destruct E as [r [I B]].
    apply andb_true_iff in B. destruct B as [Bl Bh].
    specialize (A (label r)). rewrite (M r I), Bl in A.
    symmetry. apply A.
    unfold index_where. apply in_map, List.filter_In. split; assumption.
  - intros E l I. unfold index_where in I. apply in_map_iff in I.
    destruct I as [r [<- I]]. apply List.filter_In in I.
    destruct I as [I Bh]. rewrite (M r I).
    destruct (low r) eqn:Bl; [|reflexivity].
    exfalso.
    assert (existsb (fun r => low r && high r) rs = true) as C.
    { apply existsb_exists. exists r. split; [exact I|].
      rewrite Bl, Bh. reflexivity. }
    congruence.
Qed.

Lemma crop_cases lower upper f i :
  col_index "strain" (columns f) = Some i ->
  List.NoDup (map label (rows f)) ->
  crop lower upper f =
  if existsb (fun r => cell_le (get i r) (Some lower) &&
                       cell_ge (get i r) (Some upper)) (rows f)
  then (Frame (columns f)
              (List.filter
                 (fun r => negb (cell_le (get i r) (Some lower))) (rows f)),
        Err (KeyError "not found in axis"))
  else (Frame (columns f)
              (relabel 0
                 (List.filter (in_strain_range i lower upper) (rows f))),
        Ok tt).
Proof.
  intros Hi D. unfold crop.
  erewrite bind_Ok by (apply column_Ok, Hi).
  erewrite bind_Ok by reflexivity.
  erewrite bind_Ok by (apply column_Ok, Hi).
  erewrite bind_Ok by reflexivity.
  erewrite bind_Ok.
  2:{ apply drop_Ok. intros l I. unfold index_where in I.
      apply in_map_iff in I. destruct I as [r [<- I]].
      apply List.filter_In in I. apply in_map. apply I. }
  set (low := fun r => cell_le (get i r) (Some lower)).
  set (high := fun r => cell_ge (get i r) (Some upper)).
  assert (F1 : List.filter
                 (fun r => negb (mem_label (label r) (index_where low (rows f))))
                 (rows f) =
               List.filter (fun r => negb (low r)) (rows f)).
  { apply filter_ext_In. intros r I.
    rewrite mem_label_index_where by assumption. reflexivity. }
  rewrite F1.
  pose proof (second_drop_check low high (rows f) D) as Chk.
  change (existsb (fun r => cell_le (get i r) (Some lower) &&
                            cell_ge (get i r) (Some upper)) (rows f))
    with (existsb (fun r => low r && high r) (rows f)).
  destruct (existsb (fun r => low r && high r) (rows f)) eqn:E;
    cbn [negb] in Chk.
  - apply bind_Err. unfold drop. cbn [rows columns]. rewrite Chk.
    reflexivity.
  - erewrite bind_Ok.
    2:{ unfold drop. cbn [rows columns]. rewrite Chk. reflexivity. }
    cbn [rows columns]. unfold reset_index.
    erewrite bind_Ok by reflexivity. unfold set_rows. cbn [rows columns].
    f_equal. f_equal. f_equal.
    rewrite filter_filter_andb. apply filter_ext_In. intros r I.
    rewrite mem_label_index_where by assumption. reflexivity.
Qed.

(** X8: strain limits that overlap.  The labels to drop for both limits
    are taken before any row is dropped, so a row whose strain lies in
    [upper_strain_limit, lower_strain_limit] is dropped for the lower limit
    and then missed by the second drop: the crop raises KeyError, with the
    copy left in the state after the first drop and the sample itself
    untouched, and the regression of the sample fails with that error.
    When no row lies there, the crop returns; if the limits overlap, the
    rows it returns have no strain value at all. *)
Theorem crop_with_overlapping_limits lower upper f i :
  col_index "strain" (columns f) = Some i ->
  List.NoDup (map label (rows f)) ->
  ((exists r x, In r (rows f) /\ get i r = Some x /\
                (upper <= x)%Q /\ (x <= lower)%Q) ->
   crop lower upper f =
     (Frame (columns f)
            (List.filter
               (fun r => negb (cell_le (get i r) (Some lower))) (rows f)),
      Err (KeyError "not found in axis")) /\
   forall lr scf tau sample (h : store),
     h !! sample = Some f ->
     snd (regress_sample lr scf tau lower upper sample h) =
       Err (KeyError "not found in axis") /\
     fst (regress_sample lr scf tau lower upper sample h) !! sample =
       Some f) /\
  (~ (exists r x, In r (rows f) /\ get i r = Some x /\
                  (upper <= x)%Q /\ (x <= lower)%Q) ->
   crop lower upper f =
     (Frame (columns f)
            (relabel 0
               (List.filter (in_strain_range i lower upper) (rows f))),
      Ok tt) /\
   ((upper <= lower)%Q ->
    forall r, In r (List.filter (in_strain_range i lower upper) (rows f)) ->
              get i r = NaN)).
Proof.
  intros Hi D.
  pose proof (crop_cases lower upper f i Hi D) as C.
  assert (Ex : existsb (fun r => cell_le (get i r) (Some lower) &&
                                 cell_ge (get i r) (Some upper)) (rows f)
               = true <->
               exists r x, In r (rows f) /\ get i r = Some x /\
                           (upper <= x)%Q /\ (x <= lower)%Q).
  { rewrite existsb_exists. split.
    - intros [r [I B]]. apply andb_true_iff in B. destruct B as [Bl Bh].
      unfold cell_ge, cell_le in Bl, Bh.
      destruct (get i r) as [x|] eqn:G; [|discriminate].
      apply Qle_bool_iff in Bl, Bh. exists r, x. auto.
    - intros [r [x [I [G [U L]]]]]. exists r. split; [exact I|].
      unfold cell_ge, cell_le. rewrite G.
      apply andb_true_iff. split; apply Qle_bool_iff; assumption. }
  split.
  - intros H. apply Ex in H. rewrite H in C. split; [exact C|].
    intros lr scf tau sample h Hs. unfold regress_sample.
    erewrite bind_Ok by (apply copy_eq, Hs).
    assert (Hl : <[fresh (dom h) := f]> h !! fresh (dom h) = Some f)
      by apply lookup_insert_eq.
    erewrite bind_Err by (eapply in_place_eq; [exact Hl|exact C]).
    cbn [fst snd]. split; [reflexivity|].
    rewrite insert_insert_eq.
    rewrite lookup_insert_ne; [exact Hs|].
    intros E. pose proof (fresh_unbound h) as U. rewrite E in U. congruence.
  - intros H.
    destruct (existsb _ (rows f)) eqn:E.
    { exfalso. apply H, Ex. reflexivity. }
    split; [exact C|]. intros UL r I.
    apply List.filter_In in I. destruct I as [I R].
    destruct (get i r) as [x|] eqn:G; [|reflexivity].
    exfalso. apply (in_strain_range_iff i lower upper r x G) in R.
    destruct R as [A B].
    apply (Qlt_irrefl x). eapply Qlt_le_trans; [exact B|].
    eapply Qle_trans; [exact UL|]. apply Qlt_le_weak, A.
Qed.

Lemma crop_with_overlapping_limits_witness :
  crop 1 1 toughness_sample =
  (Frame ["strain"; "stress"] [Row 2 [num 2; num 20]],
   Err (KeyError "not found in axis")).
Proof.
  destruct (crop_with_overlapping_limits 1 1 toughness_sample 0%nat)
    as [A _].
  - reflexivity.
  - repeat constructor; simpl; intuition discriminate.
  - destruct A as [A _]; [|rewrite A; reflexivity].
    exists (Row 1 [num 1; num 10]), 1%Q.
    split; [right; left; reflexivity|].
    split; [reflexivity|]. split; discriminate.
Defined.

(** ** The cropped curve *)










(** ** An object after construction *)







Lemma checked_column_Ok {S} t vals (s : S) :
  length vals = length (name t) ->
  checked_column t vals s = (s, Ok vals).
Proof. intros E. unfold checked_column. rewrite E, Nat.eqb_refl. reflexivity. Qed.

Lemma Forall2_length_eq {A B} (R : A -> B -> Prop) l l' :
  Forall2 R l l' -> length l = length l'.
Proof. induction 1; simpl; congruence. Qed.







(** ** A workbook without sample sheets *)

(** X12: a workbook that has only the leading sheets which the import
    filter skips.  The construction succeeds, with or without preload,
    creates no object, and gives an object without samples and with an
    empty results table; all four evaluations return on it, with empty
    lists. *)
Theorem workbook_without_sample_sheets xl d sm lr file mode us ust p
    (h : store) wb cols k tau lower upper smooth kw :
  us = "" \/ us = "%" ->
  xl file = Ok wb ->
  import_filter mode = Some (cols, k) ->
  (length wb <= k)%nat ->
  exists self,
    init xl d file mode us ust p h = (h, Ok self) /\
    raw self = [] /\ raw_original self = [] /\
    name (results self) = [] /\
    (exists self', calc_strength self h = (h, Ok (self', []))) /\
    (exists self', calc_toughness self h = (h, Ok (self', []))) /\
    (exists self', calc_elongation_at_break self h = (h, Ok (self', []))) /\
    (exists self',
       calc_e_modulus sm lr self tau lower upper smooth kw h =
         (h, Ok self') /\
       e_modulus_title (results self') = [] /\
       raw_processed self' = [] /\ raw_processed_cropped self' = []).
Proof.
  intros U X F K.
  assert (I : import_data xl file mode h = (h, Ok (Some ([], [])))).
  { unfold import_filter in F. unfold import_data.
    destruct (String.eqb mode "Marc_Stuhlmueller").
    { injection F as <- <-. rewrite X. unfold Ok.
      rewrite skipn_all2 by exact K. reflexivity. }
    destruct (String.eqb mode "Philipp Manglkammer").
    { injection F as <- <-. rewrite X. unfold Ok.
      rewrite skipn_all2 by exact K. reflexivity. }
    destruct (String.eqb mode "Lena_Schunter"); [|discriminate].
    injection F as <- <-. rewrite X. unfold Ok.
    rewrite skipn_all2 by exact K. reflexivity. }
  assert (E : exists scf,
    init xl d file mode us ust p h =
    (h, Ok (TensileTest us ust p scf (named_results []) file mode [] []
              None [] [] [] [] []))).
  { unfold init. destruct U as [->| ->]; eexists.
    - erewrite bind_Ok by reflexivity. cbv beta.
      erewrite bind_Ok by exact I. reflexivity.
    - erewrite bind_Ok by reflexivity. cbv beta.
      erewrite bind_Ok by exact I. reflexivity. }
  destruct E as [scf E]. eexists. split; [exact E|].
  cbn [raw raw_original results name named_results map].
  split; [reflexivity|]. split; [reflexivity|]. split; [reflexivity|].
  split.
  { eexists. unfold calc_strength. cbn [raw for_each].
    erewrite bind_Ok by reflexivity. erewrite bind_Ok by reflexivity.
    reflexivity. }
  split.
  { eexists. unfold calc_toughness. cbn [raw for_each].
    erewrite bind_Ok by reflexivity. erewrite bind_Ok by reflexivity.
    reflexivity. }
  split.
  { eexists. unfold calc_elongation_at_break. cbn [raw for_each].
    erewrite bind_Ok by reflexivity. erewrite bind_Ok by reflexivity.
    reflexivity. }
  eexists. split.
  { unfold calc_e_modulus. cbn [raw for_each].
    erewrite bind_Ok by reflexivity. cbn [for_each].
    erewrite bind_Ok by reflexivity. cbv zeta. cbn [map].
    do 4 (erewrite bind_Ok by reflexivity). reflexivity. }
  split; [reflexivity|]. split; reflexivity.
Qed.

Lemma workbook_without_sample_sheets_witness :
  exists self,
    init (fun _ => Ok [("Parameter", [])]) derivative "lab.xls"
         "Lena_Schunter" "%" "kPa" (Some 5%Q) ∅ = (∅, Ok self) /\
    raw self = [].
Proof.
  destruct (workbook_without_sample_sheets
              (fun _ => Ok [("Parameter", [])]) derivative
              no_smoothing lin_reg_all_sections "lab.xls" "Lena_Schunter"
              "%" "kPa" (Some 5%Q) ∅ [("Parameter", [])]
              ["tool_distance"; "strain"; "stress"] 2%nat
              (995 # 1000) 0 50 true (Kwargs None None None))
    as [self [E [R _]]].
  - right. reflexivity.
  - reflexivity.
  - reflexivity.
  - simpl. lia.
  - exists self. split; [exact E|exact R].
Defined.

(** ** The objects that [calc_e_modulus] creates *)

Lemma dom_trans (X Y Z : gset loc) : X ⊆ Y -> Y ⊆ Z -> X ⊆ Z.
Proof. intros A B l I. apply B, A, I. Qed.

Lemma dom_fresh (X Y : gset loc) l : X ⊆ Y -> l ∉ Y -> l ∉ X.
Proof. intros A N I. apply N, A, I. Qed.

Lemma dom_insert_sub (h : store) l f : dom h ⊆ dom (<[l := f]> h).
Proof. intros x I. rewrite dom_insert. apply elem_of_union_r, I. Qed.

Lemma dom_insert_new (h : store) l f : l ∈ dom (<[l := f]> h).
Proof. rewrite dom_insert. apply elem_of_union_l, elem_of_singleton_2. reflexivity. Qed.

Lemma in_place_dom {A} l (m : mut A) (h h' : store) r :
  in_place l m h = (h', r) -> dom h ⊆ dom h'.
Proof.
  unfold in_place. destruct (h !! l) as [f|].
  - destruct (m f) as [f' r']. intros E. injection E as <- _.
    apply dom_insert_sub.
  - intros E. injection E as <- _. reflexivity.
Qed.

Lemma alloc_new f (h h' : store) l :
  alloc f h = (h', Ok l) ->
  dom h ⊆ dom h' /\ (l ∉ dom h) /\ (l ∈ dom h').
Proof.
  unfold alloc, Ok. intros E. injection E as <- <-.
  split; [apply dom_insert_sub|]. split; [apply is_fresh|apply dom_insert_new].
Qed.

Lemma copy_new l (h h' : store) l' :
  copy l h = (h', Ok l') ->
  dom h ⊆ dom h' /\ (l' ∉ dom h) /\ (l' ∈ dom h').
Proof.
  unfold copy. intros H.
  apply bind_inv_Ok in H. destruct H as [h1 [f [H1 H]]].
  apply in_place_dom in H1. apply alloc_new in H.
  destruct H as [S [N I]].
  split; [eapply dom_trans; eassumption|].
  split; [eapply dom_fresh; eassumption|exact I].
Qed.

Lemma smooth_data_new sm sample window poly_order data_points
    (h h' : store) l :
  smooth_data sm sample window poly_order data_points h = (h', Ok l) ->
  dom h ⊆ dom h' /\ (l ∉ dom h) /\ (l ∈ dom h').
Proof.
  unfold smooth_data. intros H.
  apply bind_inv_Ok in H. destruct H as [h1 [ys [H1 H]]].
  apply bind_inv_Ok in H. destruct H as [h2 [xs [H2 H]]].
  destruct (sm ys xs window poly_order _) as [xi yi].
  apply in_place_dom in H1, H2. apply alloc_new in H.
  destruct H as [S [N I]].
  pose proof (dom_trans _ _ _ H1 H2) as S12.
  split; [eapply dom_trans; eassumption|].
  split; [eapply dom_fresh; eassumption|exact I].
Qed.

Lemma regress_sample_new lr scf tau lower upper sample (h h' : store) b :
  regress_sample lr scf tau lower upper sample h = (h', Ok b) ->
  dom h ⊆ dom h' /\ (snd b ∉ dom h) /\ (snd b ∈ dom h').
Proof.
  unfold regress_sample. intros H.
  apply bind_inv_Ok in H. destruct H as [h1 [l1 [H1 H]]].
  apply bind_inv_Ok in H. destruct H as [h2 [[] [H2 H]]].
  apply bind_inv_Ok in H. destruct H as [h3 [xs [H3 H]]].
  apply bind_inv_Ok in H. destruct H as [h4 [ys [H4 H]]].
  destruct (lr xs ys tau) as [e|reg]; [discriminate|].
  apply bind_inv_Ok in H. destruct H as [h5 [f [H5 H]]].
  apply bind_inv_Ok in H. destruct H as [h6 [l2 [H6 H]]].
  injection H as <- <-. cbn [snd].
  apply copy_new in H1. destruct H1 as [S1 _].
  apply in_place_dom in H2, H3, H4, H5. apply alloc_new in H6.
  destruct H6 as [S [N I]].
  assert (S5 : dom h ⊆ dom h5).
  { eapply dom_trans; [exact S1|]. eapply dom_trans; [exact H2|].
    eapply dom_trans; [exact H3|]. eapply dom_trans; [exact H4|exact H5]. }
  split; [eapply dom_trans; eassumption|].
  split; [eapply dom_fresh; eassumption|exact I].
Qed.

Lemma for_each_new {A B} (loc_of : B -> loc) (body : A -> obj B) xs :
  (forall x (h h' : store) b, body x h = (h', Ok b) ->
     dom h ⊆ dom h' /\ (loc_of b ∉ dom h) /\ (loc_of b ∈ dom h')) ->
  forall (h h' : store) bs,
    for_each xs body h = (h', Ok bs) ->
    dom h ⊆ dom h' /\ length bs = length xs /\
    List.NoDup (map loc_of bs) /\
    Forall (fun b => (loc_of b ∉ dom h) /\ (loc_of b ∈ dom h')) bs.
Proof.
  intros HB. induction xs as [|x xs IH]; intros h h' bs H; cbn [for_each] in H.
  - injection H as <- <-. split; [reflexivity|]. split; [reflexivity|].
    split; constructor.
  - apply bind_inv_Ok in H. destruct H as [h1 [b [Hb H]]].
    apply bind_inv_Ok in H. destruct H as [h2 [bs' [Hbs H]]].
    injection H as <- <-.
    apply HB in Hb. destruct Hb as [S1 [N1 I1]].
    apply IH in Hbs. destruct Hbs as [S2 [L [D F]]].
    split; [eapply dom_trans; eassumption|].
    split; [simpl; congruence|]. split.
    + simpl. constructor; [|exact D].
      intros I. apply in_map_iff in I. destruct I as [b' [E I]].
      rewrite List.Forall_forall in F. destruct (F b' I) as [N _].
      rewrite E in N. contradiction.
    + constructor; [split; [exact N1|apply S2, I1]|].
      eapply List.Forall_impl; [|exact F]. simpl. intros b' [N I].
      split; [eapply dom_fresh; eassumption|exact I].
Qed.

Lemma for_each_ret {S A} (xs : list A) (s : S) :
  for_each xs (fun x => ret x) s = (s, Ok xs).
Proof.
  induction xs as [|x xs IH]; cbn [for_each]; [reflexivity|].
  erewrite bind_Ok by reflexivity. erewrite bind_Ok by exact IH.
  reflexivity.
Qed.

(** X13: the objects behind the lists that [calc_e_modulus] sets.  With
    [smoothing=False] the list [raw_processed] holds the very objects of
    [raw], not copies; with smoothing it holds one new object per sample.
    [raw_processed_cropped] always holds one new object per sample.  New
    objects are distinct from each other and from every object that
    existed before the call, and no object is removed. *)
Theorem calc_e_modulus_objects sm lr self tau lower upper smooth kw
    (h h' : store) self' :
  calc_e_modulus sm lr self tau lower upper smooth kw h = (h', Ok self') ->
  dom h ⊆ dom h' /\
  raw self' = raw self /\
  (smooth = false -> raw_processed self' = raw self) /\
  (smooth = true ->
     List.NoDup (raw_processed self') /\
     Forall (fun l => (l ∉ dom h) /\ (l ∈ dom h')) (raw_processed self')) /\
  length (raw_processed self') = length (raw self) /\
  length (raw_processed_cropped self') = length (raw self) /\
  List.NoDup (raw_processed_cropped self') /\
  Forall (fun l => (l ∉ dom h) /\ (l ∈ dom h')) (raw_processed_cropped self').
Proof.
  unfold calc_e_modulus. intros H.
  apply bind_inv_Ok in H. destruct H as [h1 [rp [H1 H]]].
  apply bind_inv_Ok in H. destruct H as [h2 [per [H2 H]]].
  cbv zeta in H.
  apply bind_inv_Ok in H. destruct H as [h3 [c1 [E1 H]]].
  apply bind_inv_Ok in H. destruct H as [h4 [c2 [E2 H]]].
  apply bind_inv_Ok in H. destruct H as [h5 [c3 [E3 H]]].
  apply bind_inv_Ok in H. destruct H as [h6 [c4 [E4 H]]].
  apply checked_column_inv in E1, E2, E3, E4.
  destruct E1 as [_ ->], E2 as [_ ->], E3 as [_ ->], E4 as [_ ->].
  injection H as <- <-. cbn [raw raw_processed raw_processed_cropped].
  pose proof (for_each_new snd _ rp
                (regress_sample_new lr (strain_conversion_factor self)
                   tau lower upper) h1 h2 per H2) as [S2 [L2 [D2 F2]]].
  assert (P1 : dom h ⊆ dom h1 /\ length rp = length (raw self) /\
               (smooth = false -> rp = raw self) /\
               (smooth = true ->
                List.NoDup rp /\
                Forall (fun l => (l ∉ dom h) /\ (l ∈ dom h1)) rp)).
  { destruct smooth.
    - pose proof (for_each_new (fun l => l) _ (raw self)
                    (fun x => smooth_data_new sm x _ _ _) h h1 rp H1)
        as [S1 [L1 [D1 F1]]].
      rewrite map_id in D1.
      split; [exact S1|]. split; [exact L1|]. split; [discriminate|].
      intros _. split; assumption.
    - rewrite for_each_ret in H1. injection H1 as <- <-.
      split; [reflexivity|]. split; [reflexivity|].
      split; [reflexivity|discriminate]. }
  destruct P1 as [S1 [L1 [Pf Pt]]].
  split; [eapply dom_trans; eassumption|].
  split; [reflexivity|]. split; [exact Pf|].
  split.
  { intros T. destruct (Pt T) as [D1 F1]. split; [exact D1|].
    eapply List.Forall_impl; [|exact F1]. simpl. intros l [N I].
    split; [exact N|apply S2, I]. }
  split; [exact L1|]. split; [rewrite length_map; congruence|].
  split; [exact D2|].
  apply List.Forall_forall. intros l I. apply in_map_iff in I.
  destruct I as [b [<- I]]. rewrite List.Forall_forall in F2.
  destruct (F2 b I) as [N I']. split; [eapply dom_fresh; eassumption|exact I'].
Qed.

Lemma calc_e_modulus_objects_witness :
  exists h' self',
    calc_e_modulus no_smoothing lin_reg_all_sections
      (TensileTest "%" "kPa" None 100 (named_results ["toughness"])
         "lab.xls" "Philipp Manglkammer" [] [0%nat] None [] [] [] [] [])
      (995 # 1000) 0 50 false (Kwargs None None None)
      {[ 0%nat := toughness_sample ]} = (h', Ok self') /\
    raw_processed self' = [0%nat] /\
    List.NoDup (raw_processed_cropped self') /\
    ~ In 0%nat (raw_processed_cropped self').
Proof.
  destruct (calc_e_modulus no_smoothing lin_reg_all_sections
      (TensileTest "%" "kPa" None 100 (named_results ["toughness"])
         "lab.xls" "Philipp Manglkammer" [] [0%nat] None [] [] [] [] [])
      (995 # 1000) 0 50 false (Kwargs None None None)
      {[ 0%nat := toughness_sample ]}) as [h' [e|self']] eqn:E.
  - vm_compute in E. discriminate.
  - exists h', self'. split; [reflexivity|].
    destruct (calc_e_modulus_objects _ _ _ _ _ _ _ _ _ _ _ E)
      as [_ [_ [P [_ [_ [_ [D F]]]]]]].
    split; [apply P; reflexivity|]. split; [exact D|].
    intros I. rewrite List.Forall_forall in F.
    destruct (F _ I) as [N _]. apply N.
    apply elem_of_dom. exists toughness_sample. reflexivity.
Defined.

(** ** How far rounding moves the elastic modulus *)

Lemma rint_bound q :
  (- (1 # 2) <= inject_Z (rint q) - q /\ inject_Z (rint q) - q <= 1 # 2)%Q.
Proof.
  unfold rint.
  pose proof (Qfloor_le q) as Lo. pose proof (Qlt_floor q) as Hi.
  rewrite inject_Z_plus in Hi. change (inject_Z 1) with 1%Q in Hi.
  set (f := Qfloor q) in *.
  destruct (q - inject_Z f ?= 1 # 2)%Q eqn:C.
  - apply Qeq_alt in C. destruct (Z.even f).
    + lra.
    + rewrite inject_Z_plus. change (inject_Z 1) with 1%Q. lra.
  - apply Qlt_alt in C. lra.
  - apply Qgt_alt in C. rewrite inject_Z_plus.
    change (inject_Z 1) with 1%Q. lra.
Qed.

Lemma around_3_bound x :
  (- (1 # 2000) <= around 3 x - x /\ around 3 x - x <= 1 # 2000)%Q.
Proof.
  unfold around. change (pow10 3) with 1000%Q.
  pose proof (rint_bound (x * 1000)) as [Lo Hi].
  set (r := inject_Z (rint (x * 1000))) in *.
  assert (E : (r / 1000 == r * (1 # 1000))%Q) by (field; discriminate).
  rewrite E. split; lra.
Qed.

Lemma around_3_times_100 s : (around 3 (around 3 s * 100) == around 3 s * 100)%Q.
Proof.
  unfold around at 1.
  rewrite (rint_compat (around 3 s * 100 * pow10 3)
             (inject_Z (rint (s * pow10 3) * 100))).
  - rewrite rint_inject_Z. unfold around. rewrite inject_Z_mult.
    field. apply pow10_nonzero.
  - unfold around. rewrite inject_Z_mult.
    change (inject_Z 100) with 100%Q. field. apply pow10_nonzero.
Qed.

(** X14: how far the reported elastic modulus is from the slope in
    stress per unit strain.  For dimensionless strain (factor 1) the value
    is within 0.0005 of the slope.  For strain in percent (factor 100) the
    slope is rounded before it is multiplied, so the value is only within
    0.05 of a hundred times the slope, although it is reported with three
    decimals; the slope 0.0005 is off by that much. *)
Theorem e_modulus_rounding_error s :
  (exists e, e_modulus_of 1 (Some s) = Some e /\
             (- (1 # 2000) <= e - s /\ e - s <= 1 # 2000)%Q) /\
  (exists e, e_modulus_of 100 (Some s) = Some e /\
             (- (1 # 20) <= e - s * 100 /\ e - s * 100 <= 1 # 20)%Q) /\
  (exists e, e_modulus_of 100 (Some (5 # 10000)) = Some e /\
             (e - (5 # 10000) * 100 == - (1 # 20))%Q).
Proof.
  split; [|split].
  - eexists. split; [apply e_modulus_of_Some|].
    rewrite (around_compat 3 (around 3 s * 1) (around 3 s))
      by (apply Qmult_1_r).
    rewrite around_around. apply around_3_bound.
  - eexists. split; [apply e_modulus_of_Some|].
    rewrite around_3_times_100.
    pose proof (around_3_bound s) as [Lo Hi]. split; lra.
  - eexists. split; [apply e_modulus_of_Some|]. vm_compute. reflexivity.
Qed.

(** ** The sign of the toughness *)

Lemma rint_sign q :
  ((0 <= q)%Q -> (0 <= rint q)%Z) /\ ((q <= 0)%Q -> (rint q <= 0)%Z).
Proof.
  pose proof (rint_bound q) as [Lo Hi]. split; intros H.
  - destruct (Z_lt_le_dec (rint q) 0) as [N|P]; [|exact P].
    exfalso. assert (rint q <= -1)%Z as N' by lia.
    rewrite Zle_Qle in N'. change (inject_Z (-1)) with (-1)%Q in N'. lra.
  - destruct (Z_lt_le_dec 0 (rint q)) as [N|P]; [|exact P].
    exfalso. assert (1 <= rint q)%Z as N' by lia.
    rewrite Zle_Qle in N'. change (inject_Z 1) with 1%Q in N'. lra.
Qed.

Lemma pow10_pos d : (0 < pow10 d)%Q.
Proof.
  unfold pow10.
  assert (0 < 10 ^ Z.of_nat d)%Z by (apply Z.pow_pos_nonneg; lia).
  rewrite Zlt_Qlt in H. exact H.
Qed.

Lemma around_sign d x :
  ((0 <= x)%Q -> (0 <= around d x)%Q) /\ ((x <= 0)%Q -> (around d x <= 0)%Q).
Proof.
  pose proof (pow10_pos d) as P. unfold around.
  destruct (rint_sign (x * pow10 d)) as [A B]. split; intros H.
  - apply Qle_shift_div_l; [exact P|]. rewrite Qmult_0_l.
    rewrite <- (Zle_Qle 0). apply A.
    apply Qmult_le_0_compat; [exact H|apply Qlt_le_weak, P].
  - apply Qle_shift_div_r; [exact P|]. rewrite Qmult_0_l.
    rewrite <- (Zle_Qle _ 0). apply B.
    assert (E : (0 == 0 * pow10 d)%Q) by ring. rewrite E.
    apply Qmult_le_compat_r; [exact H|apply Qlt_le_weak, P].
Qed.

Lemma trapezoidal_integral_sign (pts : list (Q * Q)) :
  Forall (fun p => (0 <= snd p)%Q) pts ->
  (StronglySorted (fun a b => (fst a <= fst b)%Q) pts ->
   (0 <= trapezoidal_integral pts)%Q) /\
  (StronglySorted (fun a b => (fst b <= fst a)%Q) pts ->
   (trapezoidal_integral pts <= 0)%Q).
Proof.
  induction pts as [|[x0 y0] [|[x1 y1] rest] IH]; intros F.
  - split; intros _; simpl; lra.
  - split; intros _; simpl; lra.
  - apply Forall_cons_iff in F. destruct F as [Y0 F].
    pose proof F as F'. apply Forall_cons_iff in F'. destruct F' as [Y1 _].
    destruct (IH F) as [Up Down]. cbn [snd] in Y0, Y1.
    change (trapezoidal_integral ((x0, y0) :: (x1, y1) :: rest))
      with ((x1 - x0) * (y0 + y1) / 2 +
            trapezoidal_integral ((x1, y1) :: rest))%Q.
    assert (E : ((x1 - x0) * (y0 + y1) / 2 ==
                 (x1 - x0) * ((y0 + y1) * (1 # 2)))%Q) by (field; discriminate).
    rewrite E.
    assert (Y : (0 <= (y0 + y1) * (1 # 2))%Q) by lra.
    split; intros S; apply StronglySorted_inv in S; destruct S as [S H];
      apply Forall_cons_iff in H; destruct H as [H _]; cbn [fst] in H.
    + specialize (Up S).
      assert (0 <= (x1 - x0) * ((y0 + y1) * (1 # 2)))%Q.
      { apply Qmult_le_0_compat; [lra|exact Y]. }
      lra.
    + specialize (Down S).
      assert (0 <= (x0 - x1) * ((y0 + y1) * (1 # 2)))%Q.
      { apply Qmult_le_0_compat; [lra|exact Y]. }
      assert (((x1 - x0) * ((y0 + y1) * (1 # 2)) ==
               - ((x0 - x1) * ((y0 + y1) * (1 # 2))))%Q) as N by ring.
      rewrite N. lra.
Qed.

(** X15: the sign of the toughness.  For a curve without missing values
    and without negative stress, and a positive conversion factor, the
    toughness is never negative when the strain does not decrease along
    the rows, and never positive when the strain does not increase along
    the rows. *)
Theorem toughness_sign f i j scf pts :
  col_index "strain" (columns f) = Some i ->
  col_index "stress" (columns f) = Some j ->
  curve_of i j pts (rows f) ->
  (0 < scf)%Q ->
  Forall (fun p => (0 <= snd p)%Q) pts ->
  exists t,
    toughness_of scf f = (f, Ok (Some t)) /\
    (StronglySorted (fun a b => (fst a <= fst b)%Q) pts -> (0 <= t)%Q) /\
    (StronglySorted (fun a b => (fst b <= fst a)%Q) pts -> (t <= 0)%Q).
Proof.
  intros Hi Hj [Cx Cy] Hs F.
  rewrite (toughness_of_eq scf f i j Hi Hj), Cx, Cy.
  destruct (trapz_integral pts) as [a [E A]]. rewrite E.
  assert (N : Qeq_bool scf 0 = false).
  { destruct (Qeq_bool scf 0) eqn:Z; [|reflexivity].
    apply Qeq_bool_iff in Z. rewrite Z in Hs. discriminate. }
  unfold cell_div. rewrite N. cbn [cell_around].
  eexists. split; [reflexivity|].
  destruct (trapezoidal_integral_sign pts F) as [Up Down].
  destruct (around_sign 1 (a / scf)) as [P M].
  split; intros S.
  - apply P. apply Qle_shift_div_l; [exact Hs|].
    rewrite Qmult_0_l, A. apply Up, S.
  - apply M. apply Qle_shift_div_r; [exact Hs|].
    rewrite Qmult_0_l, A. apply Down, S.
Qed.

Lemma toughness_sign_witness :
  exists t,
    toughness_of 100 toughness_sample = (toughness_sample, Ok (Some t)) /\
    (0 <= t)%Q.
Proof.
  destruct (toughness_sign toughness_sample 0%nat 1%nat 100
              toughness_points) as [t [E [P _]]].
  - reflexivity.
  - reflexivity.
  - split; reflexivity.
  - reflexivity.
  - repeat constructor; discriminate.
  - exists t. split; [exact E|]. apply P.
    repeat constructor; discriminate.
Defined.

(** ** The default number of points for smoothing *)

Lemma pow10_ceil_spec n : forall fuel p,
  (1 <= p)%nat -> (p < 10 * n)%nat -> (n <= p * 10 ^ fuel)%nat ->
  exists e,
    pow10_ceil fuel p n = (p * 10 ^ e)%nat /\
    (n <= p * 10 ^ e)%nat /\ (p * 10 ^ e < 10 * n)%nat.
Proof.
  induction fuel as [|fuel IH]; intros p P1 P2 P3.
  - exists 0%nat. simpl in P3.
    assert (E : pow10_ceil 0 p n = p)
      by (simpl; destruct (n <=? p)%nat; reflexivity).
    rewrite E. simpl. lia.
  - cbn [pow10_ceil]. destruct (n <=? p)%nat eqn:E.
    + apply Nat.leb_le in E. exists 0%nat. simpl. lia.
    + apply Nat.leb_gt in E.
      destruct (IH (10 * p)%nat) as [e [A [B C]]]; try lia.
      { rewrite Nat.pow_succ_r' in P3. lia. }
      exists (S e). rewrite Nat.pow_succ_r'.
      replace (p * (10 * 10 ^ e))%nat with (10 * p * 10 ^ e)%nat by lia.
      repeat split; assumption.
Qed.

Lemma default_data_points_spec n :
  (1 <= n)%nat ->
  exists e, default_data_points n = (10 ^ e)%nat /\
            (n <= 10 ^ e)%nat /\ (10 ^ e < 10 * n)%nat.
Proof.
  intros N. unfold default_data_points.
  destruct (n =? 0)%nat eqn:Z; [apply Nat.eqb_eq in Z; lia|].
  destruct (pow10_ceil_spec n n 1%nat) as [e [A [B C]]]; try lia.
  { pose proof (Nat.pow_gt_lin_r 10 n). lia. }
  exists e. rewrite A. rewrite Nat.mul_1_l in *. repeat split; assumption.
Qed.

Lemma smooth_data_eq sm sample window poly_order dp (h : store) f i j :
  h !! sample = Some f ->
  col_index "strain" (columns f) = Some i ->
  col_index "stress" (columns f) = Some j ->
  smooth_data sm sample window poly_order dp h =
  (let '(xi, yi) :=
     sm (column_values j (rows f)) (column_values i (rows f)) window
        poly_order
        (match dp with
         | Some n => n
         | None => default_data_points (length (rows f))
         end) in
   alloc (Frame ["strain"; "stress"]
                (relabel 0 (map (fun '(x, y) => Row 0 [x; y])
                                (combine xi yi))))) h.
Proof.
  intros Hs Hi Hj. unfold smooth_data.
  erewrite bind_Ok
    by (apply (in_place_read sample _ h f _ Hs), values_eq, Hj).
  erewrite bind_Ok
    by (apply (in_place_read sample _ h f _ Hs), values_eq, Hi).
  cbv zeta.
  assert (Ln : length (column_values i (rows f)) = length (rows f))
    by (unfold column_values; apply length_map).
  rewrite Ln. reflexivity.
Qed.

(** X16: the number of points that [smooth_data] asks for when the caller
    gives none.  For a sample with [n >= 1] rows it is the power of ten
    [d] with [n <= d < 10 * n]: the call is the call with
    [data_points = d].  So the curve is resampled to at most ten times
    its points, and to exactly its own number of points when that number
    is a power of ten. *)
Theorem smooth_data_default_points sm sample window poly_order
    (h : store) f i j :
  h !! sample = Some f ->
  col_index "strain" (columns f) = Some i ->
  col_index "stress" (columns f) = Some j ->
  rows f <> [] ->
  exists e,
    (length (rows f) <= 10 ^ e)%nat /\
    (10 ^ e < 10 * length (rows f))%nat /\
    smooth_data sm sample window poly_order None h =
    smooth_data sm sample window poly_order (Some (10 ^ e)%nat) h.
Proof.
  intros Hs Hi Hj Hr.
  destruct (default_data_points_spec (length (rows f))) as [e [A [B C]]].
  { destruct (rows f); [contradiction|simpl; lia]. }
  exists e. split; [exact B|]. split; [exact C|].
  rewrite !(smooth_data_eq sm sample window poly_order _ h f i j Hs Hi Hj).
  rewrite A. reflexivity.
Qed.

Lemma smooth_data_default_points_witness :
  smooth_data no_smoothing 0%nat 500 2 None {[ 0%nat := toughness_sample ]} =
  smooth_data no_smoothing 0%nat 500 2 (Some 10%nat)
              {[ 0%nat := toughness_sample ]}.
Proof.
  destruct (smooth_data_default_points no_smoothing 0%nat 500%nat 2%nat
              {[ 0%nat := toughness_sample ]} toughness_sample 0%nat 1%nat)
    as [e [A [B E]]].
  - reflexivity.
  - reflexivity.
  - reflexivity.
  - discriminate.
  - rewrite E. simpl in A, B.
    destruct e as [|[|e]]; [simpl in A; lia|reflexivity|].
    exfalso. rewrite !Nat.pow_succ_r' in B.
    assert (1 <= 10 ^ e)%nat by (apply Nat.neq_0_lt_0, Nat.pow_nonzero; lia).
    lia.
Defined.

(** ** The results table *)

Lemma calc_strength_inv self (h h' : store) self' s :
  calc_strength self h = (h', Ok (self', s)) ->
  length s = length (name (results self)) /\
  results self' =
    (let t := results self in
     Results (name t) (e_modulus_title t) (linear_limit_title t) s
       (toughness_title t) (elongation_at_break_title t)
       (slope_limit_title t) (intercept_limit_title t)).
Proof.
  unfold calc_strength. intros H.
  apply bind_inv_Ok in H. destruct H as [h1 [v [_ H]]].
  apply bind_inv_Ok in H. destruct H as [h2 [c [C H]]].
  pose proof C as C'. apply checked_column_inv in C'. destruct C' as [-> _].
  unfold checked_column in C.
  destruct (length v =? length (name (results self)))%nat eqn:L;
    [|discriminate].
  apply Nat.eqb_eq in L. cbv zeta in H. injection H as _ <- <-.
  split; [exact L|reflexivity].
Qed.

Lemma calc_toughness_inv self (h h' : store) self' s :
  calc_toughness self h = (h', Ok (self', s)) ->
  length s = length (name (results self)) /\
  results self' =
    (let t := results self in
     Results (name t) (e_modulus_title t) (linear_limit_title t)
       (strength_title t) s (elongation_at_break_title t)
       (slope_limit_title t) (intercept_limit_title t)).
Proof.
  unfold calc_toughness. intros H.
  apply bind_inv_Ok in H. destruct H as [h1 [v [_ H]]].
  apply bind_inv_Ok in H. destruct H as [h2 [c [C H]]].
  pose proof C as C'. apply checked_column_inv in C'. destruct C' as [-> _].
  unfold checked_column in C.
  destruct (length v =? length (name (results self)))%nat eqn:L;
    [|discriminate].
  apply Nat.eqb_eq in L. cbv zeta in H. injection H as _ <- <-.
  split; [exact L|reflexivity].
Qed.

Lemma calc_elongation_at_break_inv self (h h' : store) self' s :
  calc_elongation_at_break self h = (h', Ok (self', s)) ->
  length s = length (name (results self)) /\
  results self' =
    (let t := results self in
     Results (name t) (e_modulus_title t) (linear_limit_title t)
       (strength_title t) (toughness_title t) s
       (slope_limit_title t) (intercept_limit_title t)).
Proof.
  unfold calc_elongation_at_break. intros H.
  apply bind_inv_Ok in H. destruct H as [h1 [v [_ H]]].
  apply bind_inv_Ok in H. destruct H as [h2 [c [C H]]].
  pose proof C as C'. apply checked_column_inv in C'. destruct C' as [-> _].
  unfold checked_column in C.
  destruct (length v =? length (name (results self)))%nat eqn:L;
    [|discriminate].
  apply Nat.eqb_eq in L. cbv zeta in H. injection H as _ <- <-.
  split; [exact L|reflexivity].
Qed.

Lemma checked_column_length {S} t vals (s s' : S) c :
  checked_column t vals s = (s', Ok c) ->
  c = vals /\ length c = length (name t).
Proof.
  unfold checked_column.
  destruct (length vals =? length (name t))%nat eqn:L; [|discriminate].
  intros H. injection H as _ <-. apply Nat.eqb_eq in L. split; [reflexivity|exact L].
Qed.

Lemma calc_e_modulus_inv sm lr self tau lower upper smooth kw
    (h h' : store) self' :
  calc_e_modulus sm lr self tau lower upper smooth kw h = (h', Ok self') ->
  exists c1 c2 c3 c4,
    length c1 = length (name (results self)) /\
    length c2 = length (name (results self)) /\
    length c3 = length (name (results self)) /\
    length c4 = length (name (results self)) /\
    results self' =
      (let t := results self in
       Results (name t) c1 c2 (strength_title t) (toughness_title t)
         (elongation_at_break_title t) c3 c4).
Proof.
  unfold calc_e_modulus. intros H.
  apply bind_inv_Ok in H. destruct H as [h1 [rp [_ H]]].
  apply bind_inv_Ok in H. destruct H as [h2 [per [_ H]]].
  cbv zeta in H.
  apply bind_inv_Ok in H. destruct H as [h3 [c1 [E1 H]]].
  apply bind_inv_Ok in H. destruct H as [h4 [c2 [E2 H]]].
  apply bind_inv_Ok in H. destruct H as [h5 [c3 [E3 H]]].
  apply bind_inv_Ok in H. destruct H as [h6 [c4 [E4 H]]].
  apply checked_column_length in E1, E2, E3, E4.
  destruct E1 as [_ L1], E2 as [_ L2], E3 as [_ L3], E4 as [_ L4].
  injection H as _ <-. exists c1, c2, c3, c4.
  repeat (split; [assumption|]). reflexivity.
Qed.

(** X17: the results table.  After construction it has one row per sample
    sheet, named after the sheets in workbook order, and every value is
    NaN.  Each of the four evaluations that returns writes only its own
    columns (the elastic modulus, the linear limit, slope and intercept
    for [calc_e_modulus]; one column for each of the others), leaves the
    names and the other columns as they are, and keeps one entry per
    sample in every column. *)
Theorem results_table_lifecycle :
  (forall xl d file mode us ust p (h h' : store) self,
     init xl d file mode us ust p h = (h', Ok self) ->
     exists wb cols k,
       xl file = Ok wb /\ import_filter mode = Some (cols, k) /\
       results self = named_results (map fst (skipn k wb)) /\
       rectangular (results self)) /\
  (forall self (h h' : store) self' s,
     rectangular (results self) ->
     calc_strength self h = (h', Ok (self', s)) ->
     rectangular (results self') /\
     strength_title (results self') = s /\
     results self' =
       (let t := results self in
        Results (name t) (e_modulus_title t) (linear_limit_title t) s
          (toughness_title t) (elongation_at_break_title t)
          (slope_limit_title t) (intercept_limit_title t))) /\
  (forall self (h h' : store) self' s,
     rectangular (results self) ->
     calc_toughness self h = (h', Ok (self', s)) ->
     rectangular (results self') /\
     results self' =
       (let t := results self in
        Results (name t) (e_modulus_title t) (linear_limit_title t)
          (strength_title t) s (elongation_at_break_title t)
          (slope_limit_title t) (intercept_limit_title t))) /\
  (forall self (h h' : store) self' s,
     rectangular (results self) ->
     calc_elongation_at_break self h = (h', Ok (self', s)) ->
     rectangular (results self') /\
     results self' =
       (let t := results self in
        Results (name t) (e_modulus_title t) (linear_limit_title t)
          (strength_title t) (toughness_title t) s
          (slope_limit_title t) (intercept_limit_title t))) /\
  (forall sm lr self tau lower upper smooth kw (h h' : store) self',
     rectangular (results self) ->
     calc_e_modulus sm lr self tau lower upper smooth kw h = (h', Ok self') ->
     rectangular (results self') /\
     name (results self') = name (results self) /\
     strength_title (results self') = strength_title (results self) /\
     toughness_title (results self') = toughness_title (results self) /\
     elongation_at_break_title (results self') =
       elongation_at_break_title (results self)).
Proof.
  split; [|split; [|split; [|split]]].
  - intros xl d file mode us ust p h h' self H. apply init_inv in H.
    destruct H as [scf [h1 [names [ro [h2 [ws [out [_ [I [_ [_ ->]]]]]]]]]]].
    destruct (import_data_spec _ _ _ _ _ _ _ I)
      as [wb [cols [k [X [F [N _]]]]]].
    exists wb, cols, k. cbn [results]. subst names.
    split; [exact X|]. split; [exact F|]. split; [reflexivity|].
    unfold rectangular, named_results. cbn.
    rewrite !length_map. repeat split; reflexivity.
  - intros self h h' self' s R H. apply calc_strength_inv in H.
    destruct H as [L ->]. unfold rectangular in *. cbn.
    split; [|split; reflexivity]. tauto.
  - intros self h h' self' s R H. apply calc_toughness_inv in H.
    destruct H as [L ->]. unfold rectangular in *. cbn.
    split; [|reflexivity]. tauto.
  - intros self h h' self' s R H. apply calc_elongation_at_break_inv in H.
    destruct H as [L ->]. unfold rectangular in *. cbn.
    split; [|reflexivity]. tauto.
  - intros sm lr self tau lower upper smooth kw h h' self' R H.
    apply calc_e_modulus_inv in H.
    destruct H as [c1 [c2 [c3 [c4 [L1 [L2 [L3 [L4 ->]]]]]]]].
    unfold rectangular in *. cbn.
    split; [tauto|]. repeat split; reflexivity.
Qed.

Lemma results_table_lifecycle_witness :
  exists h' self,
    init lab_file derivative "lab.xls" "Philipp Manglkammer" "%" "kPa"
         None ∅ = (h', Ok self) /\
    results self = named_results ["toughness"; "elongation"].
Proof.
  destruct (init lab_file derivative "lab.xls" "Philipp Manglkammer" "%" "kPa"
                 None ∅) as [h' [e|self]] eqn:E.
  - vm_compute in E. discriminate.
  - exists h', self. split; [reflexivity|].
    destruct (proj1 results_table_lifecycle _ _ _ _ _ _ _ _ _ _ E)
      as [wb [cols [k [X [F [R _]]]]]].
    unfold lab_file, Ok in X. injection X as <-.
    vm_compute in F. injection F as <- <-. exact R.
Defined.

(** ** [calc_e_modulus] without smoothing, sample by sample *)

Lemma regress_sample_input lr scf tau lower upper sample (h : store) f :
  h !! sample = Some f ->
  (exists i, col_index "strain" (columns f) = Some i) ->
  (exists j, col_index "stress" (columns f) = Some j) ->
  List.NoDup (map label (rows f)) ->
  (lower < upper)%Q ->
  match lr (fst (regression_input lower upper f))
           (snd (regression_input lower upper f)) tau with
  | inl e => snd (regress_sample lr scf tau lower upper sample h) = Err e
  | inr reg =>
      exists h' l',
        regress_sample lr scf tau lower upper sample h =
        (h', Ok (reg, e_modulus_of scf (slope_at_limit reg), l'))
  end.
Proof.
  intros Hs [i Hi] [j Hj] D L.
  unfold regression_input. rewrite Hi, Hj. cbn [fst snd].
  pose proof (crop_eq lower upper f i Hi D L) as C.
  pose proof (regress_sample_eq lr scf tau lower upper sample h f _ i j
                Hs C Hi Hj) as R.
  cbv zeta in R. cbn [rows] in R. rewrite !relabel_values in R.
  rewrite R.
  destruct (lr _ _ tau) as [e|reg]; [reflexivity|].
  do 2 eexists. reflexivity.
Qed.

Lemma holds_after_regress_sample lr scf tau lower upper sample
    (h : store) ls fs :
  holds h ls fs ->
  holds (fst (regress_sample lr scf tau lower upper sample h)) ls fs.
Proof.
  apply holds_transfer. intros l f _ E.
  apply (preserves_regress_sample lr scf tau lower upper l sample h f E).
Qed.

Lemma for_each_regress_Ok lr scf tau lower upper :
  (lower < upper)%Q ->
  forall ls fs regs (h : store),
    holds h ls fs ->
    Forall (fun g =>
              (exists i, col_index "strain" (columns g) = Some i) /\
              (exists j, col_index "stress" (columns g) = Some j) /\
              List.NoDup (map label (rows g))) fs ->
    Forall2 (fun f reg =>
               lr (fst (regression_input lower upper f))
                  (snd (regression_input lower upper f)) tau = Ok reg)
            fs regs ->
    exists h' per,
      for_each ls (regress_sample lr scf tau lower upper) h = (h', Ok per) /\
      map (fun x => fst (fst x)) per = regs /\
      map (fun x => snd (fst x)) per =
        map (fun reg => e_modulus_of scf (slope_at_limit reg)) regs.
Proof.
  intros L. induction ls as [|l ls IH]; intros fs regs h H G F.
  - inversion H; subst. inversion F; subst.
    exists h, []. repeat split; reflexivity.
  - inversion H as [|? f ? fs' Hl H']; subst.
    inversion F as [|? reg ? regs' Hr F']; subst.
    apply Forall_cons_iff in G. destruct G as [[Gi [Gj Gd]] G'].
    pose proof (regress_sample_input lr scf tau lower upper l h f
                  Hl Gi Gj Gd L) as R.
    unfold Ok in Hr. rewrite Hr in R. destruct R as [h1 [l' R]].
    pose proof (holds_after_regress_sample lr scf tau lower upper l
                  h ls fs' H') as H1.
    rewrite R in H1. cbn [fst] in H1.
    destruct (IH fs' regs' h1 H1 G' F') as [h2 [per [E [M1 M2]]]].
    exists h2, ((reg, e_modulus_of scf (slope_at_limit reg), l') :: per).
    split.
    + cbn [for_each]. erewrite bind_Ok by exact R.
      erewrite bind_Ok by exact E. reflexivity.
    + cbn [map fst snd]. rewrite M1, M2. split; reflexivity.
Qed.

Lemma for_each_regress_Err lr scf tau lower upper e f rest :
  (lower < upper)%Q ->
  lr (fst (regression_input lower upper f))
     (snd (regression_input lower upper f)) tau = Err e ->
  forall good ls (h : store),
    holds h ls (good ++ f :: rest)%list ->
    Forall (fun g =>
              (exists i, col_index "strain" (columns g) = Some i) /\
              (exists j, col_index "stress" (columns g) = Some j) /\
              List.NoDup (map label (rows g))) (good ++ f :: rest)%list ->
    Forall (fun g => exists reg,
              lr (fst (regression_input lower upper g))
                 (snd (regression_input lower upper g)) tau = Ok reg) good ->
    snd (for_each ls (regress_sample lr scf tau lower upper) h) = Err e.
Proof.
  intros L Bad. induction good as [|g good IH]; intros ls h H G F.
  - cbn [app] in H, G. inversion H as [|l ? ls' ? Hl H']; subst.
    apply Forall_cons_iff in G. destruct G as [[Gi [Gj Gd]] _].
    pose proof (regress_sample_input lr scf tau lower upper l h f
                  Hl Gi Gj Gd L) as R.
    unfold Err in Bad. rewrite Bad in R.
    cbn [for_each]. unfold bind at 1.
    destruct (regress_sample lr scf tau lower upper l h) as [h1 [e1|b]];
      cbn [snd] in *; [|discriminate R].
    unfold Err in *. injection R as ->. reflexivity.
  - cbn [app] in H, G. inversion H as [|l ? ls' ? Hl H']; subst.
    apply Forall_cons_iff in G. destruct G as [[Gi [Gj Gd]] G'].
    apply Forall_cons_iff in F. destruct F as [[reg Hr] F'].
    pose proof (regress_sample_input lr scf tau lower upper l h g
                  Hl Gi Gj Gd L) as R.
    unfold Ok in Hr. rewrite Hr in R. destruct R as [h1 [l' R]].
    pose proof (holds_after_regress_sample lr scf tau lower upper l
                  h ls' _ H') as H1.
    rewrite R in H1. cbn [fst] in H1.
    specialize (IH ls' h1 H1 G' F').
    cbn [for_each]. erewrite bind_Ok by exact R.
    unfold bind at 1.
    destruct (for_each ls' (regress_sample lr scf tau lower upper) h1)
      as [h2 [e2|bs]]; cbn [snd] in *; [|discriminate IH].
    unfold Err in *. injection IH as ->. reflexivity.
Qed.

(** X18: [calc_e_modulus] with [smoothing=False], sample by sample.  On an
    object as the constructor leaves it and for limits [lower < upper],
    the regression is called once per sample, in the order of the samples,
    on the strain and stress values of the rows inside the strain range.
    When every call returns, the four result columns hold, row by row, the
    modulus from the slope at the limit, the linear limit, the slope and
    the intercept of that sample's regression.  When a call raises, the
    first exception ends the whole evaluation: no column is written, also
    not for the samples whose regression had returned. *)
Theorem calc_e_modulus_sample_by_sample sm lr self tau lower upper kw
    (h : store) fs :
  ready h self fs ->
  (lower < upper)%Q ->
  (forall regs,
     Forall2 (fun f reg =>
                lr (fst (regression_input lower upper f))
                   (snd (regression_input lower upper f)) tau = Ok reg)
             fs regs ->
     exists h' self',
       calc_e_modulus sm lr self tau lower upper false kw h =
         (h', Ok self') /\
       e_modulus_title (results self') =
         map (fun reg => e_modulus_of (strain_conversion_factor self)
                           (slope_at_limit reg)) regs /\
       linear_limit_title (results self') = map linear_limit regs /\
       slope_limit_title (results self') = map slope_at_limit regs /\
       intercept_limit_title (results self') =
         map intercept_at_limit regs) /\
  (forall good f rest e,
     fs = (good ++ f :: rest)%list ->
     Forall (fun g => exists reg,
               lr (fst (regression_input lower upper g))
                  (snd (regression_input lower upper g)) tau = Ok reg)
            good ->
     lr (fst (regression_input lower upper f))
        (snd (regression_input lower upper f)) tau = Err e ->
     snd (calc_e_modulus sm lr self tau lower upper false kw h) = Err e).
Proof.
  intros [Hh [Ln G]] L. split.
  - intros regs F.
    destruct (for_each_regress_Ok lr (strain_conversion_factor self) tau
                lower upper L (raw self) fs regs h Hh G F)
      as [h' [per [E [M1 M2]]]].
    assert (Lp : length per = length (name (results self))).
    { pose proof (Forall2_length_eq _ _ _ F) as Lf.
      rewrite <- M1, length_map in Lf. congruence. }
    exists h'. eexists. split.
    + unfold calc_e_modulus.
      erewrite bind_Ok by (exact (for_each_ret (raw self) h)).
      erewrite bind_Ok by exact E. cbv zeta.
      do 4 (erewrite bind_Ok
              by (apply checked_column_Ok; rewrite length_map; exact Lp)).
      reflexivity.
    + cbn [results e_modulus_title linear_limit_title slope_limit_title
           intercept_limit_title].
      split; [exact M2|]. rewrite <- M1, !map_map.
      repeat split; reflexivity.
  - intros good f rest e -> F Bad.
    pose proof (for_each_regress_Err lr (strain_conversion_factor self) tau
                  lower upper e f rest L Bad good (raw self) h Hh G F) as E.
    unfold calc_e_modulus.
    erewrite bind_Ok by (exact (for_each_ret (raw self) h)).
    unfold bind at 1.
    destruct (for_each (raw self) _ h) as [h1 [e1|per]];
      cbn [snd] in *; [|discriminate E].
    unfold Err in *. injection E as ->. reflexivity.
Qed.

Lemma calc_e_modulus_sample_by_sample_witness :
  snd (calc_e_modulus no_smoothing
         (fun _ _ _ => Err InsufficientDataError)
         (TensileTest "%" "kPa" None 100 (named_results ["toughness"])
            "lab.xls" "Philipp Manglkammer" [] [0%nat] None [] [] [] [] [])
         (995 # 1000) 0 50 false (Kwargs None None None)
         {[ 0%nat := toughness_sample ]}) = Err InsufficientDataError.
Proof.
  destruct (calc_e_modulus_sample_by_sample no_smoothing
              (fun _ _ _ => Err InsufficientDataError)
              (TensileTest "%" "kPa" None 100 (named_results ["toughness"])
                 "lab.xls" "Philipp Manglkammer" [] [0%nat] None
                 [] [] [] [] [])
              (995 # 1000) 0 50 (Kwargs None None None)
              {[ 0%nat := toughness_sample ]} [toughness_sample])
    as [_ B].
  - split; [repeat constructor|]. split; [reflexivity|].
    constructor; [|constructor].
    split; [exists 0%nat; reflexivity|].
    split; [exists 1%nat; reflexivity|].
    repeat constructor; simpl; intuition discriminate.
  - reflexivity.
  - apply (B [] toughness_sample [] InsufficientDataError).
    + reflexivity.
    + constructor.
    + reflexivity.
Defined.

(** ** The state of the object between evaluations *)








(** ** The column titles *)

(** X20: the results table always has eight different columns.  Whatever
    the two unit strings are, the seven titles built from them differ
    from each other and from 'name', so no result column can overwrite
    another one. *)
Theorem result_titles_are_distinct unit_strain unit_stress :
  List.NoDup (results_columns unit_strain unit_stress) /\
  length (results_columns unit_strain unit_stress) = 8%nat.
Proof.
  split; [|reflexivity].
  unfold results_columns, e_modulus_title_of, linear_limit_title_of,
    strength_title_of, toughness_title_of, elongation_at_break_title_of,
    slope_limit_title_of, intercept_limit_title_of.
  repeat (constructor;
          [cbn [In]; intros H;
           repeat (destruct H as [H|H]; [discriminate H|]); exact H|]).
  constructor.
Qed.

(** ** The order after sorting *)

Lemma key_le_antisym a b :
  key_le a b = true -> key_le b a = true -> cell_same a b = true.
Proof.
  destruct a as [x|], b as [y|]; simpl; try congruence.
  intros A B. apply Qle_bool_iff in A, B. apply Qeq_bool_iff.
  apply Qle_antisym; assumption.
Qed.

Lemma sorted_permutation_unique i l1 : forall l2,
  StronglySorted (key_strictly_before i) l1 ->
  StronglySorted (key_before i) l2 ->
  Permutation l1 l2 -> l2 = l1.
Proof.
  induction l1 as [|a l1 IH]; intros l2 S1 S2 P.
  - apply Permutation_nil in P. exact P.
  - destruct l2 as [|b l2].
    { symmetry in P. apply Permutation_nil in P. discriminate. }
    apply StronglySorted_inv in S1. destruct S1 as [S1 F1].
    apply StronglySorted_inv in S2. destruct S2 as [S2 F2].
    assert (E : a = b).
    { assert (Ia : In a (b :: l2))
        by (eapply Permutation_in; [exact P|left; reflexivity]).
      assert (Ib : In b (a :: l1))
        by (eapply Permutation_in; [symmetry; exact P|left; reflexivity]).
      destruct Ia as [Ia|Ia]; [symmetry; exact Ia|].
      destruct Ib as [Ib|Ib]; [exact Ib|].
      exfalso. rewrite List.Forall_forall in F1, F2.
      destruct (F1 b Ib) as [Lab Dab]. specialize (F2 a Ia).
      unfold key_before, distinct_keys in *.
      rewrite (key_le_antisym _ _ Lab F2) in Dab. discriminate. }
    subst b. f_equal. apply IH; [exact S1|exact S2|].
    eapply Permutation_cons_inv, P.
Qed.

(** X21: the order of a cleaned sample does not depend on how the rows are
    sorted.  After the duplicates have been dropped, every arrangement of
    the remaining rows that is ascending in strain (missing strain last)
    is the one that the cleaning produces; ties, for which an unstable
    sorting routine could choose, cannot occur. *)
Theorem sorted_order_is_unique i rs rs' :
  Permutation (keep_first i [] rs) rs' ->
  StronglySorted (key_before i) rs' ->
  rs' = sort_rows i (keep_first i [] rs).
Proof.
  intros P S.
  apply (sorted_permutation_unique i).
  - apply sort_rows_strict. apply (keep_first_spec i rs []).
  - exact S.
  - rewrite sort_rows_perm. exact P.
Qed.

Lemma sorted_order_is_unique_witness :
  [Row 1 [num 0; num 1; num 2]; Row 0 [num 1; num 3; num 6];
   Row 3 [num 2; num 5; NaN]; Row 4 [num 3; num 6; num 12]] =
  sort_rows 0 (keep_first 0 [] (rows messy_sample)).
Proof.
  apply (sorted_order_is_unique 0 (rows messy_sample)).
  - simpl. apply perm_swap.
  - repeat constructor.
Defined.

(** ** Construction with a preload *)

(** X22: when the construction with a preload succeeds.  With the
    Lena_Schunter filter, a valid strain unit and a derivative routine
    that returns one value per point, the constructor returns exactly
    when every sample keeps at least one row, that is a row of the
    de-duplicated sample without missing value whose stress is not below
    the preload. *)
Theorem construction_with_preload_succeeds_iff xl d file us ust p
    (h : store) wb :
  (forall xs ys, length (d xs ys) = length xs) ->
  us = "" \/ us = "%" ->
  xl file = Ok wb ->
  (exists h' self,
     init xl d file "Lena_Schunter" us ust (Some p) h = (h', Ok self)) <->
  Forall (fun f => kept_rows 1 2 p (rows f) <> [])
         (imported_frames ["tool_distance"; "strain"; "stress"] 2 wb).
Proof.
  intros Hd U X. split.
  - intros [h' [self H]]. apply init_inv in H.
    destruct H as [scf [h1 [names [ro [h2 [ws [out [_ [I [C [L _]]]]]]]]]]].
    destruct (import_data_spec _ _ _ _ _ _ _ I)
      as [wb' [cols [k [X' [F [_ [Ho _]]]]]]].
    rewrite X in X'. unfold Ok in X'. injection X' as <-.
    vm_compute in F. injection F as <- <-.
    destruct (deepcopy_spec ro h1 _ Ho) as [h2' [ws' [C' [Hc [_ [D _]]]]]].
    rewrite C' in C. injection C as -> ->.
    destruct (streamline_loop d (Some p) scf ws h2 h' _ out D Hc L)
      as [_ [_ A]].
    apply List.Forall_forall. intros f If K.
    rewrite List.Forall_forall in A. specialize (A f If).
    unfold imported_frames in If. apply in_map_iff in If.
    destruct If as [sh [<- _]].
    rewrite (streamline_data_Some_empty d p scf _ 1 2 0) in A;
      try reflexivity; [discriminate A|apply parse_wf|exact K].
  - intros A.
    destruct (import_data_Ok xl file "Lena_Schunter" h wb
                ["tool_distance"; "strain"; "stress"] 2 X eq_refl)
      as [h1 [ro [I [Ho S1]]]].
    destruct (deepcopy_spec ro h1 _ Ho) as [h2 [ws [C [Hc [S2 [D _]]]]]].
    assert (scf_ex : exists scf,
      (if String.eqb us "" then ret 1%Q
       else if String.eqb us "%" then ret 100%Q
       else raise unit_strain_error) h = (h, Ok scf)).
    { destruct U as [->| ->]; eexists; reflexivity. }
    destruct scf_ex as [scf Hs].
    destruct (streamline_loop_Ok d (Some p) scf ws h2 _ D Hc) as [h' L].
    { apply List.Forall_forall. intros f If.
      rewrite List.Forall_forall in A. specialize (A f If).
      unfold imported_frames in If. apply in_map_iff in If.
      destruct If as [sh [<- _]].
      destruct (kept_rows 1 2 p (rows (parse _ (snd sh))))
        as [|r0 kept'] eqn:K; [contradiction|].
      rewrite (streamline_data_Some_eq d p scf _ 1 2 0 r0 kept');
        try reflexivity; [apply parse_wf|exact Hd|exact K]. }
    exists h'. eexists. unfold init.
    erewrite bind_Ok by exact Hs.
    cbv beta. erewrite bind_Ok by exact I. cbv beta iota.
    erewrite bind_Ok by exact C.
    erewrite bind_Ok by exact L. reflexivity.
Qed.

Lemma construction_with_preload_succeeds_iff_witness :
  exists h' self,
    init preload_file derivative "lab.xls" "Lena_Schunter" "%" "kPa"
         (Some 5%Q) ∅ = (h', Ok self).
Proof.
  apply (construction_with_preload_succeeds_iff preload_file derivative
           "lab.xls" "%" "kPa" 5%Q ∅ preload_workbook).
  - apply derivative_length.
  - right. reflexivity.
  - reflexivity.
  - repeat constructor; discriminate.
Defined.

(** ** The unit of the strain and the toughness *)

Lemma toughness_of_curve scf f i j pts :
  col_index "strain" (columns f) = Some i ->
  col_index "stress" (columns f) = Some j ->
  curve_of i j pts (rows f) ->
  ~ (scf == 0)%Q ->
  toughness_of scf f =
  (f, Ok (Some (around 1 (trapezoidal_integral pts / scf)))).
Proof.
  intros Hi Hj [Cx Cy] Hs.
  rewrite (toughness_of_eq scf f i j Hi Hj), Cx, Cy.
  destruct (trapz_integral pts) as [a [E A]]. rewrite E.
  assert (N : Qeq_bool scf 0 = false).
  { destruct (Qeq_bool scf 0) eqn:Z; [|reflexivity].
    apply Qeq_bool_iff in Z. contradiction. }
  unfold cell_div. rewrite N. cbn [cell_around].
  rewrite (around_compat 1 (a / scf) (trapezoidal_integral pts / scf)).
  - reflexivity.
  - rewrite A. reflexivity.
Qed.

Lemma trapezoidal_integral_scaled c pts pts' :
  Forall2 (fun p p' => (fst p' == c * fst p)%Q /\ (snd p' == snd p)%Q)
          pts pts' ->
  (trapezoidal_integral pts' == c * trapezoidal_integral pts)%Q.
Proof.
  induction 1 as [|[x0 y0] [x0' y0'] l l' [Ex0 Ey0] F IH].
  - simpl. ring.
  - destruct F as [|[x1 y1] [x1' y1'] l l' [Ex1 Ey1] F].
    + simpl. ring.
    + cbn [fst snd] in *.
      change (trapezoidal_integral ((x0', y0') :: (x1', y1') :: l'))
        with ((x1' - x0') * (y0' + y1') / 2 +
              trapezoidal_integral ((x1', y1') :: l'))%Q.
      change (trapezoidal_integral ((x0, y0) :: (x1, y1) :: l))
        with ((x1 - x0) * (y0 + y1) / 2 +
              trapezoidal_integral ((x1, y1) :: l))%Q.
      rewrite IH, Ex0, Ey0, Ex1, Ey1. field.
Qed.

(** X23: the toughness does not depend on the unit in which the strain is
    recorded.  A curve recorded with dimensionless strain and evaluated
    with the factor 1, and the same curve recorded with strain in percent
    (a hundred times the values) and evaluated with the factor 100, get
    the same toughness. *)
Theorem toughness_is_independent_of_the_strain_unit f f' i j i' j' pts pts' :
  col_index "strain" (columns f) = Some i ->
  col_index "stress" (columns f) = Some j ->
  col_index "strain" (columns f') = Some i' ->
  col_index "stress" (columns f') = Some j' ->
  curve_of i j pts (rows f) ->
  curve_of i' j' pts' (rows f') ->
  Forall2 (fun p p' => (fst p' == 100 * fst p)%Q /\ (snd p' == snd p)%Q)
          pts pts' ->
  exists t,
    toughness_of 1 f = (f, Ok (Some t)) /\
    toughness_of 100 f' = (f', Ok (Some t)).
Proof.
  intros Hi Hj Hi' Hj' C C' S.
  rewrite (toughness_of_curve 1 f i j pts Hi Hj C) by discriminate.
  rewrite (toughness_of_curve 100 f' i' j' pts' Hi' Hj' C') by discriminate.
  eexists. split; [reflexivity|].
  do 3 f_equal. apply around_compat.
  rewrite (trapezoidal_integral_scaled 100 pts pts' S). field.
Qed.

Lemma toughness_is_independent_of_the_strain_unit_witness :
  exists t,
    toughness_of 1 fraction_sample = (fraction_sample, Ok (Some t)) /\
    toughness_of 100 toughness_sample = (toughness_sample, Ok (Some t)).
Proof.
  apply (toughness_is_independent_of_the_strain_unit
           fraction_sample toughness_sample 0%nat 1%nat 0%nat 1%nat
           fraction_points toughness_points).
  - reflexivity.
  - reflexivity.
  - reflexivity.
  - reflexivity.
  - split; reflexivity.
  - split; reflexivity.
  - repeat constructor.
Defined.

(** ** The elongation at break and the largest strain *)

Lemma rint_range q : (Qfloor q <= rint q <= Qfloor q + 1)%Z.
Proof.
  unfold rint. destruct (q - inject_Z (Qfloor q) ?= 1 # 2)%Q;
    [destruct (Z.even (Qfloor q))| |]; lia.
Qed.

Lemma rint_mono x y : (x <= y)%Q -> (rint x <= rint y)%Z.
Proof.
  intros L. pose proof (Qfloor_resp_le x y L) as F.
  pose proof (rint_range x) as Rx. pose proof (rint_range y) as Ry.
  destruct (Z.eq_dec (Qfloor x) (Qfloor y)) as [E|N]; [|lia].
  clear Rx Ry F. unfold rint. rewrite <- E. clear E.
  set (f := Qfloor x).
  destruct (x - inject_Z f ?= 1 # 2)%Q eqn:Cx;
    destruct (y - inject_Z f ?= 1 # 2)%Q eqn:Cy;
    try (destruct (Z.even f)); try lia; exfalso.
  all: repeat match goal with
       | H : (_ ?= _)%Q = Eq |- _ => apply Qeq_alt in H
       | H : (_ ?= _)%Q = Lt |- _ => apply Qlt_alt in H
       | H : (_ ?= _)%Q = Gt |- _ => apply Qgt_alt in H
       end; lra.
Qed.

Lemma around_mono d x y : (x <= y)%Q -> (around d x <= around d y)%Q.
Proof.
  intros L. pose proof (pow10_pos d) as P. unfold around, Qdiv.
  apply Qmult_le_compat_r; [|apply Qinv_le_0_compat, Qlt_le_weak, P].
  rewrite <- Zle_Qle. apply rint_mono.
  apply Qmult_le_compat_r; [exact L|apply Qlt_le_weak, P].
Qed.

(** X24: the elongation at break is not the largest strain.  It is the
    strain of the first row with the largest stress, so for a sample with
    distinct labels and without missing strain, in which some row has a
    stress value, it is a value that never exceeds the largest strain
    rounded to one decimal; for strain 0, 1, 2 with stress 1, 5, 3 it is
    1.0 while the largest strain is 2. *)
Theorem elongation_at_break_is_at_most_the_largest_strain :
  (forall f i j r0 s0,
     col_index "strain" (columns f) = Some i ->
     col_index "stress" (columns f) = Some j ->
     List.NoDup (map label (rows f)) ->
     Forall (fun r => is_number (get i r) = true) (rows f) ->
     In r0 (rows f) -> get j r0 = Some s0 ->
     exists e m,
       elongation_at_break_of f = (f, Ok (Some e)) /\
       series_max (column_values i (rows f)) = Some m /\
       (e <= around 1 m)%Q) /\
  (exists e m,
     elongation_at_break_of elongation_sample =
       (elongation_sample, Ok (Some e)) /\
     series_max (column_values 0 (rows elongation_sample)) = Some m /\
     (e == 1)%Q /\ (around 1 m == 2)%Q).
Proof.
  split.
  - intros f i j r0 s0 Hi Hj D N I0 G0.
    destruct (series_max_Some (column_values j (rows f)) s0) as [sm Hm].
    { rewrite <- G0. apply in_map, I0. }
    pose proof (series_max_In _ _ Hm) as Im.
    apply in_map_iff in Im. destruct Im as [r' [Gr' Ir']].
    destruct (first_with_first j sm (rows f)) as [k [r [y [F [Nk _]]]]].
    { exists r'. split; assumption. }
    pose proof (nth_error_In _ _ Nk) as Ir.
    rewrite List.Forall_forall in N. pose proof (N r Ir) as Nr.
    destruct (get i r) as [x|] eqn:Gx; [|discriminate].
    destruct (series_max_Some (column_values i (rows f)) x) as [m Hmx].
    { rewrite <- Gx. apply in_map, Ir. }
    exists (around 1 x), m. split.
    + rewrite (elongation_at_break_of_eq f i j sm r k Hi Hj Hm F Nk D).
      rewrite Gx. reflexivity.
    + split; [exact Hmx|]. apply around_mono.
      apply (series_max_upper _ m x Hmx).
      rewrite <- Gx. apply in_map, Ir.
  - do 2 eexists. split; [vm_compute; reflexivity|].
    split; [vm_compute; reflexivity|]. split; reflexivity.
Qed.

Lemma elongation_at_break_is_at_most_the_largest_strain_witness :
  exists e m,
    elongation_at_break_of elongation_sample =
      (elongation_sample, Ok (Some e)) /\
    series_max (column_values 0 (rows elongation_sample)) = Some m /\
    (e <= around 1 m)%Q.
Proof.
  apply (proj1 elongation_at_break_is_at_most_the_largest_strain
           elongation_sample 0%nat 1%nat (Row 0 [num 0; num 1]) 1%Q).
  - reflexivity.
  - reflexivity.
  - repeat constructor; simpl; intuition discriminate.
  - repeat constructor.
  - left. reflexivity.
  - reflexivity.
Defined.

(** ** The samples of an object constructed without preload *)




(** ** Samples that cleaning leaves without rows *)

(** The loop of [__init__] when a sample raises: the samples before it
    are cleaned, the sample itself is left as the exception found it, and
    the samples after it are as they were. *)
Lemma streamline_loop_stops d p scf e bad rest : forall good ls (h : store),
  List.NoDup ls ->
  holds h ls (good ++ bad :: rest)%list ->
  Forall (fun f => snd (streamline_data d p scf f) = Ok tt) good ->
  snd (streamline_data d p scf bad) = Err e ->
  exists h',
    for_each ls (streamline_data_method d p scf) h = (h', Err e) /\
    holds h' ls
          (map (fun f => fst (streamline_data d p scf f)) good ++
           fst (streamline_data d p scf bad) :: rest)%list.
Proof.
  induction good as [|g good IH]; intros ls h D H G B;
    cbn [app] in H; inversion H as [|l f ls' fs' Hl H']; subst;
    inversion D as [|? ? Nl D']; subst.
  - exists (<[l := fst (streamline_data d p scf bad)]> h). split.
    + cbn [for_each]. erewrite bind_Err; [reflexivity|].
      rewrite (streamline_data_method_eq d p scf l h bad Hl).
      unfold Err in B. rewrite B. reflexivity.
    + cbn [map app]. constructor; [apply lookup_insert_eq|].
      eapply holds_transfer; [|exact H']. intros l' f' I E'.
      rewrite lookup_insert_ne; [exact E'|]. intros ->. contradiction.
  - apply Forall_cons_iff in G. destruct G as [Gg G'].
    set (h1 := <[l := fst (streamline_data d p scf g)]> h).
    assert (H1 : holds h1 ls' (good ++ bad :: rest)%list).
    { eapply holds_transfer; [|exact H']. intros l' f' I E'.
      unfold h1. rewrite lookup_insert_ne; [exact E'|].
      intros ->. contradiction. }
    destruct (IH ls' h1 D' H1 G' B) as [h' [E Hh]].
    exists h'. split.
    + cbn [for_each]. erewrite bind_Ok.
      2:{ rewrite (streamline_data_method_eq d p scf l h g Hl).
          unfold Ok in Gg. rewrite Gg. reflexivity. }
      erewrite bind_Err; [reflexivity|exact E].
    + cbn [map app]. constructor; [|exact Hh].
      pose proof (preserves_streamline_loop d p scf l ls' Nl h1
                    (fst (streamline_data d p scf g))
                    (lookup_insert_eq _ _ _)) as [P _].
      rewrite E in P. exact P.
Qed.

(** Construction when the cleaning of a sample raises: the exception
    leaves [__init__]; the working copies are in the state in which the
    loop stopped and the imported originals are untouched. *)
Lemma init_stops_at_first_failure xl d file mode us ust p (h : store)
    wb cols k scf e good bad rest :
  (us = "" /\ scf = 1%Q \/ us = "%" /\ scf = 100%Q) ->
  xl file = Ok wb ->
  import_filter mode = Some (cols, k) ->
  imported_frames cols k wb = (good ++ bad :: rest)%list ->
  Forall (fun f => snd (streamline_data d p scf f) = Ok tt) good ->
  snd (streamline_data d p scf bad) = Err e ->
  exists h' ro ws,
    init xl d file mode us ust p h = (h', Err e) /\
    holds h' ro (imported_frames cols k wb) /\
    holds h' ws
          (map (fun f => fst (streamline_data d p scf f)) good ++
           fst (streamline_data d p scf bad) :: rest)%list.
Proof.
  intros U X F Sp G B.
  destruct (import_data_Ok xl file mode h wb cols k X F)
    as [h1 [ro [I [Ho S1]]]].
  destruct (deepcopy_spec ro h1 _ Ho) as [h2 [ws [C [Hc [S2 [D Fr]]]]]].
  rewrite Sp in Hc.
  destruct (streamline_loop_stops d p scf e bad rest good ws h2 D Hc G B)
    as [h' [L Hh]].
  exists h', ro, ws. split; [|split; [|exact Hh]].
  - unfold init.
    erewrite bind_Ok with (a := scf) (s' := h).
    2:{ destruct U as [[-> ->]|[-> ->]]; reflexivity. }
    cbv beta. erewrite bind_Ok by exact I. cbv beta iota.
    erewrite bind_Ok by exact C.
    erewrite bind_Err; [reflexivity|exact L].
  - eapply holds_transfer; [|exact Ho]. intros l f Il E.
    assert (N : ~ In l ws).
    { intros Ir. rewrite List.Forall_forall in Fr. specialize (Fr l Ir).
      congruence. }
    pose proof (preserves_streamline_loop d p scf l ws N h2 f
                  (lookup_weaken _ _ _ _ E S2)) as [P _].
    rewrite L in P. exact P.
Qed.

(** C5 (as amended): no exception is caught per sample.  When the
    preload filter removes every row of a sample that has a tool
    distance, cleaning that sample raises an index error, and
    construction from a Lena_Schunter workbook with such a sample raises
    it too: the samples before the first such sample are cleaned, the
    samples after it are left as imported, and no object, hence no
    results table, comes out.  With the two filters that read no tool
    distance a preload makes the first sample raise a key error, with the
    same end.  Without preload construction succeeds and the results
    table has one row per sample of the workbook, also when a sample has
    no usable row; for a curve without rows the strength is then missing,
    the toughness 0 and the elongation at break raises a value error. *)
Theorem empty_sample_is_not_recovered :
  (forall d p scf f i j t,
     wf_frame f ->
     col_index "strain" (columns f) = Some i ->
     col_index "stress" (columns f) = Some j ->
     col_index "tool_distance" (columns f) = Some t ->
     kept_rows i j p (rows f) = [] ->
     streamline_data d (Some p) scf f =
       (Frame (columns f) [], Err IndexError)) /\
  (forall xl d file us ust p (h : store) wb,
     (forall xs ys, length (d xs ys) = length xs) ->
     us = "" \/ us = "%" ->
     xl file = Ok wb ->
     Exists (fun f => kept_rows 1 2 p (rows f) = [])
            (imported_frames ["tool_distance"; "strain"; "stress"] 2 wb) ->
     snd (init xl d file "Lena_Schunter" us ust (Some p) h) =
       Err IndexError) /\
  (forall xl d file us ust p scf (h : store) wb good bad rest,
     (forall xs ys, length (d xs ys) = length xs) ->
     (us = "" /\ scf = 1%Q \/ us = "%" /\ scf = 100%Q) ->
     xl file = Ok wb ->
     imported_frames ["tool_distance"; "strain"; "stress"] 2 wb =
       (good ++ bad :: rest)%list ->
     Forall (fun f => kept_rows 1 2 p (rows f) <> []) good ->
     kept_rows 1 2 p (rows bad) = [] ->
     exists h' ro ws,
       init xl d file "Lena_Schunter" us ust (Some p) h =
         (h', Err IndexError) /\
       holds h' ro
             (imported_frames ["tool_distance"; "strain"; "stress"] 2 wb) /\
       holds h' ws
             (map (fun f => fst (streamline_data d (Some p) scf f)) good ++
              Frame ["tool_distance"; "strain"; "stress"] [] :: rest)%list) /\
  (forall xl d file mode us ust p (h : store) wb cols k bad rest,
     us = "" \/ us = "%" ->
     xl file = Ok wb ->
     import_filter mode = Some (cols, k) ->
     col_index "tool_distance" cols = None ->
     imported_frames cols k wb = bad :: rest ->
     exists h' ro ws i j,
       col_index "strain" cols = Some i /\
       col_index "stress" cols = Some j /\
       init xl d file mode us ust (Some p) h =
         (h', Err (KeyError "tool_distance")) /\
       holds h' ro (imported_frames cols k wb) /\
       holds h' ws (Frame cols (kept_rows i j p (rows bad)) :: rest)) /\
  (forall xl d file mode us ust (h : store) wb cols k,
     us = "" \/ us = "%" ->
     xl file = Ok wb -> import_filter mode = Some (cols, k) ->
     exists h' self,
       init xl d file mode us ust None h = (h', Ok self) /\
       length (name (results self)) = length (skipn k wb) /\
       length (raw self) = length (skipn k wb)) /\
  (strength_of empty_sample = (empty_sample, Ok NaN) /\
   (exists t, toughness_of 100 empty_sample = (empty_sample, Ok (Some t)) /\
              (t == 0)%Q) /\
   exists msg, snd (elongation_at_break_of empty_sample) =
               Err (ValueError msg)).
Proof.
  split; [|split; [|split; [|split; [|split]]]].
  - intros d p scf f i j t W Hi Hj Ht K.
    apply (streamline_data_Some_empty d p scf f i j t); assumption.
  - intros xl d file us ust p h wb Hd U X E.
    destruct (import_data_Ok xl file "Lena_Schunter" h wb _ _ X eq_refl)
      as [h1 [ro [I [Ho S1]]]].
    destruct (deepcopy_spec ro h1 _ Ho) as [h2 [ws [C [Hc [S2 [D _]]]]]].
    set (scf := if String.eqb us "" then 1%Q else 100%Q).
    assert (L : snd (for_each ws (streamline_data_method d (Some p) scf) h2)
                = Err IndexError).
    { apply (streamline_loop_Err d (Some p) scf IndexError ws h2 _ D Hc).
      - unfold imported_frames. apply List.Forall_forall. intros f If.
        apply in_map_iff in If. destruct If as [sh [<- _]].
        apply lena_streamline, Hd.
      - apply List.Exists_exists in E. destruct E as [f [If K]].
        apply List.Exists_exists. exists f. split; [exact If|].
        unfold imported_frames in If. apply in_map_iff in If.
        destruct If as [sh [<- _]].
        rewrite (streamline_data_Some_empty d (p) scf _ 1 2 0);
          try reflexivity; [apply parse_wf|exact K]. }
    unfold init.
    erewrite bind_Ok with (a := scf) (s' := h).
    2:{ unfold scf. destruct U as [->| ->]; reflexivity. }
    cbv beta. erewrite bind_Ok by exact I. cbv beta iota.
    erewrite bind_Ok by exact C.
    unfold bind at 1.
    destruct (for_each ws (streamline_data_method d (Some p) scf) h2)
      as [h' [e|a]]; simpl in L; [|discriminate].
    unfold Err in *. simpl. injection L as ->. reflexivity.
  - intros xl d file us ust p scf h wb good bad rest Hd U X Sp G K.
    assert (In_frames : forall f,
      In f (imported_frames ["tool_distance"; "strain"; "stress"] 2 wb) ->
      exists sh, f = parse ["tool_distance"; "strain"; "stress"] sh).
    { intros f If. unfold imported_frames in If. apply in_map_iff in If.
      destruct If as [sh [<- _]]. eexists. reflexivity. }
    assert (Eb : streamline_data d (Some p) scf bad =
                 (Frame ["tool_distance"; "strain"; "stress"] [],
                  Err IndexError)).
    { destruct (In_frames bad) as [sh ->].
      { rewrite Sp. apply in_or_app. right. left. reflexivity. }
      rewrite (streamline_data_Some_empty d p scf _ 1 2 0);
        try reflexivity; [apply parse_wf|exact K]. }
    destruct (init_stops_at_first_failure xl d file "Lena_Schunter" us ust
                (Some p) h wb _ _ scf IndexError good bad rest U X eq_refl Sp)
      as [h' [ro [ws [E [Ho Hw]]]]].
    + apply List.Forall_forall. intros f If.
      rewrite List.Forall_forall in G. specialize (G f If).
      destruct (In_frames f) as [sh ->].
      { rewrite Sp. apply in_or_app. left. exact If. }
      destruct (kept_rows 1 2 p (rows (parse _ sh))) as [|r0 kept'] eqn:Kf;
        [contradiction|].
      rewrite (streamline_data_Some_eq d p scf _ 1 2 0 r0 kept');
        try reflexivity; [apply parse_wf|exact Hd|exact Kf].
    + rewrite Eb. reflexivity.
    + rewrite Eb in Hw. cbn [fst] in Hw.
      exists h', ro, ws. split; [exact E|]. split; [exact Ho|exact Hw].
  - intros xl d file mode us ust p h wb cols k bad rest U X F T Sp.
    destruct (import_filter_columns mode cols k F T) as [i [j [Hi Hj]]].
    assert (Eb : streamline_data d (Some p)
                   (if String.eqb us "" then 1%Q else 100%Q) bad =
                 (Frame cols (kept_rows i j p (rows bad)),
                  Err (KeyError "tool_distance"))).
    { assert (If : In bad (imported_frames cols k wb))
        by (rewrite Sp; left; reflexivity).
      unfold imported_frames in If. apply in_map_iff in If.
      destruct If as [sh [<- _]].
      rewrite (streamline_data_no_tool_distance d p _ _ i j);
        [reflexivity|apply parse_wf|exact Hi|exact Hj|exact T]. }
    destruct (init_stops_at_first_failure xl d file mode us ust
                (Some p) h wb cols k
                (if String.eqb us "" then 1%Q else 100%Q)
                (KeyError "tool_distance") [] bad rest)
      as [h' [ro [ws [E [Ho Hw]]]]]; try assumption.
    + destruct U as [->| ->]; [left|right]; split; reflexivity.
    + constructor.
    + rewrite Eb. reflexivity.
    + rewrite Eb in Hw. cbn [fst map app] in Hw.
      exists h', ro, ws, i, j. repeat (split; [assumption|]). exact Hw.
  - intros xl d file mode us ust h wb cols k U X F.
    destruct (init_Ok_without_preload xl d file mode us ust h wb cols k
                (if String.eqb us "" then 1%Q else 100%Q))
      as [h' [ro [ws [E [_ Lw]]]]]; try assumption.
    { destruct U as [->| ->]; [left|right]; split; reflexivity. }
    do 2 eexists. split; [exact E|].
    cbn [results raw]. rewrite named_results_length, length_map.
    split; [reflexivity|exact Lw].
  - split; [reflexivity|]. split.
    + eexists. split; [vm_compute; reflexivity|reflexivity].
    + eexists. vm_compute. reflexivity.
Qed.

Lemma empty_sample_is_not_recovered_witness :
  (exists h' ro ws,
     init preload_file derivative "lab.xls" "Lena_Schunter" "%" "kPa"
          (Some 100%Q) ∅ = (h', Err IndexError) /\
     holds h' ro
           (imported_frames ["tool_distance"; "strain"; "stress"] 2
                            preload_workbook) /\
     holds h' ws
           [Frame ["tool_distance"; "strain"; "stress"] [];
            parse ["tool_distance"; "strain"; "stress"]
                  [[num 10; num 0; num 50]; [num 9; num 10; num 150]]]) /\
  (exists h' ro ws i j,
     col_index "strain" ["stress"; "strain"] = Some i /\
     col_index "stress" ["stress"; "strain"] = Some j /\
     init lab_file derivative "lab.xls" "Philipp Manglkammer" "%" "kPa"
          (Some 100%Q) ∅ = (h', Err (KeyError "tool_distance")) /\
     holds h' ro (imported_frames ["stress"; "strain"] 3 lab_workbook) /\
     holds h' ws
           [Frame ["stress"; "strain"]
                  (kept_rows i j 100
                     (rows (parse ["stress"; "strain"]
                              [[num 0; num 0]; [num 10; num 1];
                               [num 20; num 2]])));
            parse ["stress"; "strain"]
                  [[num 1; num 0]; [num 5; num 1]; [num 3; num 2]]]) /\
  exists h' self,
    init preload_file derivative "lab.xls" "Lena_Schunter" "%" "kPa"
         None ∅ = (h', Ok self) /\
    length (name (results self)) = 2%nat /\ length (raw self) = 2%nat.
Proof.
  split; [|split].
  - apply (proj1 (proj2 (proj2 empty_sample_is_not_recovered)) preload_file
             derivative "lab.xls" "%" "kPa" 100%Q 100%Q ∅ preload_workbook
             []
             (parse ["tool_distance"; "strain"; "stress"]
                    [[num 10; num 0; num 5]; [num 9; num 10; num 6]])
             [parse ["tool_distance"; "strain"; "stress"]
                    [[num 10; num 0; num 50]; [num 9; num 10; num 150]]]).
    + apply derivative_length.
    + right. split; reflexivity.
    + reflexivity.
    + reflexivity.
    + constructor.
    + reflexivity.
  - apply (proj1 (proj2 (proj2 (proj2 empty_sample_is_not_recovered)))
             lab_file derivative "lab.xls" "Philipp Manglkammer" "%" "kPa"
             100%Q ∅ lab_workbook ["stress"; "strain"] 3%nat
             (parse ["stress"; "strain"]
                    [[num 0; num 0]; [num 10; num 1]; [num 20; num 2]])
             [parse ["stress"; "strain"]
                    [[num 1; num 0]; [num 5; num 1]; [num 3; num 2]]]).
    + right. reflexivity.
    + reflexivity.
    + reflexivity.
    + reflexivity.
    + reflexivity.
  - apply (proj1 (proj2 (proj2 (proj2 (proj2 empty_sample_is_not_recovered))))
             preload_file
             derivative "lab.xls" "Lena_Schunter" "%" "kPa" ∅
             preload_workbook ["tool_distance"; "strain"; "stress"] 2%nat).
    + right. reflexivity.
    + reflexivity.
    + reflexivity.
Defined.

(** Construction from a workbook whose first sample stays below the
    preload: the index error ends it, although the second sample has
    usable rows; no object and no results table comes out. *)
Lemma preload_removing_all_rows_aborts :
  Exists (fun f => kept_rows 1 2 100 (rows f) = [])
         (imported_frames ["tool_distance"; "strain"; "stress"] 2
                          preload_workbook) /\
  Exists (fun f => kept_rows 1 2 100 (rows f) <> [])
         (imported_frames ["tool_distance"; "strain"; "stress"] 2
                          preload_workbook) /\
  snd (init preload_file derivative "lab.xls" "Lena_Schunter" "%" "kPa"
            (Some 100%Q) ∅) = Err IndexError /\
  forall self,
    snd (init preload_file derivative "lab.xls" "Lena_Schunter" "%" "kPa"
              (Some 100%Q) ∅) <> Ok self.
Proof.
  split; [left; reflexivity|].
  split; [right; left; vm_compute; discriminate|].
  split; [vm_compute; reflexivity|].
  intros self. vm_compute. discriminate.
Qed.
